(** * APx-10ginit: MAC handling, MDIO transactions and 10GbE bring-up

    A shallow embedding of [10ginit.cpp] and [mdio.cpp].

    - Fixed-width C integers are [Z] with the wrap-around written out.
    - The six-octet buffers [macbuf] are [list byte], read by index.
    - [std::string] is [string].
    - Calls into the platform libraries (easymem, libgpiod, libwisci2c, libc)
      are recorded in a log of events; what each call returns is decided by
      the hardware, modelled as a function of the call and of the number of
      events so far.
    - [main] runs in a small monad that threads the log and implements the
      early [return]s of the source. *)

From Stdlib Require Import ZArith List String Ascii Bool Lia.
From Stdlib.Strings Require Import Byte.
Import ListNotations.

Local Open Scope string_scope.
Local Open Scope Z_scope.

(** ** Machine integers *)

Definition wrap (bits : Z) (x : Z) : Z := x mod 2 ^ bits.
Definition u8 (x : Z) : Z := wrap 8 x.
Definition u32 (x : Z) : Z := wrap 32 x.

Definition byte_to_Z (b : byte) : Z := Z.of_N (Byte.to_N b).

Definition byte_of_Z (z : Z) : byte :=
  match Byte.of_N (Z.to_N (u8 z)) with
  | Some b => b
  | None => x00
  end.

(** [macbuf[i]] for a [uint8_t macbuf[6]]. *)
Definition idx (macbuf : list byte) (i : nat) : byte := nth i macbuf x00.

(** ** printf-style rendering of hexadecimal numbers *)

Definition hex_char (d : Z) : ascii :=
  match String.get (Z.to_nat d) "0123456789abcdef" with
  | Some c => c
  | None => "?"%char
  end.

(** Digits of [x] in base 16, most significant first, at least one digit. *)
Fixpoint hex_digits (fuel : nat) (x : Z) (acc : string) : string :=
  match fuel with
  | O => acc
  | S fuel' =>
      let acc' := String (hex_char (x mod 16)) acc in
      if x / 16 =? 0 then acc' else hex_digits fuel' (x / 16) acc'
  end.

Fixpoint zero_pad (n : nat) (s : string) : string :=
  match n with
  | O => s
  | S n' => String "0"%char (zero_pad n' s)
  end.

(** [%0<width>x] of an unsigned value below 2^32. *)
Definition fmt_0x (width : nat) (x : Z) : string :=
  let ds := hex_digits 8 x "" in
  zero_pad (width - String.length ds) ds.

(** [%02hhx]: the argument is converted to [unsigned char] first. *)
Definition fmt_02hhx (b : byte) : string := fmt_0x 2 (u8 (byte_to_Z b)).

(** The text [snprintf] would produce for
    ["%02hhx:%02hhx:%02hhx:%02hhx:%02hhx:%02hhx"]. *)
Definition mac_text (macbuf : list byte) : string :=
  fmt_02hhx (idx macbuf 0) ++ ":" ++ fmt_02hhx (idx macbuf 1) ++ ":" ++
  fmt_02hhx (idx macbuf 2) ++ ":" ++ fmt_02hhx (idx macbuf 3) ++ ":" ++
  fmt_02hhx (idx macbuf 4) ++ ":" ++ fmt_02hhx (idx macbuf 5).

(** [snprintf(buf, size, ...)]: the buffer receives at most [size - 1]
    characters, the return value is the untruncated length. *)
Definition snprintf (size : nat) (text : string) : string * Z :=
  (substring 0 (size - 1) text, Z.of_nat (String.length text)).

(** [format_mac] (10ginit.cpp:31-36).  [None] stands for the
    [std::runtime_error] thrown when the length is not 17. *)
Definition format_mac (macbuf : list byte) : option string :=
  let '(macstr, n) := snprintf 20 (mac_text macbuf) in
  if negb (n =? 17) then None else Some macstr.

(** ** sscanf

    The two format strings of the source are interpreted by a small model of
    the C library's formatted input (C11 7.21.6.2): white-space directives,
    ordinary characters, the conversions [%d], [%x] and [%hhx], and [%n].
    The digits of a conversion are converted as the C library converts them,
    with [strtoll] for the signed [%d] and with [strtoull] for [%x] and
    [%hhx]: a number outside the range of the 64-bit type becomes the limit
    of that range.  The 64-bit result is then stored truncated to the width
    of the object it is stored into (the uint32_t that receives a [%d] gets
    the bits of the int). *)

Inductive directive : Type :=
| DSpace                                  (* white space in the format *)
| DLit (c : ascii)                        (* an ordinary character *)
| DInt (signed : bool) (base : Z) (bits : Z)   (* %d, %x, %hhx *)
| DCount                                  (* %n *)
| DBad.                                   (* anything the model lacks *)

Definition isspace (c : ascii) : bool :=
  let n := Z.of_nat (nat_of_ascii c) in
  (n =? 32) || ((9 <=? n) && (n <=? 13)).

(** Directives of a format string. *)
Fixpoint parse_format (fmt : string) : list directive :=
  match fmt with
  | EmptyString => []
  | String "%" (String "d" f) => DInt true 10 32 :: parse_format f
  | String "%" (String "x" f) => DInt false 16 32 :: parse_format f
  | String "%" (String "h" (String "h" (String "x" f))) =>
      DInt false 16 8 :: parse_format f
  | String "%" (String "n" f) => DCount :: parse_format f
  | String "%" f => DBad :: parse_format f
  | String c f =>
      (if isspace c then DSpace else DLit c) :: parse_format f
  end.

Definition digit_val (base : Z) (c : ascii) : option Z :=
  let n := Z.of_nat (nat_of_ascii c) in
  let v :=
    if (48 <=? n) && (n <=? 57) then n - 48            (* '0'..'9' *)
    else if (97 <=? n) && (n <=? 102) then n - 87      (* 'a'..'f' *)
    else if (65 <=? n) && (n <=? 70) then n - 55       (* 'A'..'F' *)
    else 99 in
  if v <? base then Some v else None.

(** Input position: what is left of the input and how much was consumed. *)
Record cursor : Type := mkCursor { rest : string; consumed : Z }.

Fixpoint skip_space (s : string) (n : Z) : cursor :=
  match s with
  | String c s' => if isspace c then skip_space s' (n + 1) else mkCursor s n
  | EmptyString => mkCursor s n
  end.

(** Longest run of digits; returns the value, the number of digits and the
    position after them. *)
Fixpoint scan_digits (base : Z) (s : string) (n : Z) (acc : Z) (cnt : Z)
  : Z * Z * cursor :=
  match s with
  | String c s' =>
      match digit_val base c with
      | Some d => scan_digits base s' (n + 1) (acc * base + d) (cnt + 1)
      | None => (acc, cnt, mkCursor s n)
      end
  | EmptyString => (acc, cnt, mkCursor s n)
  end.

Inductive scan_failure : Type := InputFailure | MatchingFailure.

Definition is_x (c : ascii) : bool :=
  (Ascii.eqb c "x" || Ascii.eqb c "X")%bool.

(** An optionally signed integer, as [strtol]/[strtoul] take it: leading
    white space, a sign, for base 16 an optional "0x", then digits. *)
Definition scan_int (base : Z) (cur : cursor) : cursor * (scan_failure + Z) :=
  let c0 := skip_space (rest cur) (consumed cur) in
  match rest c0 with
  | EmptyString => (c0, inl InputFailure)
  | String c s' =>
      let '(sign, s1, n1) :=
        if Ascii.eqb c "-" then (-1, s', consumed c0 + 1)
        else if Ascii.eqb c "+" then (1, s', consumed c0 + 1)
        else (1, rest c0, consumed c0) in
      let '(prefixed, s2, n2) :=
        match s1 with
        | String z (String x s'') =>
            if (base =? 16) && Ascii.eqb z "0" && is_x x then (true, s'', n1 + 2)
            else (false, s1, n1)
        | _ => (false, s1, n1)
        end in
      let '(v, cnt, c3) := scan_digits base s2 n2 0 0 in
      if (cnt =? 0) && negb prefixed then (c3, inl MatchingFailure)
      else (c3, inr (sign * v))
  end.

Definition LLONG_MAX : Z := 2 ^ 63 - 1.
Definition LLONG_MIN : Z := - 2 ^ 63.
Definition ULLONG_MAX : Z := 2 ^ 64 - 1.

(** [strtoll] on the number [v]: clamped to the range of long long. *)
Definition strtoll (v : Z) : Z :=
  if LLONG_MAX <? v then LLONG_MAX
  else if v <? LLONG_MIN then LLONG_MIN
  else v.

(** [strtoull] on the number [v]: a magnitude beyond the range gives
    ULLONG_MAX whatever the sign; otherwise a negative number is negated as
    an unsigned value. *)
Definition strtoull (v : Z) : Z :=
  if ULLONG_MAX <? Z.abs v then ULLONG_MAX else wrap 64 v.

(** The 64-bit value of a conversion and what is stored of it in an object
    of [bits] bits. *)
Definition converted (signed : bool) (v : Z) : Z :=
  if signed then strtoll v else strtoull v.

Definition stored (signed : bool) (bits : Z) (v : Z) : Z :=
  wrap bits (converted signed v).

Record scan_result : Type := mkScan {
  sc_ret : Z;              (* value returned by sscanf *)
  sc_vals : list Z;        (* objects assigned, in order *)
  sc_count : option Z      (* what %n stored, if it was reached *)
}.

Definition scan_stop (f : scan_failure) (vals : list Z) (cnt : option Z)
  : scan_result :=
  match f, vals with
  | InputFailure, [] => mkScan (-1) vals cnt          (* EOF *)
  | _, _ => mkScan (Z.of_nat (List.length vals)) vals cnt
  end.

Fixpoint run_directives (ds : list directive) (cur : cursor)
    (vals : list Z) (cnt : option Z) : scan_result :=
  match ds with
  | [] => mkScan (Z.of_nat (List.length vals)) vals cnt
  | DSpace :: ds' =>
      run_directives ds' (skip_space (rest cur) (consumed cur)) vals cnt
  | DLit c :: ds' =>
      match rest cur with
      | EmptyString => scan_stop InputFailure vals cnt
      | String c' s' =>
          if Ascii.eqb c c'
          then run_directives ds' (mkCursor s' (consumed cur + 1)) vals cnt
          else scan_stop MatchingFailure vals cnt
      end
  | DInt signed base bits :: ds' =>
      match scan_int base cur with
      | (_, inl f) => scan_stop f vals cnt
      | (cur', inr v) =>
          run_directives ds' cur' (vals ++ [stored signed bits v]) cnt
      end
  | DCount :: ds' => run_directives ds' cur vals (Some (consumed cur))
  | DBad :: _ => scan_stop MatchingFailure vals cnt
  end.

Definition sscanf (input : string) (fmt : string) : scan_result :=
  run_directives (parse_format fmt) (mkCursor input 0) [] None.

(** ** MDIO write list (10ginit.cpp:38-61) *)

Record MDIO_Operation : Type := mkOp {
  port : Z;
  dev : Z;
  reg : Z;
  val : Z
}.

(** [s.substr(i)] *)
Definition substr_from (s : string) (i : Z) : string :=
  substring (Z.to_nat i) (String.length s - Z.to_nat i) s.

Definition size (s : string) : Z := Z.of_nat (String.length s).

(** The [for (int i = 0; i < size;)] loop.  Every pass that does not leave
    the loop moves [i] forward, so [fuel] counts the passes that are left;
    [None] is a loop that would not have ended within [fuel] passes. *)
Fixpoint parse_mdio_loop (fuel : nat) (mdio_config_str : string) (i : Z)
    (ops : list MDIO_Operation) : option (list MDIO_Operation) :=
  match fuel with
  | O => None
  | S fuel' =>
      if i <? size mdio_config_str then
        let r := sscanf (substr_from mdio_config_str i) " %d.%d:%x=%x %n" in
        if negb (sc_ret r =? 4) then Some ops
        else
          let incr := match sc_count r with Some n => n | None => 0 end in
          let op := mkOp (nth 0 (sc_vals r) 0) (nth 1 (sc_vals r) 0)
                         (nth 2 (sc_vals r) 0) (nth 3 (sc_vals r) 0) in
          parse_mdio_loop fuel' mdio_config_str (i + incr) (ops ++ [op])
      else Some ops
  end.

Definition parse_mdio_writes (mdio_config_str : string)
  : option (list MDIO_Operation) :=
  parse_mdio_loop (S (String.length mdio_config_str)) mdio_config_str 0 [].

(** The MAC text given to [-s] (10ginit.cpp:229): [Some] of the six octets
    when [sscanf] reports six assignments. *)
Definition scan_mac (set_mac : string) : option (list byte) :=
  let r := sscanf set_mac "%hhx:%hhx:%hhx:%hhx:%hhx:%hhx" in
  if negb (sc_ret r =? 6) then None
  else Some (map byte_of_Z (sc_vals r)).

(** ** The platform: events and the hardware's answers *)

Inductive region : Type := GBE | MDIO.

Inductive stream : Type := stdout | stderr.

Inductive arg : Type := AStr (s : string) | ANum (z : Z).

Inductive event : Type :=
| EvPrintf (f : stream) (fmt : string) (args : list arg)
| EvPerror (msg : string)
| EvMapUio (r : region) (path : string) (ret : Z)
| EvRealpath (path : string) (ret : Z)
| EvChipOpen (ret : Z)
| EvGetLine (bit : Z) (ret : Z)
| EvOpen (path : string) (fd : Z)
| EvI2cRead (fd addr off len : Z) (ret : Z) (data : list byte)
| EvI2cWrite (fd addr off : Z) (data : list byte) (ret : Z)
| EvRequestOutput (consumer : string) (v : Z) (ret : Z)
| EvSetValue (v : Z) (ret : Z)
| EvWrite32 (r : region) (offset : Z) (v : Z) (ret : Z)
| EvRead32 (r : region) (offset : Z) (ret : Z) (v : Z)
| EvUnsafeRead32 (r : region) (offset : Z) (v : Z)
| EvUsleep (us : Z)
| EvSleep (s : Z).

(** The calls whose result the platform decides. *)
Inductive request : Type :=
| MapUio (r : region) (path : string)
| Realpath (path : string)
| ChipOpen
| GetLine (bit : Z)
| Open (path : string)
| I2cRead (fd addr off len : Z)
| I2cWrite (fd addr off : Z) (data : list byte)
| RequestOutput (consumer : string) (v : Z)
| SetValue (v : Z)
| Write32 (r : region) (offset : Z) (v : Z)
| Read32 (r : region) (offset : Z)
| UnsafeRead32 (r : region) (offset : Z).

(** What the platform hands back from one call: the call's return value
    (for calls returning a pointer, 0 is NULL), the 32-bit word of a
    register read, and the bytes of an I2C transfer. *)
Record response : Type := mkResp {
  r_ret : Z;
  r_word : Z;
  r_bytes : list byte
}.

(** The hardware decides each answer from the call and from how many events
    came before it (the program is sequential, so this covers any
    deterministic device). *)
Definition hardware : Type := nat -> request -> response.

(** ** The monad of [main]: a log (newest event first) and the ways a
    computation can end. *)

Inductive outcome (A : Type) : Type :=
| Ret (a : A)          (* the computation went on to its end *)
| Exit (code : Z)      (* a [return code;] was executed *)
| Throw                (* an exception nobody catches *)
| Hang.                (* a loop that does not end *)
Arguments Ret {A} a.
Arguments Exit {A} code.
Arguments Throw {A}.
Arguments Hang {A}.

Definition M (A : Type) : Type := hardware -> list event -> list event * outcome A.

Definition ret {A} (a : A) : M A := fun _ log => (log, Ret a).

Definition bind {A B} (m : M A) (k : A -> M B) : M B :=
  fun hw log =>
    match m hw log with
    | (log', Ret a) => k a hw log'
    | (log', Exit c) => (log', Exit c)
    | (log', Throw) => (log', Throw)
    | (log', Hang) => (log', Hang)
    end.

Notation "x <- m ;; k" := (bind m (fun x => k))
  (at level 61, m at next level, right associativity).
Notation "m ;; k" := (bind m (fun _ => k))
  (at level 61, right associativity).

(** [return code;] *)
Definition return_ {A} (code : Z) : M A := fun _ log => (log, Exit code).

Definition throw {A} : M A := fun _ log => (log, Throw).

(** [if (c) { ... }] without an else branch. *)
Definition when (c : bool) (m : M unit) : M unit := if c then m else ret tt.

(** A called function: its [return] ends the function, not the caller. *)
Definition fn (body : M Z) : M Z :=
  fun hw log =>
    match body hw log with
    | (log', Exit c) => (log', Ret c)
    | r => r
    end.

(** An effect with no answer. *)
Definition emit (e : event) : M unit := fun _ log => (e :: log, Ret tt).

(** A call into the platform: the answer comes from the hardware. *)
Definition call (rq : request) (mk : response -> event) : M response :=
  fun hw log => let a := hw (List.length log) rq in (mk a :: log, Ret a).

Definition fprintf (f : stream) (fmt : string) (args : list arg) : M unit :=
  emit (EvPrintf f fmt args).
Definition perror (msg : string) : M unit := emit (EvPerror msg).
Definition usleep (us : Z) : M unit := emit (EvUsleep us).
Definition sleep (s : Z) : M unit := emit (EvSleep s).

Definition easymem_map_uio (r : region) (path : string) : M Z :=
  a <- call (MapUio r path) (fun a => EvMapUio r path (r_ret a)) ;;
  ret (r_ret a).

Definition easymem_safewrite32 (r : region) (offset : Z) (v : Z) : M Z :=
  a <- call (Write32 r offset v) (fun a => EvWrite32 r offset v (r_ret a)) ;;
  ret (r_ret a).

(** Returns the status and the word read. *)
Definition easymem_saferead32 (r : region) (offset : Z) : M (Z * Z) :=
  a <- call (Read32 r offset)
         (fun a => EvRead32 r offset (r_ret a) (u32 (r_word a))) ;;
  ret (r_ret a, u32 (r_word a)).

Definition UNSAFE_REG32 (r : region) (offset : Z) : M Z :=
  a <- call (UnsafeRead32 r offset)
         (fun a => EvUnsafeRead32 r offset (u32 (r_word a))) ;;
  ret (u32 (r_word a)).

Definition realpath (path : string) : M Z :=
  a <- call (Realpath path) (fun a => EvRealpath path (r_ret a)) ;;
  ret (r_ret a).

Definition gpiod_chip_open : M Z :=
  a <- call ChipOpen (fun a => EvChipOpen (r_ret a)) ;; ret (r_ret a).

Definition gpiod_chip_get_line (bit : Z) : M Z :=
  a <- call (GetLine bit) (fun a => EvGetLine bit (r_ret a)) ;; ret (r_ret a).

Definition open (path : string) : M Z :=
  a <- call (Open path) (fun a => EvOpen path (r_ret a)) ;; ret (r_ret a).

Definition gpiod_line_request_output (consumer : string) (v : Z) : M Z :=
  a <- call (RequestOutput consumer v)
         (fun a => EvRequestOutput consumer v (r_ret a)) ;;
  ret (r_ret a).

Definition gpiod_line_set_value (v : Z) : M Z :=
  a <- call (SetValue v) (fun a => EvSetValue v (r_ret a)) ;; ret (r_ret a).

(** The [len] bytes the transfer leaves in the caller's buffer. *)
Definition buffer (a : response) (len : nat) : list byte :=
  map (fun k => nth k (r_bytes a) x00) (seq 0 len).

(** Returns the count reported and the buffer as the transfer left it. *)
Definition i2c_read (fd addr off : Z) (len : nat) : M (Z * list byte) :=
  a <- call (I2cRead fd addr off (Z.of_nat len))
         (fun a => EvI2cRead fd addr off (Z.of_nat len) (r_ret a) (buffer a len)) ;;
  ret (r_ret a, buffer a len).

Definition i2c_write (fd addr off : Z) (data : list byte) : M Z :=
  a <- call (I2cWrite fd addr off data)
         (fun a => EvI2cWrite fd addr off data (r_ret a)) ;;
  ret (r_ret a).

(** ** validate_mac_address (10ginit.cpp:63-87)

    The texts are the source's format strings as written there (escape
    sequences unexpanded; the escaped double quotes of the last one appear
    as single quotes). *)

Definition format_mac_or_throw (macbuf : list byte) : M string :=
  match format_mac macbuf with
  | Some s => ret s
  | None => throw
  end.

Definition validate_mac_address (valid_mac_prefix : string)
    (macbuf : list byte) (warn : bool) : M bool :=
  if (String.length valid_mac_prefix =? 0)%nat then
    when warn
      (fprintf stderr "Warning: config.valid_mac_address_prefix is not set!\n" []) ;;
    ret true
  else
    fmac <- format_mac_or_throw macbuf ;;
    if String.eqb fmac "00:00:00:00:00:00" then
      fprintf stderr "Error: MAC address %s is not valid!  It cannot be 00:00:00:00:00:00.\n" [AStr fmac] ;;
      ret false
    else if String.eqb fmac "ff:ff:ff:ff:ff:ff" then
      fprintf stderr "Error: MAC address %s is not valid!  It cannot be ff:ff:ff:ff:ff:ff (the broadcast MAC address).\n" [AStr fmac] ;;
      ret false
    else if negb (Z.land (byte_to_Z (idx macbuf 0)) 1 =? 0) then
      fprintf stderr "Error: MAC address %s is not valid!  It cannot be a multicast MAC address.\n" [AStr fmac] ;;
      ret false
    else if negb (String.eqb (substring 0 (String.length valid_mac_prefix) fmac) valid_mac_prefix) then
      fprintf stderr "Error: MAC address %s is not valid!  It must begin with '%s' (config.valid_mac_address_prefix).\n" [AStr fmac; AStr valid_mac_prefix] ;;
      ret false
    else ret true.

(** ** mdio.cpp *)

Definition MDIO_OP_ADDR : Z := 0.
Definition MDIO_OP_WR : Z := 1.
Definition MDIO_OP_RD : Z := 3.

Definition MDIO_ADDRESS1_OFFSET : Z := 0x00.
Definition MDIO_ADDRESS2_OFFSET : Z := 0x04.
Definition MDIO_WRITE_BUF_OFFSET : Z := 0x08.
Definition MDIO_READ_BUF_OFFSET : Z := 0x0c.
Definition MDIO_CTRL_REG_OFFSET : Z := 0x10.

Definition MDIO_CTRL_ENA_BIT : Z := 0x8.
Definition MDIO_CTRL_REQ_BUSY_BIT : Z := 0x1.

Definition MDIO_ADDRESS1_OP_MASK : Z := 0x3.
Definition MDIO_ADDRESS1_OP_POSN : Z := 10.
Definition MDIO_ADDRESS1_PORT_MASK : Z := 0x1f.
Definition MDIO_ADDRESS1_PORT_POSN : Z := 5.
Definition MDIO_ADDRESS1_DEV_MASK : Z := 0x1f.
Definition MDIO_ADDRESS1_DEV_POSN : Z := 0.

(** The macro [MDIO_ADDR1], evaluated in 32-bit unsigned arithmetic. *)
Definition MDIO_ADDR1 (OPCODE PORT DEVICE : Z) : Z :=
  u32 (u32 (u32 (Z.shiftl (Z.land OPCODE MDIO_ADDRESS1_OP_MASK) MDIO_ADDRESS1_OP_POSN) +
            u32 (Z.shiftl (Z.land PORT MDIO_ADDRESS1_PORT_MASK) MDIO_ADDRESS1_PORT_POSN)) +
       u32 (Z.shiftl (Z.land DEVICE MDIO_ADDRESS1_DEV_MASK) MDIO_ADDRESS1_DEV_POSN)).

Definition MDIO_STATUS_POLL_LIMIT : Z := 100.
Definition MDIO_STATUS_POLL_DELAY : Z := 10000.

(** The loop [for (i = 0; i < MDIO_STATUS_POLL_LIMIT; i++)] that waits for
    the BUSY bit to clear; the three functions of mdio.cpp each contain the
    same loop (lines 78-84, 124-130, 166-172).  [left] is the number of
    passes the bound still allows, [MDIO_STATUS_POLL_LIMIT - i]; the value
    returned is [i] when the loop is left. *)
Fixpoint mdio_poll (left : nat) (i : Z) : M Z :=
  match left with
  | O => ret i
  | S left' =>
      rd <- easymem_saferead32 MDIO MDIO_CTRL_REG_OFFSET ;;
      let '(r, regval) := rd in
      when (r <? 0) (return_ (-1)) ;;
      if Z.land regval MDIO_CTRL_REQ_BUSY_BIT =? 0 then ret i
      else usleep MDIO_STATUS_POLL_DELAY ;; mdio_poll left' (i + 1)
  end.

(** The loop followed by [if (i == MDIO_STATUS_POLL_LIMIT) return -1;]. *)
Definition mdio_wait_not_busy : M unit :=
  i <- mdio_poll (Z.to_nat MDIO_STATUS_POLL_LIMIT) 0 ;;
  when (i =? MDIO_STATUS_POLL_LIMIT) (return_ (-1)).

Definition mdio_phy_addr (PortAddr DeviceAddr RegAddr : Z) : M Z :=
  fn (
    let regval := MDIO_ADDR1 MDIO_OP_ADDR PortAddr DeviceAddr in
    r <- easymem_safewrite32 MDIO MDIO_ADDRESS1_OFFSET regval ;;
    when (r <? 0) (return_ (-1)) ;;
    usleep 10000 ;;
    r <- easymem_safewrite32 MDIO MDIO_ADDRESS2_OFFSET RegAddr ;;
    when (r <? 0) (return_ (-1)) ;;
    usleep 10000 ;;
    let regval := Z.lor MDIO_CTRL_ENA_BIT MDIO_CTRL_REQ_BUSY_BIT in
    r <- easymem_safewrite32 MDIO MDIO_CTRL_REG_OFFSET regval ;;
    when (r <? 0) (return_ (-1)) ;;
    usleep 10000 ;;
    mdio_wait_not_busy ;;
    ret 0).

Definition mdio_phy_write (PortAddr DeviceAddr RegAddr WriteBuf : Z) : M Z :=
  fn (
    r <- mdio_phy_addr PortAddr DeviceAddr RegAddr ;;
    when (r <? 0) (return_ (-1)) ;;
    let regval := MDIO_ADDR1 MDIO_OP_WR PortAddr DeviceAddr in
    r <- easymem_safewrite32 MDIO MDIO_ADDRESS1_OFFSET regval ;;
    when (r <? 0) (return_ (-1)) ;;
    r <- easymem_safewrite32 MDIO MDIO_WRITE_BUF_OFFSET WriteBuf ;;
    when (r <? 0) (return_ (-1)) ;;
    let regval := Z.lor MDIO_CTRL_ENA_BIT MDIO_CTRL_REQ_BUSY_BIT in
    r <- easymem_safewrite32 MDIO MDIO_CTRL_REG_OFFSET regval ;;
    when (r <? 0) (return_ (-1)) ;;
    mdio_wait_not_busy ;;
    ret 0).

(** Returns the status and [*pReadBuf]; when the function fails the
    caller's [ReadBuf] is reported unchanged. *)
Definition mdio_phy_read (PortAddr DeviceAddr RegAddr : Z) (ReadBuf : Z)
  : M (Z * Z) :=
  let body : M (Z * Z) :=
    r <- mdio_phy_addr PortAddr DeviceAddr RegAddr ;;
    when (r <? 0) (return_ (-1)) ;;
    let regval := MDIO_ADDR1 MDIO_OP_RD PortAddr DeviceAddr in
    r <- easymem_safewrite32 MDIO MDIO_ADDRESS1_OFFSET regval ;;
    when (r <? 0) (return_ (-1)) ;;
    let regval := Z.lor MDIO_CTRL_ENA_BIT MDIO_CTRL_REQ_BUSY_BIT in
    r <- easymem_safewrite32 MDIO MDIO_CTRL_REG_OFFSET regval ;;
    when (r <? 0) (return_ (-1)) ;;
    mdio_wait_not_busy ;;
    rd <- easymem_saferead32 MDIO MDIO_READ_BUF_OFFSET ;;
    when (fst rd <? 0) (return_ (-1)) ;;
    ret (0, snd rd) in
  fun hw log =>
    match body hw log with
    | (log', Exit c) => (log', Ret (c, ReadBuf))
    | r => r
    end.

(** ** main (10ginit.cpp:89-357) *)

Definition GBE_RST_SETTLE_US : Z := 1000000.

Definition GBE_REG_USR_MAC_HIGH : Z := 0x00.
Definition GBE_REG_USR_MAC_LOW : Z := 0x04.
Definition GBE_REG_USR_IP : Z := 0x08.
Definition GBE_REG_TEST_REG : Z := 0x0c.
Definition GBE_REG_SYSTEM_MAC_HIGH : Z := 0x10.
Definition GBE_REG_SYSTEM_MAC_LOW : Z := 0x14.
Definition GBE_REG_USR_MAC_CFG : Z := 0x18.

(** The values [main] takes from the configuration file. *)
Record Config : Type := mkConfig {
  gbe_uio : string;
  mdio_uio : string;
  mdio_reg_writes : string;
  reset_gpio : string;
  reset_gpio_bit : Z;
  mac_eeprom_bus : string;
  mac_eeprom_address : Z;
  mac_eeprom_offset : Z;
  valid_mac_address_prefix : string
}.

Inductive Action : Type := DO_NOTHING | DO_QUERY | DO_STORE | DO_INITIALIZE.

Definition is_nothing (a : Action) : bool :=
  match a with DO_NOTHING => true | _ => false end.

(** What [getopt(argc, argv, "c:qs:i")] yields, one per option. *)
Inductive cli_option : Type :=
| OptC (optarg : string)
| OptQ
| OptS (optarg : string)
| OptI
| OptOther.

Definition usage : string :=
  "%s [options]\n\n-c FILENAME  -- The configuration file specifying relevant device paths.\n\nActions (choose one):\n  -q         -- Query the stored MAC address.\n  -s MAC     -- Update the stored MAC address.\n  -i         -- Initialize the 10GbE core.\n\n".

Record Args : Type := mkArgs {
  config_file_path : string;
  action : Action;
  set_mac : string
}.

(** The [while ((opt = getopt(...)) != -1)] loop. *)
Fixpoint getopt_loop (argv0 : string) (opts : list cli_option) (a : Args)
  : M Args :=
  match opts with
  | [] => ret a
  | OptC optarg :: more =>
      getopt_loop argv0 more (mkArgs optarg (action a) (set_mac a))
  | OptQ :: more =>
      when (negb (is_nothing (action a)))
        (fprintf stderr usage [AStr argv0] ;; return_ 1) ;;
      getopt_loop argv0 more (mkArgs (config_file_path a) DO_QUERY (set_mac a))
  | OptS optarg :: more =>
      when (negb (is_nothing (action a)))
        (fprintf stderr usage [AStr argv0] ;; return_ 1) ;;
      getopt_loop argv0 more (mkArgs (config_file_path a) DO_STORE optarg)
  | OptI :: more =>
      when (negb (is_nothing (action a)))
        (fprintf stderr usage [AStr argv0] ;; return_ 1) ;;
      getopt_loop argv0 more (mkArgs (config_file_path a) DO_INITIALIZE (set_mac a))
  | OptOther :: _ =>
      fprintf stderr usage [AStr argv0] ;; return_ 1
  end.

(** [memcmp(a, b, 6) != 0] on two six-octet buffers. *)
Definition memcmp6_differs (a b : list byte) : bool :=
  negb (forallb (fun i => Byte.eqb (idx a i) (idx b i)) (seq 0 6)).

(** [for (int i = lo; i < lo + n; ++i) acc |= (macbuf[i] << (8 * (i - lo)))]
    with [acc] a [uint32_t]. *)
Definition pack_octets (macbuf : list byte) (lo n : nat) : Z :=
  fold_left
    (fun acc i =>
       Z.lor acc (u32 (Z.shiftl (byte_to_Z (idx macbuf i))
                                (8 * Z.of_nat (i - lo)))))
    (seq lo n) 0.

(** [macbuf2[i] = (regval >> (8 * (i - lo))) & 0xff] for the same range. *)
Definition unpack_octets (regval : Z) (n : nat) : list byte :=
  map (fun k => byte_of_Z (Z.land (Z.shiftr regval (8 * Z.of_nat k)) 0xff))
      (seq 0 n).

(** [for (auto mdio_op : mdio_ops)] (lines 264-285; the [#if 0] blocks are
    not compiled). *)
Fixpoint mdio_write_all (mdio_ops : list MDIO_Operation) : M unit :=
  match mdio_ops with
  | [] => ret tt
  | mdio_op :: more =>
      fprintf stdout "Writing MDIO: port %u, dev %u, reg 0x%04x = 0x%04x\n"
        [ANum (port mdio_op); ANum (dev mdio_op); ANum (reg mdio_op); ANum (val mdio_op)] ;;
      r <- mdio_phy_write (port mdio_op) (dev mdio_op) (reg mdio_op) (val mdio_op) ;;
      when (r <? 0)
        (fprintf stderr "Failed to write MDIO register.\n" [] ;; return_ 1) ;;
      mdio_write_all more
  end.

Definition parse_mdio_writes_or_hang (s : string) : M (list MDIO_Operation) :=
  match parse_mdio_writes s with
  | Some ops => ret ops
  | None => fun _ log => (log, Hang)
  end.

(** The [DO_QUERY] branch (lines 222-226). *)
Definition do_query (config : Config) (macbuf : list byte) : M unit :=
  fmac <- format_mac_or_throw macbuf ;;
  fprintf stdout "%s\n" [AStr fmac] ;;
  ok <- validate_mac_address (valid_mac_address_prefix config) macbuf false ;;
  when (negb ok) (return_ 1).

(** The [DO_STORE] branch (lines 227-248). *)
Definition do_store (config : Config) (mac_eeprom_i2cfd : Z) (set_mac : string)
  : M unit :=
  match scan_mac set_mac with
  | None =>
      fprintf stderr "Unable to parse input MAC address.\n" [] ;; return_ 1
  | Some macbuf2 =>
      ok <- validate_mac_address (valid_mac_address_prefix config) macbuf2 true ;;
      when (negb ok) (return_ 1) ;;
      w <- i2c_write mac_eeprom_i2cfd (mac_eeprom_address config)
             (mac_eeprom_offset config) macbuf2 ;;
      when (negb (w =? 6))
        (perror "error writing mac eeprom" ;; return_ 1) ;;
      sleep 1 ;;
      rd <- i2c_read mac_eeprom_i2cfd (mac_eeprom_address config)
              (mac_eeprom_offset config) 6 ;;
      let '(n, macbuf) := rd in
      when (negb (n =? 6))
        (perror "error reading mac eeprom to confirm" ;; return_ 1) ;;
      when (memcmp6_differs macbuf macbuf2)
        (fprintf stderr "MAC address read back does not match MAC address stored.\n" [] ;;
         return_ 1)
  end.

(** The [DO_INITIALIZE] branch, second half (lines 287-354): validation,
    MAC registers, reset release, readback and rollback. *)
Definition configure_gbe (config : Config) (macbuf : list byte) : M unit :=
  fmac <- format_mac_or_throw macbuf ;;
  fprintf stdout "Configuring 10GbE with MAC address %s\n" [AStr fmac] ;;
  ok <- validate_mac_address (valid_mac_address_prefix config) macbuf true ;;
  when (negb ok)
    (fprintf stderr "Leaving 10GbE core in reset.\n" [] ;; return_ 1) ;;
  let mac_high_regval := pack_octets macbuf 0 4 in
  let mac_low_regval := pack_octets macbuf 4 2 in
  r <- easymem_safewrite32 GBE GBE_REG_USR_MAC_HIGH mac_high_regval ;;
  when (r <? 0)
    (fprintf stderr "Unable to write GBE_REG_USR_MAC_HIGH.\n" [] ;; return_ 1) ;;
  r <- easymem_safewrite32 GBE GBE_REG_USR_MAC_LOW mac_low_regval ;;
  when (r <? 0)
    (fprintf stderr "Unable to write GBE_REG_USR_MAC_LOW.\n" [] ;; return_ 1) ;;
  usleep GBE_RST_SETTLE_US ;;
  let regval := 1 in
  r <- easymem_safewrite32 GBE GBE_REG_USR_MAC_CFG regval ;;
  when (r <? 0)
    (fprintf stderr "Unable to write GBE_REG_USR_MAC_CFG.\n" [] ;; return_ 1) ;;
  r <- gpiod_line_set_value 0 ;;
  when (r <? 0)
    (perror "unable to release reset gpio" ;; return_ 1) ;;
  usleep GBE_RST_SETTLE_US ;;
  rd <- easymem_saferead32 GBE GBE_REG_SYSTEM_MAC_HIGH ;;
  let '(r, mac_high_regval2) := rd in
  when (r <? 0)
    (fprintf stderr "Unable to read GBE_REG_USR_SYSTEM_HIGH.\n" [] ;; return_ 1) ;;
  rd <- easymem_saferead32 GBE GBE_REG_SYSTEM_MAC_LOW ;;
  let '(r, mac_low_regval2) := rd in
  when (r <? 0)
    (fprintf stderr "Unable to read GBE_REG_USR_SYSTEM_LOW.\n" [] ;; return_ 1) ;;
  when (negb (mac_high_regval =? mac_high_regval2) ||
        negb (Z.land mac_low_regval 0x0000ffff =? Z.land mac_low_regval2 0x0000ffff))
    (let macbuf2 := (unpack_octets mac_high_regval2 4 ++ unpack_octets mac_low_regval2 2)%list in
     fmac <- format_mac_or_throw macbuf ;;
     fmac2 <- format_mac_or_throw macbuf2 ;;
     fprintf stderr "10GbE core configuration failed: Configured MAC address %s.  Read back MAC addresss %s.\n"
       [AStr fmac; AStr fmac2] ;;
     fprintf stderr "Putting core back into reset.\n" [] ;;
     usleep 1000000 ;;
     v <- UNSAFE_REG32 GBE GBE_REG_SYSTEM_MAC_LOW ;;
     fprintf stdout "0x%04x\n" [ANum (Z.land v 0x0000ffff)] ;;
     r <- gpiod_line_set_value 1 ;;
     when (r <? 0)
       (perror "unable to assert reset gpio" ;; return_ 1) ;;
     return_ 1).

(** The [DO_INITIALIZE] branch (lines 249-354). *)
Definition do_initialize (config : Config) (macbuf : list byte) : M unit :=
  r <- gpiod_line_request_output "10ginit" 1 ;;
  when (r <? 0)
    (perror "unable to access reset gpio" ;; return_ 1) ;;
  r <- gpiod_line_set_value 1 ;;
  when (r <? 0)
    (perror "unable to assert reset gpio" ;; return_ 1) ;;
  usleep GBE_RST_SETTLE_US ;;
  mdio_ops <- parse_mdio_writes_or_hang (mdio_reg_writes config) ;;
  mdio_write_all mdio_ops ;;
  configure_gbe config macbuf.

(** Everything after argument parsing (lines 151-356). *)
Definition run (config : Config) (a : Args) : M Z :=
  r <- easymem_map_uio GBE (gbe_uio config) ;;
  when (r <? 0)
    (perror "Mapping GBE UIO device" ;; return_ 0) ;;
  when (negb (String.length (mdio_reg_writes config) =? 0)%nat)
    (r <- easymem_map_uio MDIO (mdio_uio config) ;;
     when (r <? 0)
       (perror "Mapping MDIO UIO device" ;; return_ 0)) ;;
  reset_gpiochip_path <- realpath (reset_gpio config) ;;
  when (reset_gpiochip_path =? 0)
    (perror "unable to resolve reset gpio chip path" ;; return_ 1) ;;
  gpiochip <- gpiod_chip_open ;;
  when (gpiochip =? 0)
    (perror "error opening reset gpio chip" ;; return_ 1) ;;
  gpio_line_reset <- gpiod_chip_get_line (reset_gpio_bit config) ;;
  when (gpio_line_reset =? 0)
    (perror "error opening reset gpio line" ;; return_ 1) ;;
  mac_eeprom_i2cfd <- open (mac_eeprom_bus config) ;;
  when (mac_eeprom_i2cfd <? 0)
    (perror "error opening mac eeprom" ;; return_ 1) ;;
  rd <- i2c_read mac_eeprom_i2cfd (mac_eeprom_address config)
          (mac_eeprom_offset config) 6 ;;
  let '(n, macbuf) := rd in
  when (negb (n =? 6))
    (perror "error reading mac eeprom" ;; return_ 1) ;;
  match action a with
  | DO_QUERY => do_query config macbuf
  | DO_STORE => do_store config mac_eeprom_i2cfd (set_mac a)
  | DO_INITIALIZE => do_initialize config macbuf
  | DO_NOTHING => ret tt
  end ;;
  ret 0.

(** [main].  The source declares [action] without an initial value;
    [action0] is the value it happens to hold when the option loop starts. *)
Definition main (argv0 : string) (opts : list cli_option) (action0 : Action)
    (config : Config) : M Z :=
  a <- getopt_loop argv0 opts (mkArgs "/etc/10ginit.ini" action0 "") ;;
  when (is_nothing (action a))
    (fprintf stderr usage [AStr argv0] ;; return_ 1) ;;
  run config a.

(** The process exit status, when the process ends by returning from
    [main]. *)
Definition exit_status (r : list event * outcome Z) : option Z :=
  match snd r with
  | Ret c => Some c
  | Exit c => Some c
  | Throw => None
  | Hang => None
  end.

(** The level the program last drove the reset line to, if any: the newest
    successful [gpiod_line_request_output] or [gpiod_line_set_value]. *)
Fixpoint reset_line (log : list event) : option Z :=
  match log with
  | [] => None
  | EvSetValue v r :: older => if r <? 0 then reset_line older else Some v
  | EvRequestOutput _ v r :: older => if r <? 0 then reset_line older else Some v
  | _ :: older => reset_line older
  end.

(** ** Concrete boards, used to run the model *)

(** A board on which every call succeeds: the EEPROM holds [eeprom], the
    core reports [sys_high] and [sys_low] as its system MAC words, and the
    MDIO peripheral is never busy. *)
Definition board (eeprom : list byte) (sys_high sys_low : Z) : hardware :=
  fun _ rq =>
    match rq with
    | I2cRead _ _ _ _ => mkResp 6 0 eeprom
    | I2cWrite _ _ _ _ => mkResp 6 0 []
    | Read32 GBE offset =>
        if offset =? GBE_REG_SYSTEM_MAC_HIGH then mkResp 0 sys_high []
        else mkResp 0 sys_low []
    | UnsafeRead32 _ _ => mkResp 0 sys_low []
    | Read32 MDIO _ => mkResp 0 MDIO_CTRL_ENA_BIT []
    | Realpath _ | ChipOpen | GetLine _ => mkResp 1 0 []
    | Open _ => mkResp 3 0 []
    | _ => mkResp 0 0 []
    end.

(** [hw] with the answer to the calls selected by [sel] replaced. *)
Definition override (sel : request -> bool) (a : response) (hw : hardware)
  : hardware :=
  fun t rq => if sel rq then a else hw t rq.

Definition mac_aabbccddeeff : list byte := [xaa; xbb; xcc; xdd; xee; xff].

Definition sample_config : Config :=
  mkConfig "/dev/uio0" "/dev/uio1" "0.1:8000=4000 0.1:8001=0"
           "/dev/gpiochip0" 3 "/dev/i2c-0" 0x50 0xfa "aa:bb".

(** * Vocabulary of the statements *)

(** ** The MDIO write list *)

(** The format of one token, as in [parse_mdio_writes]. *)
Definition mdio_token_format : string := " %d.%d:%x=%x %n".

(** One token scanned at offset [i]: the value [sscanf] returns, the
    operation built from the four objects, and the increment from [%n]. *)
Definition token_at (s : string) (i : Z) : Z * MDIO_Operation * Z :=
  let r := sscanf (substr_from s i) mdio_token_format in
  (sc_ret r,
   mkOp (nth 0 (sc_vals r) 0) (nth 1 (sc_vals r) 0)
        (nth 2 (sc_vals r) 0) (nth 3 (sc_vals r) 0),
   match sc_count r with Some n => n | None => 0 end).

(** [parsed s i ops]: the loop, started on [s], arrives at offset [i] having
    collected [ops]. *)
Inductive parsed (s : string) : Z -> list MDIO_Operation -> Prop :=
| parsed_start : parsed s 0 []
| parsed_token (i : Z) (ops : list MDIO_Operation) (op : MDIO_Operation)
    (incr : Z) :
    parsed s i ops -> i < size s -> token_at s i = (4, op, incr) ->
    parsed s (i + incr) (ops ++ [op]).

(** ** Scanning a formatted octet *)

Definition opt_is (o : option Z) (v : Z) : bool :=
  match o with Some x => x =? v | None => false end.

(** What the scan of one octet relies on: [%02hhx] gives two characters,
    both hexadecimal digits spelling the octet, the first of which is
    neither white space nor a sign, the second not an [x]. *)
Definition two_hex_digits (b : byte) : bool :=
  match fmt_02hhx b with
  | String c1 (String c2 EmptyString) =>
      opt_is (digit_val 16 c1) (byte_to_Z b / 16) &&
      opt_is (digit_val 16 c2) (byte_to_Z b mod 16) &&
      negb (isspace c1) && negb (Ascii.eqb c1 "-") && negb (Ascii.eqb c1 "+") &&
      negb (is_x c2)
  | _ => false
  end.

(** The input after an octet ends the run of digits. *)
Definition ends_digits (t : string) : Prop :=
  match t with
  | EmptyString => True
  | String c _ => digit_val 16 c = None
  end.

(** ** Addresses that validation rejects *)

Definition mac_all_zero : list byte := [x00; x00; x00; x00; x00; x00].
Definition mac_broadcast : list byte := [xff; xff; xff; xff; xff; xff].

(** ** The MDIO busy poll *)

(** The answer to a read of the control register made as event [t]. *)
Definition ctrl_read (hw : hardware) (t : nat) : response :=
  hw t (Read32 MDIO MDIO_CTRL_REG_OFFSET).

(** The control register, read as the [t]-th event, shows BUSY set. *)
Definition busy_at (hw : hardware) (t : nat) : Prop :=
  0 <= r_ret (ctrl_read hw t) /\
  Z.land (u32 (r_word (ctrl_read hw t))) MDIO_CTRL_REQ_BUSY_BIT <> 0.

(** The control register, read as the [t]-th event, shows BUSY clear. *)
Definition idle_at (hw : hardware) (t : nat) : Prop :=
  0 <= r_ret (ctrl_read hw t) /\
  Z.land (u32 (r_word (ctrl_read hw t))) MDIO_CTRL_REQ_BUSY_BIT = 0.

(** Every write to the MDIO peripheral succeeds. *)
Definition writes_ok (hw : hardware) : Prop :=
  forall t offset v, 0 <= r_ret (hw t (Write32 MDIO offset v)).

(** A read of the MDIO control register. *)
Definition is_poll (e : event) : bool :=
  match e with
  | EvRead32 MDIO offset _ _ => offset =? MDIO_CTRL_REG_OFFSET
  | _ => false
  end.

Definition is_usleep (e : event) : bool :=
  match e with EvUsleep _ => true | _ => false end.

(** Reads of the control register, and [usleep] calls, in a log. *)
Definition polls (log : list event) : nat := List.length (filter is_poll log).
Definition sleeps (log : list event) : nat := List.length (filter is_usleep log).

(** The log after the three register writes of the address phase. *)
Definition addr_phase_log (hw : hardware) (log : list event) (p d r : Z)
  : list event :=
  let w1 := EvWrite32 MDIO MDIO_ADDRESS1_OFFSET (MDIO_ADDR1 MDIO_OP_ADDR p d)
              (r_ret (hw (List.length log)
                         (Write32 MDIO MDIO_ADDRESS1_OFFSET (MDIO_ADDR1 MDIO_OP_ADDR p d)))) in
  let w2 := EvWrite32 MDIO MDIO_ADDRESS2_OFFSET r
              (r_ret (hw (2 + List.length log)%nat (Write32 MDIO MDIO_ADDRESS2_OFFSET r))) in
  let w3 := EvWrite32 MDIO MDIO_CTRL_REG_OFFSET 9
              (r_ret (hw (4 + List.length log)%nat (Write32 MDIO MDIO_CTRL_REG_OFFSET 9))) in
  EvUsleep 10000 :: w3 :: EvUsleep 10000 :: w2 :: EvUsleep 10000 :: w1 :: log.

(** The log when the data phase of a write starts polling. *)
Definition write_phase_log (hw : hardware) (log : list event) (p d r v : Z)
  : list event :=
  let l7 := EvRead32 MDIO MDIO_CTRL_REG_OFFSET
              (r_ret (ctrl_read hw (6 + List.length log)))
              (u32 (r_word (ctrl_read hw (6 + List.length log))))
            :: addr_phase_log hw log p d r in
  let w1 := EvWrite32 MDIO MDIO_ADDRESS1_OFFSET (MDIO_ADDR1 MDIO_OP_WR p d)
              (r_ret (hw (7 + List.length log)%nat
                         (Write32 MDIO MDIO_ADDRESS1_OFFSET (MDIO_ADDR1 MDIO_OP_WR p d)))) in
  let w2 := EvWrite32 MDIO MDIO_WRITE_BUF_OFFSET v
              (r_ret (hw (8 + List.length log)%nat (Write32 MDIO MDIO_WRITE_BUF_OFFSET v))) in
  let w3 := EvWrite32 MDIO MDIO_CTRL_REG_OFFSET 9
              (r_ret (hw (9 + List.length log)%nat (Write32 MDIO MDIO_CTRL_REG_OFFSET 9))) in
  w3 :: w2 :: w1 :: l7.

(** The log when the data phase of a read starts polling. *)
Definition read_phase_log (hw : hardware) (log : list event) (p d r : Z)
  : list event :=
  let l7 := EvRead32 MDIO MDIO_CTRL_REG_OFFSET
              (r_ret (ctrl_read hw (6 + List.length log)))
              (u32 (r_word (ctrl_read hw (6 + List.length log))))
            :: addr_phase_log hw log p d r in
  let w1 := EvWrite32 MDIO MDIO_ADDRESS1_OFFSET (MDIO_ADDR1 MDIO_OP_RD p d)
              (r_ret (hw (7 + List.length log)%nat
                         (Write32 MDIO MDIO_ADDRESS1_OFFSET (MDIO_ADDR1 MDIO_OP_RD p d)))) in
  let w3 := EvWrite32 MDIO MDIO_CTRL_REG_OFFSET 9
              (r_ret (hw (8 + List.length log)%nat (Write32 MDIO MDIO_CTRL_REG_OFFSET 9))) in
  w3 :: w1 :: l7.

(** A board as [board [] 0 0] whose MDIO control register shows BUSY from
    the [n]-th event on. *)
Definition stuck_from (n : nat) : hardware :=
  fun t rq =>
    if (t <? n)%nat then board [] 0 0 t rq
    else match rq with
         | Read32 MDIO _ =>
             mkResp 0 (Z.lor MDIO_CTRL_ENA_BIT MDIO_CTRL_REQ_BUSY_BIT) []
         | _ => board [] 0 0 t rq
         end.

(** ** Classes of events *)

(** [m] only adds events satisfying [P]. *)
Definition emits {A : Type} (P : event -> Prop) (m : M A) : Prop :=
  forall hw log, exists evs, fst (m hw log) = (evs ++ log)%list /\ Forall P evs.

(** Events of the MDIO engine: register traffic with the MDIO peripheral,
    sleeps and messages. *)
Definition mdio_event (e : event) : Prop :=
  match e with
  | EvPrintf _ _ _ | EvUsleep _ | EvWrite32 MDIO _ _ _ | EvRead32 MDIO _ _ _ => True
  | _ => False
  end.

(** Text written to stdout or stderr. *)
Definition message (e : event) : Prop :=
  match e with EvPrintf _ _ _ => True | _ => False end.

(** ** Initialization *)

(** What an initialization that programs the words [hi] and [lo] does, in
    terms of the events [evs] it added and of how it ended:
    - a write to USR_MAC_HIGH carries [hi], a write to USR_MAC_LOW [lo];
    - it falls through to [return 0] only after a run of successful calls
      that wrote both words, latched them, released reset and read back
      [hi] and a low word equal to [lo] in its low 16 bits;
    - when both readbacks happened and the values differ from that, it
      returns 1, its last call being the attempt to drive reset to 1. *)
Definition programs_and_verifies (hi lo : Z) (evs : list event)
    (out : outcome unit) : Prop :=
  (forall v r, In (EvWrite32 GBE GBE_REG_USR_MAC_HIGH v r) evs -> v = hi) /\
  (forall v r, In (EvWrite32 GBE GBE_REG_USR_MAC_LOW v r) evs -> v = lo) /\
  (out = Ret tt ->
   exists older r1 r2 r3 r4 r5 r6 l,
     evs = EvRead32 GBE GBE_REG_SYSTEM_MAC_LOW r6 l ::
           EvRead32 GBE GBE_REG_SYSTEM_MAC_HIGH r5 hi ::
           EvUsleep GBE_RST_SETTLE_US ::
           EvSetValue 0 r4 ::
           EvWrite32 GBE GBE_REG_USR_MAC_CFG 1 r3 ::
           EvUsleep GBE_RST_SETTLE_US ::
           EvWrite32 GBE GBE_REG_USR_MAC_LOW lo r2 ::
           EvWrite32 GBE GBE_REG_USR_MAC_HIGH hi r1 :: older /\
     Z.land l 0xffff = Z.land lo 0xffff /\
     0 <= r1 /\ 0 <= r2 /\ 0 <= r3 /\ 0 <= r4 /\ 0 <= r5 /\ 0 <= r6) /\
  (forall r5 h r6 l,
      In (EvRead32 GBE GBE_REG_SYSTEM_MAC_HIGH r5 h) evs ->
      In (EvRead32 GBE GBE_REG_SYSTEM_MAC_LOW r6 l) evs ->
      0 <= r6 ->
      h <> hi \/ Z.land l 0xffff <> Z.land lo 0xffff ->
      out = Exit 1 /\
      exists r older,
        (evs = EvSetValue 1 r :: older /\ 0 <= r) \/
        (evs = EvPerror "unable to assert reset gpio" :: EvSetValue 1 r :: older /\ r < 0)).

(** Events that do not touch the registers of the 10GbE core. *)
Definition not_gbe (e : event) : Prop :=
  match e with
  | EvWrite32 GBE _ _ _ | EvRead32 GBE _ _ _ => False
  | _ => True
  end.

(** ** Failing boards *)

(** A board as [hw] on which mapping the region [r] fails. *)
Definition unmappable (r : region) (hw : hardware) : hardware :=
  override
    (fun rq => match rq, r with
               | MapUio GBE _, GBE | MapUio MDIO _, MDIO => true
               | _, _ => false
               end)
    (mkResp (-1) 0 []) hw.

(** A board as [hw] on which reading [offset] of the core fails. *)
Definition unreadable (offset : Z) (hw : hardware) : hardware :=
  override
    (fun rq => match rq with
               | Read32 GBE o => o =? offset
               | _ => false
               end)
    (mkResp (-1) 0 []) hw.

(** A board as [hw] on which no I2C read succeeds. *)
Definition eeprom_unreadable (hw : hardware) : hardware :=
  override (fun rq => match rq with I2cRead _ _ _ _ => true | _ => false end)
    (mkResp (-1) 0 []) hw.

(** ** Acquisition of the resources *)

(** The call that a resource-acquisition event records, and the value the
    call returned. *)
Definition setup_call (e : event) : option (request * Z) :=
  match e with
  | EvMapUio r path ret => Some (MapUio r path, ret)
  | EvRealpath path ret => Some (Realpath path, ret)
  | EvChipOpen ret => Some (ChipOpen, ret)
  | EvGetLine bit ret => Some (GetLine bit, ret)
  | EvOpen path fd => Some (Open path, fd)
  | _ => None
  end.

(** [calls], made one after the other from the log [log] on (newest
    first), are acquisition calls, and each returned what the hardware
    answered at that point. *)
Fixpoint answered (hw : hardware) (log : list event) (calls : list event)
  : Prop :=
  match calls with
  | [] => True
  | e :: older =>
      match setup_call e with
      | Some (rq, ret) => ret = r_ret (hw (List.length (older ++ log)) rq)
      | None => False
      end /\ answered hw log older
  end.

(** The acquisition succeeded: a mapping or an open returned no negative
    value, the other calls no null pointer. *)
Definition acquired (e : event) : Prop :=
  match e with
  | EvMapUio _ _ ret | EvOpen _ ret => 0 <= ret
  | EvRealpath _ ret | EvChipOpen ret | EvGetLine _ ret => ret <> 0
  | _ => False
  end.

Definition not_acquired (e : event) : Prop :=
  match e with
  | EvMapUio _ _ ret | EvOpen _ ret => ret < 0
  | EvRealpath _ ret | EvChipOpen ret | EvGetLine _ ret => ret = 0
  | _ => False
  end.

(** Events that do not drive the reset line. *)
Definition not_gpio (e : event) : Prop :=
  match e with
  | EvSetValue _ _ | EvRequestOutput _ _ _ => False
  | _ => True
  end.

(** Every GPIO call recorded in [evs] succeeded. *)
Definition gpio_calls_ok (evs : list event) : Prop :=
  forall e, In e evs ->
    match e with
    | EvSetValue _ r | EvRequestOutput _ _ r => 0 <= r
    | _ => True
    end.

(** The run ended on a failed read of a core register. *)
Definition readback_error (evs : list event) : Prop :=
  exists msg offset r v older,
    evs = EvPrintf stderr msg [] :: EvRead32 GBE offset r v :: older /\ r < 0.

(** * Further vocabulary *)

(** ** How a computation ends *)

(** [m] ends by handing on a value satisfying [R] or by a [return] of a
    code satisfying [E]; it neither throws nor hangs. *)
Definition ends {A : Type} (R : A -> Prop) (E : Z -> Prop) (m : M A) : Prop :=
  forall hw log,
    match snd (m hw log) with
    | Ret a => R a
    | Exit c => E c
    | Throw => False
    | Hang => False
    end.

Definition any_value {A : Type} (_ : A) : Prop := True.
Definition no_code (_ : Z) : Prop := False.
Definition code_is (c0 : Z) (c : Z) : Prop := c = c0.
Definition zero_or_one (c : Z) : Prop := c = 0 \/ c = 1.
Definition zero_or_minus_one (c : Z) : Prop := c = 0 \/ c = -1.

(** ** MDIO transactions *)

(** A register access that reported success (anything else counts as
    fine). *)
Definition access_ok (e : event) : Prop :=
  match e with
  | EvWrite32 _ _ _ r => 0 <= r
  | EvRead32 _ _ r _ => 0 <= r
  | _ => True
  end.

(** A successful read of the MDIO control register that shows BUSY clear. *)
Definition idle_poll (e : event) : Prop :=
  match e with
  | EvRead32 MDIO offset r v =>
      offset = MDIO_CTRL_REG_OFFSET /\ 0 <= r /\
      Z.land v MDIO_CTRL_REQ_BUSY_BIT = 0
  | _ => False
  end.

(** The writes to the MDIO peripheral in a log, oldest first, as pairs of
    register offset and value. *)
Fixpoint mdio_writes (log : list event) : list (Z * Z) :=
  match log with
  | [] => []
  | EvWrite32 MDIO offset v _ :: older => (mdio_writes older ++ [(offset, v)])%list
  | _ :: older => mdio_writes older
  end.

(** What one run of the busy poll or of a whole transaction looks like:
    [evs] are the events it added and [writes] the register writes it made;
    it made at most [maxpolls] reads of the control register and slept at
    most [maxsleeps] times; every access but the newest succeeded. *)
Definition mdio_steps (maxpolls maxsleeps : nat) (writes : list (Z * Z))
    (evs : list event) : Prop :=
  Forall mdio_event evs /\
  (polls evs <= maxpolls)%nat /\
  (sleeps evs <= maxsleeps)%nat /\
  Forall access_ok (tl evs) /\
  exists k, mdio_writes evs = firstn k writes.

(** The newest event is an idle poll and all the writes were made. *)
Definition mdio_done (writes : list (Z * Z)) (evs : list event) : Prop :=
  mdio_writes evs = writes /\
  exists e older, evs = e :: older /\ idle_poll e.

(** The register writes of the address phase, and of a whole write and a
    whole read transaction, in the order they are made. *)
Definition addr_writes (p d r : Z) : list (Z * Z) :=
  [(MDIO_ADDRESS1_OFFSET, MDIO_ADDR1 MDIO_OP_ADDR p d);
   (MDIO_ADDRESS2_OFFSET, r);
   (MDIO_CTRL_REG_OFFSET, Z.lor MDIO_CTRL_ENA_BIT MDIO_CTRL_REQ_BUSY_BIT)].

Definition write_writes (p d r v : Z) : list (Z * Z) :=
  (addr_writes p d r ++
   [(MDIO_ADDRESS1_OFFSET, MDIO_ADDR1 MDIO_OP_WR p d);
    (MDIO_WRITE_BUF_OFFSET, v);
    (MDIO_CTRL_REG_OFFSET, Z.lor MDIO_CTRL_ENA_BIT MDIO_CTRL_REQ_BUSY_BIT)])%list.

Definition read_writes (p d r : Z) : list (Z * Z) :=
  (addr_writes p d r ++
   [(MDIO_ADDRESS1_OFFSET, MDIO_ADDR1 MDIO_OP_RD p d);
    (MDIO_CTRL_REG_OFFSET, Z.lor MDIO_CTRL_ENA_BIT MDIO_CTRL_REQ_BUSY_BIT)])%list.

(** A board as [board [] 0 0] whose MDIO read buffer holds [word]. *)
Definition read_buf_holds (word : Z) : hardware :=
  override
    (fun rq => match rq with
               | Read32 MDIO o => o =? MDIO_READ_BUF_OFFSET
               | _ => false
               end)
    (mkResp 0 word []) (board [] 0 0).

(** ** What the query and store actions leave alone *)

(** Events that change nothing on the board: no register write, no EEPROM
    write, no drive of the reset line. *)
Definition changes_nothing (e : event) : Prop :=
  match e with
  | EvI2cWrite _ _ _ _ _ | EvWrite32 _ _ _ _
  | EvSetValue _ _ | EvRequestOutput _ _ _ => False
  | _ => True
  end.

(** Events that leave the 10GbE core, the MDIO peripheral and the reset
    line alone. *)
Definition leaves_core_alone (e : event) : Prop :=
  match e with
  | EvWrite32 _ _ _ _ | EvRead32 _ _ _ _ | EvUnsafeRead32 _ _ _
  | EvSetValue _ _ | EvRequestOutput _ _ _ => False
  | _ => True
  end.

(** ** Command-line options *)

Definition is_action_option (o : cli_option) : bool :=
  match o with
  | OptQ | OptS _ | OptI => true
  | _ => false
  end.

(** How many of the options select an action. *)
Definition action_options (opts : list cli_option) : nat :=
  List.length (filter is_action_option opts).

(** The option loop, entered with [start] as the action, meets an option
    it refuses: one it does not know, or an action when one is already
    selected. *)
Definition refused (start : Action) (opts : list cli_option) : Prop :=
  In OptOther opts \/
  (start <> DO_NOTHING /\ (1 <= action_options opts)%nat) \/
  (2 <= action_options opts)%nat.

(** ** Order of the steps of an initialization *)

(** Every register write among the events [evs], which were added to
    [log], was made while the line last driven on the reset pin was 1. *)
Fixpoint writes_in_reset (evs log : list event) : Prop :=
  match evs with
  | [] => True
  | e :: older =>
      match e with
      | EvWrite32 _ _ _ _ => reset_line (older ++ log) = Some 1
      | _ => True
      end /\ writes_in_reset older log
  end.

(** Events other than writes to the MDIO peripheral. *)
Definition not_mdio_write (e : event) : Prop :=
  match e with
  | EvWrite32 MDIO _ _ _ => False
  | _ => True
  end.

(** The register writes that the operations [ops] amount to. *)
Definition writes_of_ops (ops : list MDIO_Operation) : list (Z * Z) :=
  flat_map (fun op => write_writes (port op) (dev op) (reg op) (val op)) ops.

(** Events that keep the core as it is and in reset: no access to a core
    register, and no drive of the reset line other than to 1. *)
Definition keeps_in_reset (e : event) : Prop :=
  match e with
  | EvWrite32 GBE _ _ _ | EvRead32 GBE _ _ _ | EvUnsafeRead32 _ _ _ => False
  | EvSetValue v _ => v = 1
  | _ => True
  end.

(** ** Shape of texts and of parsed operations *)

Definition lower_hex (c : ascii) : bool :=
  existsb (Ascii.eqb c) (list_ascii_of_string "0123456789abcdef").

Definition is_colon (c : ascii) : bool := Ascii.eqb c ":".

(** Two lowercase hexadecimal digits, then (five times) a colon and two
    more: the layout "xx:xx:xx:xx:xx:xx". *)
Definition mac_layout (s : string) : bool :=
  match list_ascii_of_string s with
  | [a0; a1; c1; b0; b1; c2; d0; d1; c3; e0; e1; c4; f0; f1; c5; g0; g1] =>
      forallb lower_hex [a0; a1; b0; b1; d0; d1; e0; e1; f0; f1; g0; g1] &&
      forallb is_colon [c1; c2; c3; c4; c5]
  | _ => false
  end.

Definition lower_pair (b : byte) : bool :=
  match fmt_02hhx b with
  | String c1 (String c2 EmptyString) => lower_hex c1 && lower_hex c2
  | _ => false
  end.

(** Only white space. *)
Fixpoint all_space (s : string) : bool :=
  match s with
  | EmptyString => true
  | String c s' => isspace c && all_space s'
  end.

(** ** Numbers of the write list *)

(** A number written with the digits [ds], most significant first: its
    text (lowercase for the hexadecimal digits) and its value in [base]. *)
Definition digits_text (ds : list Z) : string :=
  string_of_list_ascii (map hex_char ds).

Definition digits_value (base : Z) (ds : list Z) : Z :=
  fold_left (fun a d => a * base + d) ds 0.

(** At least one digit, each below [base]. *)
Definition digits_of (base : Z) (ds : list Z) : bool :=
  negb (Nat.eqb (List.length ds) 0) &&
  forallb (fun d => (0 <=? d) && (d <? base)) ds.

Definition sign_text (negative : bool) : string :=
  if negative then "-" else "".

Definition signed_value (negative : bool) (n : Z) : Z :=
  if negative then - n else n.

(** What a field written in decimal as the number [n] holds: [n] reduced
    modulo 2^32 while [n] fits a 64-bit signed integer, 4294967295 above
    that range and 0 below it. *)
Definition field_d (n : Z) : Z :=
  if 2 ^ 63 <=? n then 4294967295
  else if n <? - 2 ^ 63 then 0
  else n mod 2 ^ 32.

(** What a field written in hexadecimal as the number [n] holds: [n]
    reduced modulo 2^32 while [n] fits a 64-bit unsigned integer, and
    4294967295 beyond. *)
Definition field_x (n : Z) : Z :=
  if 2 ^ 64 <=? n then 4294967295 else n mod 2 ^ 32.

(** The input after a number ends its digits and is no "x". *)
Definition ends_number (base : Z) (t : string) : Prop :=
  match t with
  | EmptyString => True
  | String c _ => digit_val base c = None /\ is_x c = false
  end.

(** ** Register regions *)

(** Events that leave the MDIO region alone: it is neither mapped nor
    accessed. *)
Definition not_mdio (e : event) : Prop :=
  match e with
  | EvMapUio MDIO _ _ | EvWrite32 MDIO _ _ _ | EvRead32 MDIO _ _ _
  | EvUnsafeRead32 MDIO _ _ => False
  | _ => True
  end.

(** ** Characters of a formatted address *)

Definition mac_char (c : ascii) : bool := lower_hex c || is_colon c.

Definition mac_chars (s : string) : bool :=
  forallb mac_char (list_ascii_of_string s).

(** * Properties *)

(** ** Machine integers and bytes *)

Lemma wrap_small (bits x : Z) : 0 <= x < 2 ^ bits -> wrap bits x = x.
Proof. intros H. unfold wrap. apply Z.mod_small. exact H. Qed.

Lemma byte_of_to_Z (b : byte) : byte_of_Z (wrap 8 (byte_to_Z b)) = b.
Proof. destruct b; vm_compute; reflexivity. Qed.

Lemma land_mod (a n : Z) : 0 <= n -> Z.land a (Z.ones n) = a mod 2 ^ n.
Proof. intros H. apply Z.land_ones. exact H. Qed.

(** ** The MDIO address word *)

Lemma MDIO_ADDR1_fields (op p d : Z) :
  MDIO_ADDR1 op p d = (op mod 4) * 1024 + (p mod 32) * 32 + d mod 32.
Proof.
  unfold MDIO_ADDR1, MDIO_ADDRESS1_OP_MASK, MDIO_ADDRESS1_PORT_MASK,
    MDIO_ADDRESS1_DEV_MASK, MDIO_ADDRESS1_OP_POSN, MDIO_ADDRESS1_PORT_POSN,
    MDIO_ADDRESS1_DEV_POSN.
  change 3 with (Z.ones 2). change 31 with (Z.ones 5).
  rewrite !land_mod by lia.
  rewrite !Z.shiftl_mul_pow2 by lia.
  change (2 ^ 2) with 4. change (2 ^ 5) with 32. change (2 ^ 10) with 1024.
  change (2 ^ 0) with 1.
  pose proof (Z.mod_pos_bound op 4 ltac:(lia)).
  pose proof (Z.mod_pos_bound p 32 ltac:(lia)).
  pose proof (Z.mod_pos_bound d 32 ltac:(lia)).
  unfold u32.
  rewrite (wrap_small 32 (op mod 4 * 1024)) by lia.
  rewrite (wrap_small 32 (p mod 32 * 32)) by lia.
  rewrite (wrap_small 32 (d mod 32 * 1)) by lia.
  rewrite (wrap_small 32 (op mod 4 * 1024 + p mod 32 * 32)) by lia.
  rewrite wrap_small by lia. lia.
Qed.

Lemma MDIO_ADDR1_reduces (op p d : Z) :
  MDIO_ADDR1 op p d = MDIO_ADDR1 op (p mod 32) (d mod 32).
Proof.
  rewrite !MDIO_ADDR1_fields. rewrite !Z.mod_mod by lia. reflexivity.
Qed.

(** C9: the address word is [(opcode mod 4) << 10 + (port mod 32) << 5 +
    (device mod 32)] for every input; the configuration parser accepts a
    port or device above 31 as it is, and a transaction with such a value
    is the transaction with the value reduced modulo 32 (port 33 addresses
    port 1). *)
Theorem mdio_addr1_packing :
  (forall op p d : Z,
      MDIO_ADDR1 op p d =
      Z.shiftl (op mod 4) 10 + Z.shiftl (p mod 32) 5 + d mod 32) /\
  parse_mdio_writes "33.40:8000=4000" = Some [mkOp 33 40 0x8000 0x4000] /\
  (forall p d r v : Z,
      mdio_phy_write p d r v = mdio_phy_write (p mod 32) (d mod 32) r v) /\
  (forall p d r buf : Z,
      mdio_phy_read p d r buf = mdio_phy_read (p mod 32) (d mod 32) r buf) /\
  (forall op d : Z, MDIO_ADDR1 op 33 d = MDIO_ADDR1 op 1 d).
Proof.
  split; [| split; [| split; [| split]]].
  - intros. rewrite MDIO_ADDR1_fields, !Z.shiftl_mul_pow2 by lia. reflexivity.
  - vm_compute. reflexivity.
  - intros. unfold mdio_phy_write, mdio_phy_addr.
    rewrite (MDIO_ADDR1_reduces MDIO_OP_ADDR p d).
    rewrite (MDIO_ADDR1_reduces MDIO_OP_WR p d). reflexivity.
  - intros. unfold mdio_phy_read, mdio_phy_addr.
    rewrite (MDIO_ADDR1_reduces MDIO_OP_ADDR p d).
    rewrite (MDIO_ADDR1_reduces MDIO_OP_RD p d). reflexivity.
  - intros. rewrite (MDIO_ADDR1_reduces op 33 d), (MDIO_ADDR1_reduces op 1 d).
    reflexivity.
Qed.

(** ** The MDIO write list *)

(** C7: the configuration string "0.1:8000=4000 0.1:8001=0" parses to the
    two operations (0, 1, 0x8000, 0x4000) and (0, 1, 0x8001, 0x0), in that
    order. *)
Theorem parse_mdio_writes_two_ops :
  parse_mdio_writes "0.1:8000=4000 0.1:8001=0" =
  Some [mkOp 0 1 0x8000 0x4000; mkOp 0 1 0x8001 0x0].
Proof. vm_compute. reflexivity. Qed.

(** *** Every successful token scan consumes input *)

Lemma skip_space_consumed (s : string) (n : Z) :
  n <= consumed (skip_space s n).
Proof.
  revert n. induction s as [|c s IH]; intros n; simpl.
  - lia.
  - destruct (isspace c); simpl; [specialize (IH (n + 1)) |]; lia.
Qed.

Lemma scan_digits_consumed (base : Z) (s : string) (n acc cnt : Z) :
  let '(_, cnt', c) := scan_digits base s n acc cnt in
  consumed c - n = cnt' - cnt /\ cnt <= cnt'.
Proof.
  revert n acc cnt. induction s as [|c s IH]; intros n acc cnt; simpl.
  - lia.
  - destruct (digit_val base c) as [d|]; simpl; [| lia].
    specialize (IH (n + 1) (acc * base + d) (cnt + 1)).
    destruct (scan_digits base s (n + 1) (acc * base + d) (cnt + 1)) as [[v' cnt'] c'].
    lia.
Qed.

Lemma scan_int_consumed (base : Z) (cur cur' : cursor) (v : Z) :
  scan_int base cur = (cur', inr v) -> consumed cur + 1 <= consumed cur'.
Proof.
  unfold scan_int.
  pose proof (skip_space_consumed (rest cur) (consumed cur)) as Hsp.
  destruct (skip_space (rest cur) (consumed cur)) as [s0 n0]; simpl in *.
  destruct s0 as [|c s']; [discriminate |].
  set (sg := if Ascii.eqb c "-" then (-1, s', n0 + 1)
             else if Ascii.eqb c "+" then (1, s', n0 + 1)
             else (1, String c s', n0)).
  assert (Hsg : n0 <= snd sg).
  { subst sg. destruct (Ascii.eqb c "-"); [simpl; lia |].
    destruct (Ascii.eqb c "+"); simpl; lia. }
  destruct sg as [[sign s1] n1]; simpl in Hsg.
  set (pf := match s1 with
             | String z (String x s'') =>
                 if (base =? 16) && Ascii.eqb z "0" && is_x x
                 then (true, s'', n1 + 2) else (false, s1, n1)
             | _ => (false, s1, n1)
             end).
  assert (Hpf : n1 <= snd pf /\ (fst (fst pf) = true -> n1 + 2 <= snd pf)).
  { subst pf. destruct s1 as [|z [|x s'']]; simpl; try (split; [lia | discriminate]).
    destruct ((base =? 16) && Ascii.eqb z "0" && is_x x); simpl;
      split; try lia; discriminate. }
  destruct pf as [[prefixed s2] n2]; simpl in Hpf.
  pose proof (scan_digits_consumed base s2 n2 0 0) as Hd.
  destruct (scan_digits base s2 n2 0 0) as [[v0 cnt] c3].
  destruct Hd as [Hd1 Hd2].
  destruct (cnt =? 0) eqn:Hc; destruct prefixed; simpl; intros H;
    try discriminate; inversion H; subst; clear H.
  - destruct Hpf as [_ Hpf]. specialize (Hpf eq_refl). lia.
  - apply Z.eqb_neq in Hc. lia.
  - apply Z.eqb_neq in Hc. lia.
Qed.

Lemma scan_stop_ret (f : scan_failure) (vals : list Z) (cnt : option Z) :
  sc_ret (scan_stop f vals cnt) = -1 \/
  sc_ret (scan_stop f vals cnt) = Z.of_nat (List.length vals).
Proof. destruct f, vals; simpl; auto. Qed.

(** When the token scan reports four assignments, [%n] was reached and
    stored a positive count. *)
Lemma mdio_token_progress (input : string) :
  sc_ret (sscanf input mdio_token_format) = 4 ->
  exists n, sc_count (sscanf input mdio_token_format) = Some n /\ 1 <= n.
Proof.
  unfold sscanf, mdio_token_format.
  change (parse_format " %d.%d:%x=%x %n")
    with [DSpace; DInt true 10 32; DLit "."; DInt true 10 32; DLit ":"; DInt false 16 32;
          DLit "="; DInt false 16 32; DSpace; DCount].
  cbn [run_directives rest consumed].
  pose proof (skip_space_consumed input 0) as H0.
  set (c0 := skip_space input 0) in *.
  destruct (scan_int 10 c0) as [c1 [f|v1]] eqn:E1.
  { intros H. destruct (scan_stop_ret f [] None) as [R|R]; rewrite R in H; discriminate. }
  apply scan_int_consumed in E1.
  destruct c1 as [s1 n1]; cbn [rest consumed] in *.
  destruct s1 as [|ch1 s1].
  { intros H. simpl in H. discriminate. }
  destruct (Ascii.eqb "." ch1); [| intros H; simpl in H; discriminate].
  destruct (scan_int 10 (mkCursor s1 (n1 + 1))) as [c2 [f|v2]] eqn:E2.
  { intros H. destruct (scan_stop_ret f ([] ++ [stored true 32 v1]) None) as [R|R];
      rewrite R in H; discriminate. }
  apply scan_int_consumed in E2.
  destruct c2 as [s2 n2]; cbn [rest consumed] in *.
  destruct s2 as [|ch2 s2].
  { intros H. simpl in H. discriminate. }
  destruct (Ascii.eqb ":" ch2); [| intros H; simpl in H; discriminate].
  destruct (scan_int 16 (mkCursor s2 (n2 + 1))) as [c3 [f|v3]] eqn:E3.
  { intros H.
    destruct (scan_stop_ret f (([] ++ [stored true 32 v1]) ++ [stored true 32 v2]) None) as [R|R];
      rewrite R in H; discriminate. }
  apply scan_int_consumed in E3.
  destruct c3 as [s3 n3]; cbn [rest consumed] in *.
  destruct s3 as [|ch3 s3].
  { intros H. simpl in H. discriminate. }
  destruct (Ascii.eqb "=" ch3); [| intros H; simpl in H; discriminate].
  destruct (scan_int 16 (mkCursor s3 (n3 + 1))) as [c4 [f|v4]] eqn:E4.
  { intros H.
    destruct (scan_stop_ret f ((([] ++ [stored true 32 v1]) ++ [stored true 32 v2])
                              ++ [stored false 32 v3]) None)
      as [R|R]; rewrite R in H; discriminate. }
  apply scan_int_consumed in E4.
  destruct c4 as [s4 n4]; cbn [rest consumed] in *.
  intros _. cbn [sc_count].
  pose proof (skip_space_consumed s4 n4).
  eexists; split; [reflexivity |]. lia.
Qed.

(** *** The loop of [parse_mdio_writes] *)

Lemma parse_mdio_loop_step (fuel : nat) (s : string) (i : Z)
    (ops : list MDIO_Operation) :
  parse_mdio_loop (S fuel) s i ops =
  if i <? size s then
    let '(r, op, incr) := token_at s i in
    if negb (r =? 4) then Some ops
    else parse_mdio_loop fuel s (i + incr) (ops ++ [op])
  else Some ops.
Proof. reflexivity. Qed.

Lemma token_at_progress (s : string) (i : Z) (op : MDIO_Operation) (incr : Z) :
  token_at s i = (4, op, incr) -> 1 <= incr.
Proof.
  unfold token_at. intros H. inversion H as [[Hr Hop Hi]].
  destruct (mdio_token_progress _ Hr) as [n [Hn Hpos]].
  rewrite Hn. exact Hpos.
Qed.

(** With enough passes allowed the loop ends, and allowing more does not
    change what it returns. *)
Lemma parse_mdio_loop_fuel (f1 : nat) :
  forall (f2 : nat) (s : string) (i : Z) (ops : list MDIO_Operation),
    Z.max 0 (size s - i) < Z.of_nat f1 ->
    Z.max 0 (size s - i) < Z.of_nat f2 ->
    parse_mdio_loop f1 s i ops = parse_mdio_loop f2 s i ops /\
    exists res, parse_mdio_loop f1 s i ops = Some res.
Proof.
  induction f1 as [|f1 IH]; intros f2 s i ops H1 H2; [lia |].
  destruct f2 as [|f2]; [lia |].
  rewrite !parse_mdio_loop_step.
  destruct (i <? size s) eqn:E; [| split; [reflexivity | eauto]].
  apply Z.ltb_lt in E.
  destruct (token_at s i) as [[r op] incr] eqn:T.
  destruct (r =? 4) eqn:R; simpl; [| split; [reflexivity | eauto]].
  apply Z.eqb_eq in R. subst r.
  apply token_at_progress in T.
  apply IH; lia.
Qed.

(** The loop always ends: [parse_mdio_writes] returns a list. *)
Lemma parse_mdio_writes_total (s : string) :
  exists ops, parse_mdio_writes s = Some ops.
Proof.
  unfold parse_mdio_writes.
  apply (parse_mdio_loop_fuel (S (String.length s)) (S (String.length s)));
    unfold size; lia.
Qed.

Lemma parsed_loop (s : string) (i : Z) (ops : list MDIO_Operation) :
  parsed s i ops ->
  0 <= i /\
  parse_mdio_writes s = parse_mdio_loop (S (String.length s)) s i ops.
Proof.
  induction 1 as [|i ops op incr Hp [Hi IH] Hlt Ht].
  - split; [lia | reflexivity].
  - pose proof (token_at_progress _ _ _ _ Ht) as Hincr.
    split; [lia |].
    rewrite IH, parse_mdio_loop_step.
    apply Z.ltb_lt in Hlt. rewrite Hlt, Ht.
    apply Z.ltb_lt in Hlt.
    change (negb (4 =? 4)) with false. cbv iota.
    apply (parse_mdio_loop_fuel (String.length s) (S (String.length s)));
      unfold size in *; lia.
Qed.

(** C8: when the loop has collected [ops] and the token at the offset it
    arrived at does not scan, [parse_mdio_writes] returns exactly [ops]: the
    rest of the string is dropped and the result is an ordinary list, with
    no error.  "0.1:8000=4000 garbage" gives the single operation
    (0, 1, 0x8000, 0x4000). *)
Theorem parse_mdio_writes_truncates :
  (forall (s : string) (i : Z) (ops : list MDIO_Operation),
      parsed s i ops -> i < size s ->
      sc_ret (sscanf (substr_from s i) " %d.%d:%x=%x %n") <> 4 ->
      parse_mdio_writes s = Some ops) /\
  (forall s : string, exists ops, parse_mdio_writes s = Some ops) /\
  parsed "0.1:8000=4000 garbage" 14 [mkOp 0 1 0x8000 0x4000] /\
  sc_ret (sscanf (substr_from "0.1:8000=4000 garbage" 14) " %d.%d:%x=%x %n") = 0 /\
  parse_mdio_writes "0.1:8000=4000 garbage" = Some [mkOp 0 1 0x8000 0x4000].
Proof.
  split; [| split; [| split; [| split]]].
  - intros s i ops Hp Hlt Hbad.
    destruct (parsed_loop _ _ _ Hp) as [_ ->].
    rewrite parse_mdio_loop_step.
    apply Z.ltb_lt in Hlt. rewrite Hlt.
    unfold token_at.
    change mdio_token_format with " %d.%d:%x=%x %n".
    apply Z.eqb_neq in Hbad. rewrite Hbad. reflexivity.
  - exact parse_mdio_writes_total.
  - apply (parsed_token "0.1:8000=4000 garbage" 0 [] (mkOp 0 1 0x8000 0x4000) 14).
    + constructor.
    + reflexivity.
    + vm_compute. reflexivity.
  - vm_compute. reflexivity.
  - vm_compute. reflexivity.
Qed.

Lemma parse_mdio_writes_truncates_witness :
  parse_mdio_writes "0.1:8000=4000 0.1:8001=zz" = Some [mkOp 0 1 0x8000 0x4000].
Proof.
  apply (proj1 parse_mdio_writes_truncates "0.1:8000=4000 0.1:8001=zz" 14).
  - apply (parsed_token "0.1:8000=4000 0.1:8001=zz" 0 [] (mkOp 0 1 0x8000 0x4000) 14).
    + constructor.
    + reflexivity.
    + vm_compute. reflexivity.
  - reflexivity.
  - vm_compute. intros H. discriminate H.
Defined.

(** ** Formatting and scanning a MAC address *)

Lemma fmt_02hhx_two_hex_digits (b : byte) : two_hex_digits b = true.
Proof. destruct b; vm_compute; reflexivity. Qed.

Lemma fmt_02hhx_length (b : byte) : String.length (fmt_02hhx b) = 2%nat.
Proof.
  pose proof (fmt_02hhx_two_hex_digits b) as H. unfold two_hex_digits in H.
  destruct (fmt_02hhx b) as [|c1 [|c2 [|c3 s]]]; try discriminate. reflexivity.
Qed.

Lemma byte_to_Z_range (b : byte) : 0 <= byte_to_Z b < 256.
Proof. destruct b; vm_compute; split; congruence. Qed.

Lemma opt_is_eq (o : option Z) (v : Z) : opt_is o v = true -> o = Some v.
Proof.
  destruct o as [x|]; simpl; [| discriminate].
  intros H. apply Z.eqb_eq in H. congruence.
Qed.

Lemma scan_int_octet (b : byte) (t : string) (n : Z) :
  ends_digits t ->
  scan_int 16 (mkCursor (fmt_02hhx b ++ t) n) =
  (mkCursor t (n + 1 + 1), inr (byte_to_Z b)).
Proof.
  intros Ht.
  pose proof (fmt_02hhx_two_hex_digits b) as H. unfold two_hex_digits in H.
  destruct (fmt_02hhx b) as [|c1 [|c2 [|c3 s]]]; try discriminate.
  repeat (apply andb_prop in H; destruct H as [H ?]).
  apply opt_is_eq in H.
  repeat match goal with
         | X : negb _ = true |- _ => apply negb_true_iff in X
         | X : opt_is _ _ = true |- _ => apply opt_is_eq in X
         end.
  unfold scan_int. cbn [String.append rest consumed skip_space].
  rewrite H3. cbn [rest consumed]. rewrite H2, H1.
  rewrite H0, andb_false_r.
  cbn [scan_digits]. rewrite H, H4.
  assert (E : scan_digits 16 t (n + 1 + 1) ((0 * 16 + byte_to_Z b / 16) * 16 + byte_to_Z b mod 16) (0 + 1 + 1)
              = ((0 * 16 + byte_to_Z b / 16) * 16 + byte_to_Z b mod 16, 0 + 1 + 1, mkCursor t (n + 1 + 1))).
  { destruct t as [|c t']; simpl in *; [reflexivity |]. rewrite Ht. reflexivity. }
  rewrite E. cbn [Z.eqb Z.add andb negb].
  f_equal. f_equal.
  pose proof (Z.div_mod (byte_to_Z b) 16 ltac:(lia)). lia.
Qed.

Lemma substring_all (s : string) (n : nat) :
  (String.length s <= n)%nat -> substring 0 n s = s.
Proof.
  revert n. induction s as [|c s IH]; intros [|n] H; simpl in *;
    try reflexivity; try lia.
  f_equal. apply IH. lia.
Qed.

Lemma length_app (a b : string) :
  String.length (a ++ b) = (String.length a + String.length b)%nat.
Proof. induction a as [|c a IH]; simpl; [reflexivity | rewrite IH; reflexivity]. Qed.

Lemma mac_text_length (macbuf : list byte) :
  String.length (mac_text macbuf) = 17%nat.
Proof.
  unfold mac_text. rewrite !length_app, !fmt_02hhx_length. reflexivity.
Qed.

(** [format_mac] never throws: the text is always 17 characters long. *)
Lemma format_mac_text (macbuf : list byte) :
  format_mac macbuf = Some (mac_text macbuf).
Proof.
  unfold format_mac, snprintf.
  rewrite mac_text_length. cbn [Z.of_nat Z.eqb negb Pos.of_succ_nat].
  rewrite substring_all by (rewrite mac_text_length; simpl; lia).
  reflexivity.
Qed.

(** An octet is well inside the range of [strtoull]. *)
Lemma stored_octet (b : byte) :
  stored false 8 (byte_to_Z b) = wrap 8 (byte_to_Z b).
Proof. destruct b; vm_compute; reflexivity. Qed.

Lemma run_octet (ds : list directive) (b : byte) (t : string) (n : Z)
    (vals : list Z) (cnt : option Z) :
  ends_digits t ->
  run_directives (DInt false 16 8 :: ds) (mkCursor (fmt_02hhx b ++ t) n) vals cnt =
  run_directives ds (mkCursor t (n + 1 + 1)) (vals ++ [wrap 8 (byte_to_Z b)]) cnt.
Proof.
  intros Ht. cbn [run_directives]. rewrite scan_int_octet by exact Ht.
  rewrite stored_octet. reflexivity.
Qed.

Lemma run_colon (ds : list directive) (t : string) (n : Z)
    (vals : list Z) (cnt : option Z) :
  run_directives (DLit ":" :: ds) (mkCursor (":" ++ t) n) vals cnt =
  run_directives ds (mkCursor t (n + 1)) vals cnt.
Proof. reflexivity. Qed.

Lemma scan_mac_text (b0 b1 b2 b3 b4 b5 : byte) :
  scan_mac (mac_text [b0; b1; b2; b3; b4; b5]) = Some [b0; b1; b2; b3; b4; b5].
Proof.
  unfold scan_mac, sscanf.
  change (parse_format "%hhx:%hhx:%hhx:%hhx:%hhx:%hhx")
    with [DInt false 16 8; DLit ":"; DInt false 16 8; DLit ":"; DInt false 16 8; DLit ":";
          DInt false 16 8; DLit ":"; DInt false 16 8; DLit ":"; DInt false 16 8].
  unfold mac_text. cbn [idx nth].
  assert (C : forall t, ends_digits (":" ++ t)) by (intros t; reflexivity).
  rewrite run_octet, run_colon by apply C.
  rewrite run_octet, run_colon by apply C.
  rewrite run_octet, run_colon by apply C.
  rewrite run_octet, run_colon by apply C.
  rewrite run_octet, run_colon by apply C.
  replace (fmt_02hhx b5) with (fmt_02hhx b5 ++ "")
    by (generalize (fmt_02hhx b5) as s; induction s as [|c s IH]; simpl;
        [reflexivity | rewrite IH; reflexivity]).
  rewrite run_octet by exact I.
  cbn [run_directives app List.length sc_ret sc_vals Z.of_nat Pos.of_succ_nat
       Pos.succ Z.eqb Pos.eqb negb map].
  rewrite !byte_of_to_Z. reflexivity.
Qed.

(** C5: for every six-octet buffer, scanning the text that [format_mac]
    produces for it (with the scan [main] applies to the [-s] argument)
    gives back the same six octets. *)
Theorem scan_format_mac_roundtrip (macbuf : list byte) :
  List.length macbuf = 6%nat ->
  exists text, format_mac macbuf = Some text /\ scan_mac text = Some macbuf.
Proof.
  intros H.
  destruct macbuf as [|b0 [|b1 [|b2 [|b3 [|b4 [|b5 [|b6 l]]]]]]]; try discriminate.
  exists (mac_text [b0; b1; b2; b3; b4; b5]).
  split; [apply format_mac_text | apply scan_mac_text].
Qed.

Lemma scan_format_mac_roundtrip_witness :
  exists text,
    format_mac [x02; x1b; xc0; x00; x7e; xf5] = Some text /\
    scan_mac text = Some [x02; x1b; xc0; x00; x7e; xf5].
Proof. apply (scan_format_mac_roundtrip [x02; x1b; xc0; x00; x7e; xf5]). reflexivity. Defined.

(** ** Validation *)

Lemma mac_text_inj (m1 m2 : list byte) :
  List.length m1 = 6%nat -> List.length m2 = 6%nat ->
  mac_text m1 = mac_text m2 -> m1 = m2.
Proof.
  intros H1 H2 E.
  destruct m1 as [|a0 [|a1 [|a2 [|a3 [|a4 [|a5 [|a6 l]]]]]]]; try discriminate.
  destruct m2 as [|c0 [|c1 [|c2 [|c3 [|c4 [|c5 [|c6 l]]]]]]]; try discriminate.
  pose proof (scan_mac_text a0 a1 a2 a3 a4 a5) as S1.
  rewrite E, scan_mac_text in S1. congruence.
Qed.

Lemma substring_prefix (p s : string) :
  String.eqb (substring 0 (String.length p) s) p = String.prefix p s.
Proof.
  revert s. induction p as [|a p IH]; intros s; simpl.
  - destruct s; reflexivity.
  - destruct s as [|b s]; simpl; [reflexivity |].
    destruct (ascii_dec a b) as [->|N].
    + rewrite Ascii.eqb_refl. apply IH.
    + destruct (Ascii.eqb b a) eqn:E; [| reflexivity].
      apply Ascii.eqb_eq in E. congruence.
Qed.

Lemma low_bit_cases (x : Z) : Z.land x 1 = 0 \/ Z.land x 1 = 1.
Proof.
  assert (E : Z.land x 1 = x mod 2) by (apply (Z.land_ones x 1); lia).
  pose proof (Z.mod_pos_bound x 2 ltac:(lia)). lia.
Qed.

(** C4: on a six-octet address [validate_mac_address] returns a boolean and
    never fails.  With a non-empty prefix the result is [false] exactly for
    the all-zero address, the broadcast address, an address whose first
    octet has its low bit set, and an address whose formatted text does not
    begin with the prefix; with an empty prefix the result is [true]. *)
Theorem validate_mac_address_rejects (valid_mac_prefix : string)
    (macbuf : list byte) (warn : bool) (hw : hardware) (log : list event) :
  List.length macbuf = 6%nat ->
  exists (log' : list event) (ok : bool) (fmac : string),
    validate_mac_address valid_mac_prefix macbuf warn hw log = (log', Ret ok) /\
    format_mac macbuf = Some fmac /\
    String.length fmac = 17%nat /\
    (valid_mac_prefix = "" -> ok = true) /\
    (valid_mac_prefix <> "" ->
     (ok = false <->
      macbuf = mac_all_zero \/
      macbuf = mac_broadcast \/
      Z.land (byte_to_Z (idx macbuf 0)) 1 = 1 \/
      String.prefix valid_mac_prefix fmac = false)).
Proof.
  intros Hlen.
  unfold validate_mac_address, format_mac_or_throw.
  rewrite format_mac_text.
  destruct valid_mac_prefix as [|p0 p].
  { cbn [String.length Nat.eqb].
    destruct warn; do 3 eexists;
      (split; [reflexivity |]); (split; [reflexivity |]);
      (split; [apply mac_text_length |]); (split; [reflexivity |]);
      intros N; exfalso; apply N; reflexivity. }
  set (pre := String p0 p).
  cbn [String.length Nat.eqb].
  unfold bind, ret, fprintf, emit.
  destruct (String.eqb (mac_text macbuf) "00:00:00:00:00:00") eqn:Ez.
  { do 3 eexists. split; [reflexivity |]. split; [reflexivity |].
    split; [apply mac_text_length |]. split; [discriminate |].
    intros _. split; [| reflexivity]. intros _. left.
    apply String.eqb_eq in Ez. apply mac_text_inj; try assumption; reflexivity. }
  destruct (String.eqb (mac_text macbuf) "ff:ff:ff:ff:ff:ff") eqn:Eb.
  { do 3 eexists. split; [reflexivity |]. split; [reflexivity |].
    split; [apply mac_text_length |]. split; [discriminate |].
    intros _. split; [| reflexivity]. intros _. right. left.
    apply String.eqb_eq in Eb. apply mac_text_inj; try assumption; reflexivity. }
  destruct (Z.land (byte_to_Z (idx macbuf 0)) 1 =? 0) eqn:Em; cbn [negb].
  2:{ do 3 eexists. split; [reflexivity |]. split; [reflexivity |].
      split; [apply mac_text_length |]. split; [discriminate |].
      intros _. split; [| reflexivity]. intros _. right. right. left.
      apply Z.eqb_neq in Em.
      destruct (low_bit_cases (byte_to_Z (idx macbuf 0))); [contradiction | assumption]. }
  change (S (String.length p)) with (String.length pre).
  rewrite substring_prefix.
  apply Z.eqb_eq in Em.
  assert (Nz : macbuf <> mac_all_zero).
  { intros ->. vm_compute in Ez. discriminate. }
  assert (Nb : macbuf <> mac_broadcast).
  { intros ->. vm_compute in Eb. discriminate. }
  destruct (String.prefix pre (mac_text macbuf)) eqn:Ep; cbn [negb].
  - do 3 eexists. split; [reflexivity |]. split; [reflexivity |].
    split; [apply mac_text_length |]. split; [reflexivity |].
    intros _. split; [discriminate |].
    intros [H | [H | [H | H]]]; try contradiction; try congruence.
  - do 3 eexists. split; [reflexivity |]. split; [reflexivity |].
    split; [apply mac_text_length |]. split; [discriminate |].
    intros _. split; [| reflexivity]. intros _. right. right. right. exact Ep.
Qed.

Lemma validate_mac_address_rejects_witness :
  exists (log' : list event) (ok : bool) (fmac : string),
    validate_mac_address "aa:bb" mac_aabbccddeeff true (board [] 0 0) [] = (log', Ret ok) /\
    format_mac mac_aabbccddeeff = Some fmac /\
    String.length fmac = 17%nat /\
    ("aa:bb" = "" -> ok = true) /\
    ("aa:bb" <> "" ->
     (ok = false <->
      mac_aabbccddeeff = mac_all_zero \/
      mac_aabbccddeeff = mac_broadcast \/
      Z.land (byte_to_Z (idx mac_aabbccddeeff 0)) 1 = 1 \/
      String.prefix "aa:bb" fmac = false)).
Proof.
  apply (validate_mac_address_rejects "aa:bb" mac_aabbccddeeff true (board [] 0 0) []).
  reflexivity.
Defined.

(** ** Running monadic code step by step *)

Section Stepping.
Context {A B : Type}.
Variables (hw : hardware) (log : list event) (k : A -> M B).

Lemma bind_ret (a : A) : bind (ret a) k hw log = k a hw log.
Proof. reflexivity. Qed.

Lemma bind_return (c : Z) : bind (return_ c) k hw log = (log, Exit c).
Proof. reflexivity. Qed.

Lemma bind_throw : bind throw k hw log = (log, Throw).
Proof. reflexivity. Qed.

Lemma bind_assoc {C : Type} (m : M C) (f : C -> M A) :
  bind (bind m f) k hw log = bind m (fun x => bind (f x) k) hw log.
Proof.
  unfold bind. destruct (m hw log) as [l [c| | |]]; reflexivity.
Qed.
End Stepping.

Section SteppingUnit.
Context {B : Type}.
Variables (hw : hardware) (log : list event) (k : unit -> M B).

Lemma bind_emit (e : event) : bind (emit e) k hw log = k tt hw (e :: log).
Proof. reflexivity. Qed.

Lemma bind_when_false (m : M unit) : bind (when false m) k hw log = k tt hw log.
Proof. reflexivity. Qed.

Lemma bind_when_true (m : M unit) :
  bind (when true m) k hw log = bind m k hw log.
Proof. reflexivity. Qed.
End SteppingUnit.

Lemma bind_call {B : Type} (hw : hardware) (log : list event)
  (rq : request) (mk : response -> event) (k : response -> M B) :
bind (call rq mk) k hw log =
k (hw (List.length log) rq) hw (mk (hw (List.length log) rq) :: log).
Proof. reflexivity. Qed.

Section SteppingCalls.
Context {B : Type}.
Variables (hw : hardware) (log : list event).

Lemma bind_safewrite32 (r : region) (offset v : Z) (k : Z -> M B) :
  bind (easymem_safewrite32 r offset v) k hw log =
  let a := r_ret (hw (List.length log) (Write32 r offset v)) in
  k a hw (EvWrite32 r offset v a :: log).
Proof. reflexivity. Qed.

Lemma bind_saferead32 (r : region) (offset : Z) (k : Z * Z -> M B) :
  bind (easymem_saferead32 r offset) k hw log =
  let a := hw (List.length log) (Read32 r offset) in
  k (r_ret a, u32 (r_word a)) hw
    (EvRead32 r offset (r_ret a) (u32 (r_word a)) :: log).
Proof. reflexivity. Qed.

Lemma bind_set_value (v : Z) (k : Z -> M B) :
  bind (gpiod_line_set_value v) k hw log =
  let a := r_ret (hw (List.length log) (SetValue v)) in
  k a hw (EvSetValue v a :: log).
Proof. reflexivity. Qed.

Lemma bind_request_output (c : string) (v : Z) (k : Z -> M B) :
  bind (gpiod_line_request_output c v) k hw log =
  let a := r_ret (hw (List.length log) (RequestOutput c v)) in
  k a hw (EvRequestOutput c v a :: log).
Proof. reflexivity. Qed.

Lemma bind_unsafe_reg32 (r : region) (offset : Z) (k : Z -> M B) :
  bind (UNSAFE_REG32 r offset) k hw log =
  let a := u32 (r_word (hw (List.length log) (UnsafeRead32 r offset))) in
  k a hw (EvUnsafeRead32 r offset a :: log).
Proof. reflexivity. Qed.

Lemma bind_map_uio (r : region) (path : string) (k : Z -> M B) :
  bind (easymem_map_uio r path) k hw log =
  let a := r_ret (hw (List.length log) (MapUio r path)) in
  k a hw (EvMapUio r path a :: log).
Proof. reflexivity. Qed.

Lemma bind_realpath (path : string) (k : Z -> M B) :
  bind (realpath path) k hw log =
  let a := r_ret (hw (List.length log) (Realpath path)) in
  k a hw (EvRealpath path a :: log).
Proof. reflexivity. Qed.

Lemma bind_chip_open (k : Z -> M B) :
  bind gpiod_chip_open k hw log =
  let a := r_ret (hw (List.length log) ChipOpen) in
  k a hw (EvChipOpen a :: log).
Proof. reflexivity. Qed.

Lemma bind_get_line (bit : Z) (k : Z -> M B) :
  bind (gpiod_chip_get_line bit) k hw log =
  let a := r_ret (hw (List.length log) (GetLine bit)) in
  k a hw (EvGetLine bit a :: log).
Proof. reflexivity. Qed.

Lemma bind_open (path : string) (k : Z -> M B) :
  bind (open path) k hw log =
  let a := r_ret (hw (List.length log) (Open path)) in
  k a hw (EvOpen path a :: log).
Proof. reflexivity. Qed.

Lemma bind_i2c_read (fd addr off : Z) (len : nat) (k : Z * list byte -> M B) :
  bind (i2c_read fd addr off len) k hw log =
  let a := hw (List.length log) (I2cRead fd addr off (Z.of_nat len)) in
  k (r_ret a, buffer a len) hw
    (EvI2cRead fd addr off (Z.of_nat len) (r_ret a) (buffer a len) :: log).
Proof. reflexivity. Qed.

Lemma bind_i2c_write (fd addr off : Z) (data : list byte) (k : Z -> M B) :
  bind (i2c_write fd addr off data) k hw log =
  let a := r_ret (hw (List.length log) (I2cWrite fd addr off data)) in
  k a hw (EvI2cWrite fd addr off data a :: log).
Proof. reflexivity. Qed.
End SteppingCalls.

Lemma bind_fprintf {B : Type} (hw : hardware) (log : list event)
  (f : stream) (fmt : string) (args : list arg) (k : unit -> M B) :
bind (fprintf f fmt args) k hw log = k tt hw (EvPrintf f fmt args :: log).
Proof. reflexivity. Qed.

Lemma bind_perror {B : Type} (hw : hardware) (log : list event)
  (msg : string) (k : unit -> M B) :
bind (perror msg) k hw log = k tt hw (EvPerror msg :: log).
Proof. reflexivity. Qed.

Lemma bind_usleep {B : Type} (hw : hardware) (log : list event)
  (us : Z) (k : unit -> M B) :
bind (usleep us) k hw log = k tt hw (EvUsleep us :: log).
Proof. reflexivity. Qed.

Lemma bind_sleep {B : Type} (hw : hardware) (log : list event)
  (s : Z) (k : unit -> M B) :
bind (sleep s) k hw log = k tt hw (EvSleep s :: log).
Proof. reflexivity. Qed.

(** One step of symbolic execution at the head of the goal. *)
Ltac step :=
  first
    [ rewrite bind_assoc
    | rewrite bind_ret
    | rewrite bind_return
    | rewrite bind_throw
    | rewrite bind_when_false
    | rewrite bind_when_true
    | rewrite bind_fprintf
    | rewrite bind_perror
    | rewrite bind_usleep
    | rewrite bind_sleep
    | rewrite bind_emit
    | rewrite bind_safewrite32
    | rewrite bind_saferead32
    | rewrite bind_set_value
    | rewrite bind_request_output
    | rewrite bind_unsafe_reg32
    | rewrite bind_map_uio
    | rewrite bind_realpath
    | rewrite bind_chip_open
    | rewrite bind_get_line
    | rewrite bind_open
    | rewrite bind_i2c_read
    | rewrite bind_i2c_write ];
  cbv zeta.

Ltac steps := repeat step.

(** ** The MDIO busy poll *)

Lemma mdio_poll_busy (n : nat) :
  forall (i : Z) (hw : hardware) (log : list event),
    (forall k, (k < n)%nat -> busy_at hw (List.length log + 2 * k)) ->
    exists log',
      mdio_poll n i hw log = (log', Ret (i + Z.of_nat n)) /\
      polls log' = (n + polls log)%nat /\
      sleeps log' = (n + sleeps log)%nat.
Proof.
  induction n as [|n IH]; intros i hw log H.
  - exists log. simpl. rewrite Z.add_0_r. auto.
  - destruct (H 0%nat ltac:(lia)) as [Hr Hb]. unfold ctrl_read in *.
    rewrite Nat.add_0_r in Hr, Hb.
    cbn [mdio_poll]. steps.
    apply Z.ltb_ge in Hr. rewrite Hr. step.
    apply Z.eqb_neq in Hb. rewrite Hb. step.
    destruct (IH (i + 1) hw
                (EvUsleep MDIO_STATUS_POLL_DELAY ::
                 EvRead32 MDIO MDIO_CTRL_REG_OFFSET
                   (r_ret (hw (List.length log) (Read32 MDIO MDIO_CTRL_REG_OFFSET)))
                   (u32 (r_word (hw (List.length log) (Read32 MDIO MDIO_CTRL_REG_OFFSET))))
                 :: log)) as [log' [E [P S]]].
    { intros k Hk. cbn [List.length].
      replace (S (S (List.length log)) + 2 * k)%nat
        with (List.length log + 2 * S k)%nat by lia.
      apply H. lia. }
    exists log'. rewrite E. split; [f_equal; f_equal; lia |].
    rewrite P, S. unfold polls, sleeps. cbn. split; lia.
Qed.

Lemma mdio_wait_timeout (hw : hardware) (log : list event) :
  (forall k, (k < 100)%nat -> busy_at hw (List.length log + 2 * k)) ->
  exists log',
    mdio_wait_not_busy hw log = (log', Exit (-1)) /\
    polls log' = (100 + polls log)%nat /\
    sleeps log' = (100 + sleeps log)%nat.
Proof.
  intros H. unfold mdio_wait_not_busy.
  destruct (mdio_poll_busy (Z.to_nat MDIO_STATUS_POLL_LIMIT) 0 hw log H)
    as [log' [E [P S]]].
  exists log'. unfold bind. rewrite E. auto.
Qed.

Lemma mdio_wait_idle (hw : hardware) (log : list event) :
  idle_at hw (List.length log) ->
  mdio_wait_not_busy hw log =
  (EvRead32 MDIO MDIO_CTRL_REG_OFFSET (r_ret (ctrl_read hw (List.length log)))
     (u32 (r_word (ctrl_read hw (List.length log)))) :: log, Ret tt).
Proof.
  intros [Hr Hb]. unfold mdio_wait_not_busy, ctrl_read in *.
  change (Z.to_nat MDIO_STATUS_POLL_LIMIT) with (S 99).
  cbn [mdio_poll]. steps.
  apply Z.ltb_ge in Hr. rewrite Hr. step.
  rewrite Hb. change (0 =? 0) with true. cbv iota. steps.
  reflexivity.
Qed.

Ltac write_ok Hw :=
  match goal with
  | |- context [r_ret (?hw ?t (Write32 MDIO ?o ?v)) <? 0] =>
      rewrite (proj2 (Z.ltb_ge (r_ret (hw t (Write32 MDIO o v))) 0) (Hw t o v))
  end.

Lemma mdio_phy_addr_run (hw : hardware) (log : list event) (p d r : Z) :
  writes_ok hw ->
  mdio_phy_addr p d r hw log =
  fn (mdio_wait_not_busy ;; ret 0) hw (addr_phase_log hw log p d r).
Proof.
  intros Hw. unfold mdio_phy_addr, fn.
  step. write_ok Hw. steps. cbn [List.length].
  write_ok Hw. steps. cbn [List.length].
  change (Z.lor MDIO_CTRL_ENA_BIT MDIO_CTRL_REQ_BUSY_BIT) with 9.
  write_ok Hw. steps. reflexivity.
Qed.

Lemma addr_phase_log_counts (hw : hardware) (log : list event) (p d r : Z) :
  List.length (addr_phase_log hw log p d r) = (6 + List.length log)%nat /\
  polls (addr_phase_log hw log p d r) = polls log /\
  sleeps (addr_phase_log hw log p d r) = (3 + sleeps log)%nat.
Proof. repeat split. Qed.

Lemma mdio_phy_addr_idle (hw : hardware) (log : list event) (p d r : Z) :
  writes_ok hw -> idle_at hw (6 + List.length log) ->
  mdio_phy_addr p d r hw log =
  (EvRead32 MDIO MDIO_CTRL_REG_OFFSET
     (r_ret (ctrl_read hw (6 + List.length log)))
     (u32 (r_word (ctrl_read hw (6 + List.length log))))
   :: addr_phase_log hw log p d r, Ret 0).
Proof.
  intros Hw Hi. rewrite mdio_phy_addr_run by exact Hw.
  unfold fn, bind. rewrite mdio_wait_idle by exact Hi. reflexivity.
Qed.

Lemma mdio_phy_write_run (hw : hardware) (log : list event) (p d r v : Z) :
  writes_ok hw -> idle_at hw (6 + List.length log) ->
  mdio_phy_write p d r v hw log =
  fn (mdio_wait_not_busy ;; ret 0) hw (write_phase_log hw log p d r v).
Proof.
  intros Hw Hi. unfold mdio_phy_write, fn.
  unfold bind at 1. rewrite mdio_phy_addr_idle by assumption.
  change (0 <? 0) with false. step.
  step. cbn [List.length addr_phase_log]. write_ok Hw. steps.
  cbn [List.length]. write_ok Hw. steps.
  change (Z.lor MDIO_CTRL_ENA_BIT MDIO_CTRL_REQ_BUSY_BIT) with 9.
  cbn [List.length]. write_ok Hw. steps. reflexivity.
Qed.

Lemma mdio_phy_read_run (hw : hardware) (log : list event) (p d r buf : Z) :
  writes_ok hw -> idle_at hw (6 + List.length log) ->
  mdio_phy_read p d r buf hw log =
  match (mdio_wait_not_busy ;;
         rd <- easymem_saferead32 MDIO MDIO_READ_BUF_OFFSET ;;
         when (fst rd <? 0) (return_ (-1)) ;;
         ret (0, snd rd)) hw (read_phase_log hw log p d r) with
  | (log', Exit c) => (log', Ret (c, buf))
  | res => res
  end.
Proof.
  intros Hw Hi. unfold mdio_phy_read.
  unfold bind at 1. rewrite mdio_phy_addr_idle by assumption.
  change (0 <? 0) with false. step.
  step. cbn [List.length addr_phase_log]. write_ok Hw. steps.
  change (Z.lor MDIO_CTRL_ENA_BIT MDIO_CTRL_REQ_BUSY_BIT) with 9.
  cbn [List.length]. write_ok Hw. steps. reflexivity.
Qed.

Lemma fn_timeout (hw : hardware) (log log' : list event) :
  mdio_wait_not_busy hw log = (log', Exit (-1)) ->
  fn (mdio_wait_not_busy ;; ret 0) hw log = (log', Ret (-1)).
Proof. intros E. unfold fn, bind. rewrite E. reflexivity. Qed.

(** C6: the busy poll fails when BUSY is set on each of the 100 polls (with
    a sleep after each of them), and succeeds on its first read, without
    sleeping, when BUSY is clear there; the same holds for the address
    phase, the data phase of a write and the data phase of a read. *)
Theorem mdio_busy_poll (hw : hardware) (log : list event) (p d r v buf : Z) :
  ((forall k, (k < 100)%nat -> busy_at hw (List.length log + 2 * k)) ->
   exists log',
     mdio_wait_not_busy hw log = (log', Exit (-1)) /\
     polls log' = (100 + polls log)%nat /\
     sleeps log' = (100 + sleeps log)%nat) /\
  (idle_at hw (List.length log) ->
   exists e,
     mdio_wait_not_busy hw log = (e :: log, Ret tt) /\ is_poll e = true) /\
  (writes_ok hw ->
   ((forall k, (k < 100)%nat -> busy_at hw (6 + List.length log + 2 * k)) ->
    exists log',
      mdio_phy_addr p d r hw log = (log', Ret (-1)) /\
      polls log' = (100 + polls log)%nat /\
      sleeps log' = (103 + sleeps log)%nat) /\
   (idle_at hw (6 + List.length log) ->
    exists log',
      mdio_phy_addr p d r hw log = (log', Ret 0) /\
      polls log' = (1 + polls log)%nat /\
      sleeps log' = (3 + sleeps log)%nat)) /\
  (writes_ok hw -> idle_at hw (6 + List.length log) ->
   ((forall k, (k < 100)%nat -> busy_at hw (10 + List.length log + 2 * k)) ->
    exists log',
      mdio_phy_write p d r v hw log = (log', Ret (-1)) /\
      polls log' = (101 + polls log)%nat /\
      sleeps log' = (103 + sleeps log)%nat) /\
   (idle_at hw (10 + List.length log) ->
    exists log',
      mdio_phy_write p d r v hw log = (log', Ret 0) /\
      polls log' = (2 + polls log)%nat /\
      sleeps log' = (3 + sleeps log)%nat)) /\
  (writes_ok hw -> idle_at hw (6 + List.length log) ->
   ((forall k, (k < 100)%nat -> busy_at hw (9 + List.length log + 2 * k)) ->
    exists log',
      mdio_phy_read p d r buf hw log = (log', Ret (-1, buf)) /\
      polls log' = (101 + polls log)%nat /\
      sleeps log' = (103 + sleeps log)%nat) /\
   (idle_at hw (9 + List.length log) ->
    0 <= r_ret (hw (10 + List.length log)%nat (Read32 MDIO MDIO_READ_BUF_OFFSET)) ->
    exists log' word,
      mdio_phy_read p d r buf hw log = (log', Ret (0, word)) /\
      polls log' = (2 + polls log)%nat /\
      sleeps log' = (3 + sleeps log)%nat)).
Proof.
  split; [| split; [| split; [| split]]].
  - apply mdio_wait_timeout.
  - intros Hi. eexists. rewrite mdio_wait_idle by exact Hi.
    split; reflexivity.
  - intros Hw. split.
    + intros Hb. rewrite mdio_phy_addr_run by exact Hw.
      destruct (mdio_wait_timeout hw (addr_phase_log hw log p d r) Hb)
        as [log' [E [P S]]].
      exists log'. rewrite (fn_timeout _ _ _ E). rewrite P, S.
      repeat split.
    + intros Hi. eexists. rewrite mdio_phy_addr_idle by assumption.
      repeat split.
  - intros Hw Ha. split.
    + intros Hb. rewrite mdio_phy_write_run by assumption.
      destruct (mdio_wait_timeout hw (write_phase_log hw log p d r v) Hb)
        as [log' [E [P S]]].
      exists log'. rewrite (fn_timeout _ _ _ E). rewrite P, S.
      repeat split.
    + intros Hi. rewrite mdio_phy_write_run by assumption.
      eexists. unfold fn, bind. rewrite mdio_wait_idle by exact Hi.
      repeat split.
  - intros Hw Ha. split.
    + intros Hb. rewrite mdio_phy_read_run by assumption.
      destruct (mdio_wait_timeout hw (read_phase_log hw log p d r) Hb)
        as [log' [E [P S]]].
      exists log'. unfold bind at 1. rewrite E. rewrite P, S.
      repeat split.
    + intros Hi Hr. rewrite mdio_phy_read_run by assumption.
      unfold bind at 1. rewrite mdio_wait_idle by exact Hi.
      step. cbn [fst snd].
      change (List.length
                (EvRead32 MDIO MDIO_CTRL_REG_OFFSET
                   (r_ret (ctrl_read hw (List.length (read_phase_log hw log p d r))))
                   (u32 (r_word (ctrl_read hw (List.length (read_phase_log hw log p d r)))))
                 :: read_phase_log hw log p d r))
        with (10 + List.length log)%nat.
      apply Z.ltb_ge in Hr. rewrite Hr. step.
      do 2 eexists. repeat split.
Qed.

Lemma mdio_busy_poll_witness :
  (exists log',
      mdio_wait_not_busy (stuck_from 0) [] = (log', Exit (-1)) /\
      polls log' = 100%nat /\ sleeps log' = 100%nat) /\
  (exists e,
      mdio_wait_not_busy (board [] 0 0) [] = ([e], Ret tt) /\ is_poll e = true) /\
  (exists log',
      mdio_phy_addr 0 1 0x8000 (stuck_from 0) [] = (log', Ret (-1)) /\
      polls log' = 100%nat /\ sleeps log' = 103%nat) /\
  (exists log',
      mdio_phy_addr 0 1 0x8000 (board [] 0 0) [] = (log', Ret 0) /\
      polls log' = 1%nat /\ sleeps log' = 3%nat) /\
  (exists log',
      mdio_phy_write 0 1 0x8000 0x4000 (stuck_from 7) [] = (log', Ret (-1)) /\
      polls log' = 101%nat /\ sleeps log' = 103%nat) /\
  (exists log',
      mdio_phy_write 0 1 0x8000 0x4000 (board [] 0 0) [] = (log', Ret 0) /\
      polls log' = 2%nat /\ sleeps log' = 3%nat) /\
  (exists log',
      mdio_phy_read 0 1 0x8000 0xffffffff (stuck_from 7) [] = (log', Ret (-1, 0xffffffff)) /\
      polls log' = 101%nat /\ sleeps log' = 103%nat) /\
  (exists log' word,
      mdio_phy_read 0 1 0x8000 0xffffffff (board [] 0 0) [] = (log', Ret (0, word)) /\
      polls log' = 2%nat /\ sleeps log' = 3%nat).
Proof.
  assert (Wb : forall n, writes_ok (stuck_from n)).
  { intros n t offset v. unfold stuck_from.
    destruct (t <? n)%nat; vm_compute; discriminate. }
  assert (Wi : writes_ok (board [] 0 0)).
  { intros t offset v. vm_compute. discriminate. }
  assert (Ib : forall t, idle_at (board [] 0 0) t).
  { intros t. split; vm_compute; [discriminate | reflexivity]. }
  repeat split.
  - apply (proj1 (mdio_busy_poll (stuck_from 0) [] 0 0 0 0 0)).
    intros k Hk. split; vm_compute; discriminate.
  - apply (proj1 (proj2 (mdio_busy_poll (board [] 0 0) [] 0 0 0 0 0))).
    apply Ib.
  - apply (proj1 (proj2 (proj2 (mdio_busy_poll (stuck_from 0) [] 0 1 0x8000 0 0)))).
    + apply Wb.
    + intros k Hk. split; vm_compute; discriminate.
  - apply (proj1 (proj2 (proj2 (mdio_busy_poll (board [] 0 0) [] 0 1 0x8000 0 0)))).
    + apply Wi.
    + apply Ib.
  - apply (proj1 (proj2 (proj2 (proj2 (mdio_busy_poll (stuck_from 7) [] 0 1 0x8000 0x4000 0))))).
    + apply Wb.
    + split; vm_compute; [discriminate | reflexivity].
    + intros k Hk. split; vm_compute; discriminate.
  - apply (proj1 (proj2 (proj2 (proj2 (mdio_busy_poll (board [] 0 0) [] 0 1 0x8000 0x4000 0))))).
    + apply Wi.
    + apply Ib.
    + apply Ib.
  - apply (proj2 (proj2 (proj2 (proj2 (mdio_busy_poll (stuck_from 7) [] 0 1 0x8000 0 0xffffffff))))).
    + apply Wb.
    + split; vm_compute; [discriminate | reflexivity].
    + intros k Hk. split; vm_compute; discriminate.
  - apply (proj2 (proj2 (proj2 (proj2 (mdio_busy_poll (board [] 0 0) [] 0 1 0x8000 0 0xffffffff))))).
    + apply Wi.
    + apply Ib.
    + apply Ib.
    + vm_compute. discriminate.
Defined.

(** ** Which events a computation adds to the log *)

Lemma emits_ret {A : Type} (P : event -> Prop) (a : A) : emits P (ret a).
Proof. intros hw log. exists []. split; [reflexivity | constructor]. Qed.

Lemma emits_return {A : Type} (P : event -> Prop) (c : Z) :
  emits P (@return_ A c).
Proof. intros hw log. exists []. split; [reflexivity | constructor]. Qed.

Lemma emits_emit (P : event -> Prop) (e : event) : P e -> emits P (emit e).
Proof.
  intros H hw log. exists [e]. split; [reflexivity | repeat constructor; exact H].
Qed.

Lemma emits_call (P : event -> Prop) (rq : request) (mk : response -> event) :
  (forall a, P (mk a)) -> emits P (call rq mk).
Proof.
  intros H hw log. exists [mk (hw (List.length log) rq)].
  split; [reflexivity | repeat constructor; apply H].
Qed.

Lemma emits_bind {A B : Type} (P : event -> Prop) (m : M A) (k : A -> M B) :
  emits P m -> (forall a, emits P (k a)) -> emits P (bind m k).
Proof.
  intros Hm Hk hw log. unfold bind.
  destruct (Hm hw log) as [evs [E F]].
  destruct (m hw log) as [log1 [a| c | |]]; simpl in E; subst log1;
    try (exists evs; split; [reflexivity | exact F]).
  destruct (Hk a hw (evs ++ log)%list) as [evs2 [E2 F2]].
  exists (evs2 ++ evs)%list. rewrite E2, app_assoc.
  split; [reflexivity | apply Forall_app; split; assumption].
Qed.

Lemma emits_when (P : event -> Prop) (c : bool) (m : M unit) :
  emits P m -> emits P (when c m).
Proof. intros H. destruct c; [exact H | apply emits_ret]. Qed.

Lemma emits_fn (P : event -> Prop) (m : M Z) : emits P m -> emits P (fn m).
Proof.
  intros H hw log. unfold fn. destruct (H hw log) as [evs [E F]].
  exists evs. destruct (m hw log) as [l [a| c | |]]; simpl in *; auto.
Qed.

Ltac emits_with known :=
  repeat first
    [ known
    | apply emits_ret | apply emits_return
    | apply emits_when | apply emits_fn
    | apply emits_emit; exact I
    | apply emits_call; intros; exact I
    | apply emits_bind; [| intros ] ].

Ltac emits_tac := emits_with fail.

Lemma mdio_poll_emits (n : nat) (i : Z) : emits mdio_event (mdio_poll n i).
Proof.
  revert i. induction n as [|n IH]; intros i; cbn [mdio_poll].
  - apply emits_ret.
  - unfold easymem_saferead32, usleep.
    apply emits_bind; [emits_tac |]. intros [r regval].
    apply emits_bind; [emits_tac |]. intros _.
    destruct (Z.land regval MDIO_CTRL_REQ_BUSY_BIT =? 0); [apply emits_ret |].
    apply emits_bind; [emits_tac |]. intros _. apply IH.
Qed.

Lemma mdio_wait_emits : emits mdio_event mdio_wait_not_busy.
Proof.
  unfold mdio_wait_not_busy.
  apply emits_bind; [apply mdio_poll_emits | intros; emits_tac].
Qed.

Lemma mdio_phy_addr_emits (p d r : Z) : emits mdio_event (mdio_phy_addr p d r).
Proof.
  unfold mdio_phy_addr, easymem_safewrite32, usleep.
  emits_with ltac:(apply mdio_wait_emits).
Qed.

Lemma mdio_phy_write_emits (p d r v : Z) :
  emits mdio_event (mdio_phy_write p d r v).
Proof.
  unfold mdio_phy_write, easymem_safewrite32.
  emits_with ltac:(first [apply mdio_wait_emits | apply mdio_phy_addr_emits]).
Qed.

Lemma mdio_write_all_emits (ops : list MDIO_Operation) :
  emits mdio_event (mdio_write_all ops).
Proof.
  induction ops as [|op ops IH]; cbn [mdio_write_all].
  - apply emits_ret.
  - unfold fprintf.
    apply emits_bind; [emits_tac |]. intros _.
    apply emits_bind; [apply mdio_phy_write_emits |]. intros r.
    apply emits_bind; [emits_tac |]. intros _. exact IH.
Qed.

(** [validate_mac_address] returns a boolean and only prints. *)
Lemma validate_mac_address_run (pre : string) (macbuf : list byte) (warn : bool)
    (hw : hardware) (log : list event) :
  exists evs ok,
    validate_mac_address pre macbuf warn hw log = ((evs ++ log)%list, Ret ok) /\
    Forall message evs.
Proof.
  unfold validate_mac_address, format_mac_or_throw. rewrite format_mac_text.
  destruct (String.length pre =? 0)%nat.
  { destruct warn; [exists [EvPrintf stderr "Warning: config.valid_mac_address_prefix is not set!\n" []] | exists []];
      exists true; split; try reflexivity; repeat constructor. }
  step.
  repeat match goal with
         | |- context [if ?c then _ else _] => destruct c
         end;
    (eexists [_], false; split; [reflexivity | repeat constructor]) ||
    (exists [], true; split; [reflexivity | constructor]).
Qed.

(** ** Programming and verifying the MAC address *)

Lemma message_not_gbe (evs : list event) :
  Forall message evs -> Forall not_gbe evs.
Proof.
  apply Forall_impl. intros e H. destruct e; simpl in *; try contradiction; exact I.
Qed.

Lemma mdio_event_not_gbe (evs : list event) :
  Forall mdio_event evs -> Forall not_gbe evs.
Proof.
  apply Forall_impl. intros e H.
  destruct e as [ | | | | | | | | | | | [|] | [|] | | | ]; simpl in *;
    try contradiction; exact I.
Qed.

(** A run that touched no core register and did not fall through. *)
Lemma programs_and_verifies_idle (hi lo : Z) (evs : list event)
    (out : outcome unit) :
  Forall not_gbe evs -> out <> Ret tt -> programs_and_verifies hi lo evs out.
Proof.
  intros F N. rewrite Forall_forall in F.
  repeat split.
  - intros v r H. destruct (F _ H).
  - intros v r H. destruct (F _ H).
  - intros H. contradiction.
  - destruct (F _ H).
  - destruct (F _ H).
Qed.

(** Earlier events that do not touch the core leave the contract as it is. *)
Lemma programs_and_verifies_older (hi lo : Z) (evs older : list event)
    (out : outcome unit) :
  Forall not_gbe older ->
  programs_and_verifies hi lo evs out ->
  programs_and_verifies hi lo (evs ++ older)%list out.
Proof.
  intros F [H1 [H2 [H3 H4]]]. rewrite Forall_forall in F.
  assert (G : forall e, not_gbe e -> False -> In e evs) by (intros; contradiction).
  repeat apply conj.
  - intros v r H. apply in_app_or in H. destruct H as [H|H]; [eauto | destruct (F _ H)].
  - intros v r H. apply in_app_or in H. destruct H as [H|H]; [eauto | destruct (F _ H)].
  - intros E. destruct (H3 E) as (o & r1 & r2 & r3 & r4 & r5 & r6 & l & Ev & R).
    exists (o ++ older)%list, r1, r2, r3, r4, r5, r6, l. subst evs.
    split; [reflexivity | exact R].
  - intros r5 h r6 l Ia Ib Hr Hm.
    apply in_app_or in Ia. destruct Ia as [Ia|Ia]; [| destruct (F _ Ia)].
    apply in_app_or in Ib. destruct Ib as [Ib|Ib]; [| destruct (F _ Ib)].
    destruct (H4 _ _ _ _ Ia Ib Hr Hm) as [E (r & o & [[Ev Hp]|[Ev Hp]])];
      split; try exact E; exists r, (o ++ older)%list; subst evs; [left | right];
      split; try reflexivity; exact Hp.
Qed.

Ltac branch :=
  match goal with
  | |- context [bind (when ?c _) _ _ _] =>
      let E := fresh "E" in destruct c eqn:E; steps
  end.

(** Replace an answer of the hardware by a variable. *)
Ltac name_answer hw :=
  match goal with
  | |- context [hw ?t ?rq] =>
      let a := fresh "a" in set (a := hw t rq) in *; clearbody a
  end.

Ltac gbe_offsets H :=
  unfold GBE_REG_USR_MAC_HIGH, GBE_REG_USR_MAC_LOW, GBE_REG_USR_MAC_CFG,
    GBE_REG_SYSTEM_MAC_HIGH, GBE_REG_SYSTEM_MAC_LOW in H.

(** Membership in an explicit list of events ending in [old]. *)
Ltac in_explicit H :=
  cbn [In] in H; gbe_offsets H;
  repeat (destruct H as [H | H];
          [ try discriminate H; try (injection H as; subst) |]).

Lemma prefix_nil (log : list event) : log = ([] ++ log)%list.
Proof. reflexivity. Qed.

Lemma prefix_cons (e : event) (l evs log : list event) :
  l = (evs ++ log)%list -> e :: l = ((e :: evs) ++ log)%list.
Proof. intros ->. reflexivity. Qed.

Lemma prefix_result {A : Type} (l evs log : list event) (out : outcome A) :
  l = (evs ++ log)%list -> (l, out) = ((evs ++ log)%list, out).
Proof. intros ->. reflexivity. Qed.

(** Read off the events added to [log] from an explicit final log. *)
Ltac prefix :=
  first [ reflexivity | apply prefix_nil | eapply prefix_cons; prefix ].

Ltac close_branch :=
  do 2 eexists; split; [apply prefix_result; prefix |].

Ltac fail_branch FV :=
  close_branch; unfold programs_and_verifies; repeat apply conj;
  [ let H := fresh "H" in
    intros ? ? H; in_explicit H; try reflexivity; try (destruct (FV _ H))
  | let H := fresh "H" in
    intros ? ? H; in_explicit H; try reflexivity; try (destruct (FV _ H))
  | discriminate
  | let Ia := fresh "Ia" in
    let Ib := fresh "Ib" in
    let Hr := fresh "Hr" in
    intros ? ? ? ? Ia Ib Hr ?;
    in_explicit Ia; in_explicit Ib;
    try (destruct (FV _ Ia)); try (destruct (FV _ Ib));
    repeat match goal with
           | H : (_ <? _) = true |- _ => apply Z.ltb_lt in H
           end;
    try lia ].

Ltac to_lia :=
  repeat match goal with
         | H : (_ <? _) = true |- _ => apply Z.ltb_lt in H
         | H : (_ <? _) = false |- _ => apply Z.ltb_ge in H
         end.

Lemma configure_gbe_contract (config : Config) (macbuf : list byte)
    (hw : hardware) (log : list event) :
  exists evs out,
    configure_gbe config macbuf hw log = ((evs ++ log)%list, out) /\
    programs_and_verifies (pack_octets macbuf 0 4) (pack_octets macbuf 4 2) evs out.
Proof.
  unfold configure_gbe, format_mac_or_throw.
  rewrite !format_mac_text. steps.
  unfold bind at 1.
  destruct (validate_mac_address_run (valid_mac_address_prefix config) macbuf true hw
              (EvPrintf stdout "Configuring 10GbE with MAC address %s\n"
                 [AStr (mac_text macbuf)] :: log))
    as [evsV [ok [EV FV]]].
  rewrite EV. clear EV.
  apply message_not_gbe in FV.
  set (hi := pack_octets macbuf 0 4). set (lo := pack_octets macbuf 4 2).
  clearbody hi lo.
  assert (FV' : Forall not_gbe
                  (evsV ++ [EvPrintf stdout "Configuring 10GbE with MAC address %s\n"
                              [AStr (mac_text macbuf)]])%list).
  { apply Forall_app. split; [exact FV | repeat constructor]. }
  replace (evsV ++ EvPrintf stdout "Configuring 10GbE with MAC address %s\n"
                     [AStr (mac_text macbuf)] :: log)%list
    with ((evsV ++ [EvPrintf stdout "Configuring 10GbE with MAC address %s\n"
                      [AStr (mac_text macbuf)]]) ++ log)%list
    by (rewrite <- app_assoc; reflexivity).
  set (old := (evsV ++ [EvPrintf stdout "Configuring 10GbE with MAC address %s\n"
                          [AStr (mac_text macbuf)]])%list) in *.
  clearbody old. clear FV evsV.
  rewrite Forall_forall in FV'.
  assert (Old : forall e, In e old -> not_gbe e -> True) by auto.
  destruct ok; cbn [negb]; steps.
  2:{ close_branch.
      apply programs_and_verifies_idle; [| discriminate].
      constructor; [exact I | apply Forall_forall; exact FV']. }
  (* write USR_MAC_HIGH *)
  name_answer hw. branch; [fail_branch FV' |].
  (* write USR_MAC_LOW *)
  name_answer hw. branch; [fail_branch FV' |].
  (* write USR_MAC_CFG *)
  name_answer hw. branch; [fail_branch FV' |].
  (* release reset *)
  name_answer hw. branch; [fail_branch FV' |].
  (* read SYSTEM_MAC_HIGH *)
  name_answer hw. cbv beta iota. branch; [fail_branch FV' |].
  (* read SYSTEM_MAC_LOW *)
  name_answer hw. cbv beta iota. branch; [fail_branch FV' |].
  unfold when at 1.
  destruct (negb (hi =? u32 (r_word a3)) ||
            negb (Z.land lo 65535 =? Z.land (u32 (r_word a4)) 65535)) eqn:Cmp.
  - (* mismatch: roll back *)
    steps. rewrite format_mac_text. steps.
    name_answer hw. name_answer hw. branch.
    + close_branch. unfold programs_and_verifies. repeat apply conj.
      * intros v r H. in_explicit H; try reflexivity. destruct (FV' _ H).
      * intros v r H. in_explicit H; try reflexivity. destruct (FV' _ H).
      * discriminate.
      * intros r5 h r6 l Ia Ib Hr Hm. split; [reflexivity |].
        do 2 eexists. right. split; [reflexivity |]. to_lia. lia.
    + unfold return_. close_branch. unfold programs_and_verifies. repeat apply conj.
      * intros v r H. in_explicit H; try reflexivity. destruct (FV' _ H).
      * intros v r H. in_explicit H; try reflexivity. destruct (FV' _ H).
      * discriminate.
      * intros r5 h r6 l Ia Ib Hr Hm. split; [reflexivity |].
        do 2 eexists. left. split; [reflexivity |]. to_lia. lia.
  - (* match: fall through *)
    unfold ret. close_branch.
    apply orb_false_elim in Cmp. destruct Cmp as [Ch Cl].
    apply negb_false_iff in Ch, Cl. apply Z.eqb_eq in Ch, Cl.
    to_lia.
    unfold programs_and_verifies. repeat apply conj.
    + intros v r H. in_explicit H; try reflexivity. destruct (FV' _ H).
    + intros v r H. in_explicit H; try reflexivity. destruct (FV' _ H).
    + intros _. rewrite <- Ch.
      do 8 eexists. split; [reflexivity |].
      repeat split; try lia; symmetry; exact Cl.
    + intros r5 h r6 l Ia Ib Hr Hm.
      in_explicit Ia; in_explicit Ib;
        try (destruct (FV' _ Ia)); try (destruct (FV' _ Ib)).
      exfalso. destruct Hm as [Hm | Hm]; apply Hm; congruence.
Qed.

Lemma do_initialize_contract (config : Config) (macbuf : list byte)
    (hw : hardware) (log : list event) :
  exists evs out,
    do_initialize config macbuf hw log = ((evs ++ log)%list, out) /\
    programs_and_verifies (pack_octets macbuf 0 4) (pack_octets macbuf 4 2) evs out.
Proof.
  unfold do_initialize. steps.
  name_answer hw. branch.
  { close_branch. apply programs_and_verifies_idle; [repeat constructor | discriminate]. }
  name_answer hw. branch.
  { close_branch. apply programs_and_verifies_idle; [repeat constructor | discriminate]. }
  unfold parse_mdio_writes_or_hang.
  destruct (parse_mdio_writes (mdio_reg_writes config)) as [ops|].
  2:{ unfold bind. close_branch.
      apply programs_and_verifies_idle; [repeat constructor | discriminate]. }
  step. unfold bind at 1.
  set (log3 := EvUsleep GBE_RST_SETTLE_US :: EvSetValue 1 (r_ret a0)
               :: EvRequestOutput "10ginit" 1 (r_ret a) :: log).
  destruct (mdio_write_all_emits ops hw log3) as [evsM [EM FM]].
  apply mdio_event_not_gbe in FM.
  destruct (mdio_write_all ops hw log3) as [logM outM].
  simpl in EM. subst logM.
  assert (F3 : Forall not_gbe
                 (evsM ++ [EvUsleep GBE_RST_SETTLE_US; EvSetValue 1 (r_ret a0);
                           EvRequestOutput "10ginit" 1 (r_ret a)])%list).
  { apply Forall_app. split; [exact FM | repeat constructor]. }
  replace (evsM ++ log3)%list
    with ((evsM ++ [EvUsleep GBE_RST_SETTLE_US; EvSetValue 1 (r_ret a0);
                    EvRequestOutput "10ginit" 1 (r_ret a)]) ++ log)%list
    by (rewrite <- app_assoc; reflexivity).
  destruct outM as [[] | c | |];
    try (do 2 eexists; split; [reflexivity |];
         apply programs_and_verifies_idle; [exact F3 | discriminate]).
  destruct (configure_gbe_contract config macbuf hw
              ((evsM ++ [EvUsleep GBE_RST_SETTLE_US; EvSetValue 1 (r_ret a0);
                         EvRequestOutput "10ginit" 1 (r_ret a)]) ++ log)%list)
    as [evs [out [EC C]]].
  rewrite EC. exists (evs ++ (evsM ++ [EvUsleep GBE_RST_SETTLE_US; EvSetValue 1 (r_ret a0);
                         EvRequestOutput "10ginit" 1 (r_ret a)]))%list, out.
  rewrite app_assoc. split; [reflexivity |].
  apply programs_and_verifies_older; assumption.
Qed.

Lemma pack_aabbccddeeff :
  pack_octets mac_aabbccddeeff 0 4 = 0xddccbbaa /\
  pack_octets mac_aabbccddeeff 4 2 = 0x0000ffee.
Proof. split; vm_compute; reflexivity. Qed.

(** C1, as the code has it: an initialization with the MAC address
    aa:bb:cc:dd:ee:ff writes 0xddccbbaa to USR_MAC_HIGH and 0x0000ffee to
    USR_MAC_LOW (octet 0 in the low byte); it ends in success only after
    reading back 0xddccbbaa from SYSTEM_MAC_HIGH and 0xffee in the low 16
    bits of SYSTEM_MAC_LOW; when both words were read back and differ from
    that, it tries to put the core back into reset and returns 1. *)
Theorem initialize_programs_mac (config : Config) (hw : hardware)
    (log : list event) :
  exists evs out,
    do_initialize config mac_aabbccddeeff hw log = ((evs ++ log)%list, out) /\
    (forall v r, In (EvWrite32 GBE GBE_REG_USR_MAC_HIGH v r) evs -> v = 0xddccbbaa) /\
    (forall v r, In (EvWrite32 GBE GBE_REG_USR_MAC_LOW v r) evs -> v = 0x0000ffee) /\
    (out = Ret tt ->
     exists older r1 r2 r3 r4 r5 r6 l,
       evs = EvRead32 GBE GBE_REG_SYSTEM_MAC_LOW r6 l ::
             EvRead32 GBE GBE_REG_SYSTEM_MAC_HIGH r5 0xddccbbaa ::
             EvUsleep GBE_RST_SETTLE_US ::
             EvSetValue 0 r4 ::
             EvWrite32 GBE GBE_REG_USR_MAC_CFG 1 r3 ::
             EvUsleep GBE_RST_SETTLE_US ::
             EvWrite32 GBE GBE_REG_USR_MAC_LOW 0x0000ffee r2 ::
             EvWrite32 GBE GBE_REG_USR_MAC_HIGH 0xddccbbaa r1 :: older /\
       Z.land l 0xffff = 0xffee /\
       0 <= r1 /\ 0 <= r2 /\ 0 <= r3 /\ 0 <= r4 /\ 0 <= r5 /\ 0 <= r6) /\
    (forall r5 h r6 l,
        In (EvRead32 GBE GBE_REG_SYSTEM_MAC_HIGH r5 h) evs ->
        In (EvRead32 GBE GBE_REG_SYSTEM_MAC_LOW r6 l) evs ->
        0 <= r6 ->
        h <> 0xddccbbaa \/ Z.land l 0xffff <> 0xffee ->
        out = Exit 1 /\
        exists r older,
          (evs = EvSetValue 1 r :: older /\ 0 <= r) \/
          (evs = EvPerror "unable to assert reset gpio" :: EvSetValue 1 r :: older /\ r < 0)).
Proof.
  destruct (do_initialize_contract config mac_aabbccddeeff hw log)
    as [evs [out [E C]]].
  destruct pack_aabbccddeeff as [Ph Pl]. rewrite Ph, Pl in C.
  exists evs, out. split; [exact E | exact C].
Qed.

Lemma initialize_programs_mac_witness :
  exists older r1 r2 r3 r4 r5 r6 l,
    fst (do_initialize sample_config mac_aabbccddeeff
           (board mac_aabbccddeeff 0xddccbbaa 0x1234ffee) []) =
    EvRead32 GBE GBE_REG_SYSTEM_MAC_LOW r6 l ::
    EvRead32 GBE GBE_REG_SYSTEM_MAC_HIGH r5 0xddccbbaa ::
    EvUsleep GBE_RST_SETTLE_US ::
    EvSetValue 0 r4 ::
    EvWrite32 GBE GBE_REG_USR_MAC_CFG 1 r3 ::
    EvUsleep GBE_RST_SETTLE_US ::
    EvWrite32 GBE GBE_REG_USR_MAC_LOW 0x0000ffee r2 ::
    EvWrite32 GBE GBE_REG_USR_MAC_HIGH 0xddccbbaa r1 :: older /\
    Z.land l 0xffff = 0xffee.
Proof.
  destruct (initialize_programs_mac sample_config
              (board mac_aabbccddeeff 0xddccbbaa 0x1234ffee) [])
    as (evs & out & E & _ & _ & Ok & _).
  assert (O : out = Ret tt).
  { assert (S : snd (do_initialize sample_config mac_aabbccddeeff
                       (board mac_aabbccddeeff 0xddccbbaa 0x1234ffee) []) = Ret tt)
      by (vm_compute; reflexivity).
    rewrite E in S. exact S. }
  destruct (Ok O) as (older & r1 & r2 & r3 & r4 & r5 & r6 & l & Ev & L & _).
  exists older, r1, r2, r3, r4, r5, r6, l.
  rewrite E. cbn [fst]. rewrite app_nil_r. split; [exact Ev | exact L].
Defined.

Ltac find_event := repeat first [left; reflexivity | right].

Ltac no_event H :=
  vm_compute in H;
  repeat (destruct H as [H | H]; [discriminate H |]);
  exact H.

(** C1 as stated does not hold: on a board whose EEPROM holds
    aa:bb:cc:dd:ee:ff the word written to USR_MAC_HIGH is 0xddccbbaa, never
    0xaabbccdd, and USR_MAC_LOW receives 0xffee; a core that reads back
    0xaabbccdd and 0xeeff is put back into reset with exit status 1, while
    one that reads back 0xddccbbaa and 0xffee gives exit status 0. *)
Lemma initialize_words_not_as_claimed :
  let claimed := main "10ginit" [OptI] DO_NOTHING sample_config
                   (board mac_aabbccddeeff 0xaabbccdd 0x0000eeff) [] in
  let actual := main "10ginit" [OptI] DO_NOTHING sample_config
                  (board mac_aabbccddeeff 0xddccbbaa 0x0000ffee) [] in
  In (EvWrite32 GBE GBE_REG_USR_MAC_HIGH 0xddccbbaa 0) (fst claimed) /\
  In (EvWrite32 GBE GBE_REG_USR_MAC_LOW 0x0000ffee 0) (fst claimed) /\
  (forall r, ~ In (EvWrite32 GBE GBE_REG_USR_MAC_HIGH 0xaabbccdd r) (fst claimed)) /\
  (forall r, ~ In (EvWrite32 GBE GBE_REG_USR_MAC_LOW 0x0000eeff r) (fst claimed)) /\
  In (EvRead32 GBE GBE_REG_SYSTEM_MAC_HIGH 0 0xaabbccdd) (fst claimed) /\
  In (EvRead32 GBE GBE_REG_SYSTEM_MAC_LOW 0 0x0000eeff) (fst claimed) /\
  exit_status claimed = Some 1 /\
  reset_line (fst claimed) = Some 1 /\
  In (EvRead32 GBE GBE_REG_SYSTEM_MAC_HIGH 0 0xddccbbaa) (fst actual) /\
  In (EvRead32 GBE GBE_REG_SYSTEM_MAC_LOW 0 0x0000ffee) (fst actual) /\
  exit_status actual = Some 0 /\
  reset_line (fst actual) = Some 0.
Proof.
  cbv zeta.
  split; [vm_compute; find_event |].
  split; [vm_compute; find_event |].
  split; [intros r H; no_event H |].
  split; [intros r H; no_event H |].
  split; [vm_compute; find_event |].
  split; [vm_compute; find_event |].
  split; [vm_compute; reflexivity |].
  split; [vm_compute; reflexivity |].
  split; [vm_compute; find_event |].
  split; [vm_compute; find_event |].
  split; vm_compute; reflexivity.
Qed.

(** ** Exit status *)

(** C2 fails on the code: when [easymem_map_uio] fails for the 10GbE
    register region, or for the MDIO region, [run] prints the error and
    executes [return 0]. *)
Theorem map_failure_exits_zero (config : Config) (a : Args) (hw : hardware)
    (log : list event) :
  let gbe := r_ret (hw (List.length log) (MapUio GBE (gbe_uio config))) in
  let mdio := r_ret (hw (S (List.length log)) (MapUio MDIO (mdio_uio config))) in
  (gbe < 0 ->
   run config a hw log =
   (EvPerror "Mapping GBE UIO device" :: EvMapUio GBE (gbe_uio config) gbe :: log,
    Exit 0)) /\
  (0 <= gbe -> mdio_reg_writes config <> "" -> mdio < 0 ->
   run config a hw log =
   (EvPerror "Mapping MDIO UIO device" :: EvMapUio MDIO (mdio_uio config) mdio ::
    EvMapUio GBE (gbe_uio config) gbe :: log,
    Exit 0)).
Proof.
  cbv zeta. split.
  - intros H. apply Z.ltb_lt in H. unfold run. step. rewrite H. steps. reflexivity.
  - intros Hg Hn Hm. apply Z.ltb_ge in Hg. apply Z.ltb_lt in Hm.
    unfold run. step. rewrite Hg. step.
    destruct (mdio_reg_writes config) as [|c s]; [contradiction |].
    cbn [String.length Nat.eqb negb]. steps.
    cbn [List.length]. rewrite Hm. steps. reflexivity.
Qed.

Lemma map_failure_exits_zero_witness :
  exit_status (main "10ginit" [OptI] DO_NOTHING sample_config
                 (unmappable GBE (board mac_aabbccddeeff 0 0)) []) = Some 0 /\
  exit_status (main "10ginit" [OptI] DO_NOTHING sample_config
                 (unmappable MDIO (board mac_aabbccddeeff 0 0)) []) = Some 0.
Proof.
  split.
  - change (main "10ginit" [OptI] DO_NOTHING sample_config
              (unmappable GBE (board mac_aabbccddeeff 0 0)) [])
      with (run sample_config (mkArgs "/etc/10ginit.ini" DO_INITIALIZE "")
              (unmappable GBE (board mac_aabbccddeeff 0 0)) []).
    rewrite (proj1 (map_failure_exits_zero sample_config
                      (mkArgs "/etc/10ginit.ini" DO_INITIALIZE "")
                      (unmappable GBE (board mac_aabbccddeeff 0 0)) [])).
    + reflexivity.
    + vm_compute. reflexivity.
  - change (main "10ginit" [OptI] DO_NOTHING sample_config
              (unmappable MDIO (board mac_aabbccddeeff 0 0)) [])
      with (run sample_config (mkArgs "/etc/10ginit.ini" DO_INITIALIZE "")
              (unmappable MDIO (board mac_aabbccddeeff 0 0)) []).
    rewrite (proj2 (map_failure_exits_zero sample_config
                      (mkArgs "/etc/10ginit.ini" DO_INITIALIZE "")
                      (unmappable MDIO (board mac_aabbccddeeff 0 0)) [])).
    + reflexivity.
    + vm_compute. discriminate.
    + vm_compute. discriminate.
    + vm_compute. reflexivity.
Defined.

(** ** Reset at the end of a failed initialization *)

(** C3 fails on the code: when reading back SYSTEM_MAC_HIGH (or
    SYSTEM_MAC_LOW) fails after reset was released, [main] returns 1 and the
    last level driven on the reset line is 0: the core is left running. *)
Theorem readback_error_leaves_core_running :
  let high := main "10ginit" [OptI] DO_NOTHING sample_config
                (unreadable GBE_REG_SYSTEM_MAC_HIGH
                   (board mac_aabbccddeeff 0xddccbbaa 0xffee)) [] in
  let low := main "10ginit" [OptI] DO_NOTHING sample_config
               (unreadable GBE_REG_SYSTEM_MAC_LOW
                  (board mac_aabbccddeeff 0xddccbbaa 0xffee)) [] in
  exit_status high = Some 1 /\ reset_line (fst high) = Some 0 /\
  hd_error (fst high) =
    Some (EvPrintf stderr "Unable to read GBE_REG_USR_SYSTEM_HIGH.\n" []) /\
  exit_status low = Some 1 /\ reset_line (fst low) = Some 0 /\
  hd_error (fst low) =
    Some (EvPrintf stderr "Unable to read GBE_REG_USR_SYSTEM_LOW.\n" []).
Proof.
  cbv zeta.
  split; [vm_compute; reflexivity |].
  split; [vm_compute; reflexivity |].
  split; [vm_compute; reflexivity |].
  split; [vm_compute; reflexivity |].
  split; vm_compute; reflexivity.
Qed.

(** ** The EEPROM read comes first *)

(** Name an answer of the hardware, keeping what it is. *)
Ltac keep_answer hw :=
  match goal with
  | |- context [hw ?t ?rq] =>
      let a := fresh "a" in set (a := hw t rq) in *
  end.

(** The events of the explicit log [l] that came after [base]. *)
Ltac events_since l base :=
  match l with
  | base => constr:(@nil event)
  | ?e :: ?l' => let r := events_since l' base in constr:(e :: r)
  end.

Ltac compare_to_lia :=
  to_lia;
  repeat match goal with
         | H : (_ =? _) = false |- _ => apply Z.eqb_neq in H
         | H : (_ =? _) = true |- _ => apply Z.eqb_eq in H
         end.

Ltac all_acquired :=
  compare_to_lia;
  repeat (constructor; [cbn [acquired]; first [assumption | lia] |]);
  first [assumption | constructor].

Ltac all_answered :=
  cbn [answered setup_call app]; repeat (split; [reflexivity |]);
  first [assumption | exact I].

(** The goal [Q (EvPerror msg :: call :: ..., Exit c)] of a failed
    acquisition, after the calls [calls0] that led from [log] to [base]. *)
Ltac acquisition_failed Q calls0 base :=
  match goal with
  | |- Q (EvPerror ?m :: ?call :: ?l, Exit ?c) =>
      let new := events_since l base in
      let older := eval cbn [app] in (new ++ calls0)%list in
      subst Q; cbv beta;
      exists (call :: older);
      split;
      [ all_answered
      | left; exists call, older, m, c;
        split; [reflexivity |];
        split; [all_acquired |];
        split; [compare_to_lia; cbn [not_acquired]; first [assumption | lia]
               | reflexivity] ]
  end.

(** C10: whatever the action, [run] first acquires its resources, each call
    returning what the hardware answers.  Either one of these calls fails,
    and [run] ends there, after the calls before it succeeded; or all of
    them succeed, the last being the open of the EEPROM bus, and [run] then
    reads six bytes from the EEPROM before anything is done for the action:
    when the hardware does not report six bytes for that read the program
    prints an error and returns 1, for a store as for any other action, and
    only otherwise is the action dispatched.  The store branch does not take
    the bytes read. *)
Theorem eeprom_read_before_dispatch (config : Config) (a : Args)
    (hw : hardware) (log : list event) :
  exists calls,
    answered hw log calls /\
    ((exists call older msg c,
         calls = call :: older /\
         Forall acquired older /\
         not_acquired call /\
         run config a hw log = ((EvPerror msg :: calls) ++ log, Exit c)%list)
     \/
     (exists fd older,
         calls = EvOpen (mac_eeprom_bus config) fd :: older /\
         Forall acquired calls /\
         let rd := hw (List.length (calls ++ log))
                      (I2cRead fd (mac_eeprom_address config)
                         (mac_eeprom_offset config) 6) in
         let n := r_ret rd in
         let macbuf := buffer rd 6 in
         let log1 :=
           (EvI2cRead fd (mac_eeprom_address config) (mac_eeprom_offset config)
              6 n macbuf :: calls ++ log)%list in
         (n <> 6 ->
          run config a hw log =
          (EvPerror "error reading mac eeprom" :: log1, Exit 1)) /\
         (n = 6 ->
          run config a hw log =
          (match action a with
           | DO_QUERY => do_query config macbuf
           | DO_STORE => do_store config fd (set_mac a)
           | DO_INITIALIZE => do_initialize config macbuf
           | DO_NOTHING => ret tt
           end ;; ret 0) hw log1))).
Proof.
  pattern (run config a hw log).
  match goal with |- ?P _ => set (Q := P) end.
  unfold run. step.
  keep_answer hw. branch; [acquisition_failed Q (@nil event) log |].
  assert (Tail :
    forall calls0,
      answered hw log calls0 -> Forall acquired calls0 ->
      Q ((reset_gpiochip_path <- realpath (reset_gpio config);;
          when (reset_gpiochip_path =? 0)
            (perror "unable to resolve reset gpio chip path";; return_ 1);;
          gpiochip <- gpiod_chip_open;;
          when (gpiochip =? 0) (perror "error opening reset gpio chip";; return_ 1);;
          gpio_line_reset <- gpiod_chip_get_line (reset_gpio_bit config);;
          when (gpio_line_reset =? 0)
            (perror "error opening reset gpio line";; return_ 1);;
          mac_eeprom_i2cfd <- open (mac_eeprom_bus config);;
          when (mac_eeprom_i2cfd <? 0) (perror "error opening mac eeprom";; return_ 1);;
          rd <- i2c_read mac_eeprom_i2cfd (mac_eeprom_address config)
                  (mac_eeprom_offset config) 6;;
          (let '(n, macbuf) := rd in
           when (negb (n =? 6)) (perror "error reading mac eeprom";; return_ 1);;
           match action a with
           | DO_NOTHING => ret tt
           | DO_QUERY => do_query config macbuf
           | DO_STORE => do_store config mac_eeprom_i2cfd (set_mac a)
           | DO_INITIALIZE => do_initialize config macbuf
           end;; ret 0)) hw (calls0 ++ log)%list)).
  { intros calls0 A0 F0. clear E. step.
    keep_answer hw. branch; [acquisition_failed Q calls0 (calls0 ++ log)%list |].
    keep_answer hw. branch; [acquisition_failed Q calls0 (calls0 ++ log)%list |].
    keep_answer hw. branch; [acquisition_failed Q calls0 (calls0 ++ log)%list |].
    keep_answer hw. branch; [acquisition_failed Q calls0 (calls0 ++ log)%list |].
    keep_answer hw. subst Q. cbv beta.
    exists (EvOpen (mac_eeprom_bus config) (r_ret a4) ::
            EvGetLine (reset_gpio_bit config) (r_ret a3) ::
            EvChipOpen (r_ret a2) ::
            EvRealpath (reset_gpio config) (r_ret a1) :: calls0).
    split; [all_answered |].
    right. eexists _, _. split; [reflexivity |].
    split; [all_acquired |].
    cbv zeta. cbn [app]. split.
    - intros N. change (r_ret a5 <> 6) in N. apply Z.eqb_neq in N.
      rewrite N. cbn [negb]. steps. reflexivity.
    - intros Y. change (r_ret a5 = 6) in Y. apply Z.eqb_eq in Y.
      rewrite Y. cbn [negb]. step. reflexivity. }
  destruct (mdio_reg_writes config) as [|c0 s0] eqn:W;
    cbn [String.length Nat.eqb negb]; steps.
  - apply (Tail [EvMapUio GBE (gbe_uio config) (r_ret a0)]);
      [all_answered | all_acquired].
  - keep_answer hw. branch; [acquisition_failed Q (@nil event) log |].
    apply (Tail [EvMapUio MDIO (mdio_uio config) (r_ret a1);
                 EvMapUio GBE (gbe_uio config) (r_ret a0)]);
      [all_answered | all_acquired].
Qed.

Lemma eeprom_read_before_dispatch_witness :
  snd (run sample_config (mkArgs "/etc/10ginit.ini" DO_STORE "02:00:00:00:00:01")
         (eeprom_unreadable (board mac_aabbccddeeff 0 0)) []) = Exit 1.
Proof.
  destruct (eeprom_read_before_dispatch sample_config
              (mkArgs "/etc/10ginit.ini" DO_STORE "02:00:00:00:00:01")
              (eeprom_unreadable (board mac_aabbccddeeff 0 0)) [])
    as (calls & A & [(call & older & msg & c & -> & _ & NA & _)
                    | (fd & older & -> & _ & H)]).
  - exfalso. destruct A as [A _].
    destruct call; cbn in A, NA; try contradiction; subst; cbn in NA; lia.
  - cbv zeta in H. destruct H as [H _]. rewrite H; [reflexivity |].
    cbn. lia.
Defined.

Example store_needs_readable_eeprom :
  let hw := override (fun rq => match rq with I2cRead _ _ _ _ => true | _ => false end)
              (mkResp (-1) 0 []) (board mac_aabbccddeeff 0 0) in
  let r := main "10ginit" [OptS "02:00:00:00:00:01"] DO_NOTHING sample_config hw [] in
  exit_status r = Some 1 /\
  hd_error (fst r) = Some (EvPerror "error reading mac eeprom") /\
  forall fd addr off data ret, ~ In (EvI2cWrite fd addr off data ret) (fst r).
Proof.
  cbv zeta.
  split; [vm_compute; reflexivity |].
  split; [vm_compute; reflexivity |].
  intros fd addr off data ret H. no_event H.
Qed.

(** ** Where a failed initialization leaves the reset line *)

Lemma reset_line_app (evs log : list event) :
  Forall not_gpio evs -> reset_line (evs ++ log) = reset_line log.
Proof.
  induction 1 as [|e evs He F IH]; [reflexivity |].
  destruct e; simpl in *; try contradiction; exact IH.
Qed.

Lemma message_not_gpio (evs : list event) :
  Forall message evs -> Forall not_gpio evs.
Proof.
  apply Forall_impl. intros e H. destruct e; simpl in *; try contradiction; exact I.
Qed.

Lemma mdio_event_not_gpio (evs : list event) :
  Forall mdio_event evs -> Forall not_gpio evs.
Proof.
  apply Forall_impl. intros e H.
  destruct e as [ | | | | | | | | | | | [|] | [|] | | | ]; simpl in *;
    try contradiction; exact I.
Qed.

(** A failed GPIO call contradicts [gpio_calls_ok]. *)
Ltac gpio_failed mk :=
  match goal with
  | G : gpio_calls_ok _, E : (r_ret ?a <? 0) = true |- _ =>
      specialize (G (mk (r_ret a)) ltac:(cbn [In]; find_event));
      cbn in G; apply Z.ltb_lt in E; lia
  end.

Ltac asserted_before_release FO H1 :=
  close_branch; intros _ _; right;
  cbn [app reset_line]; rewrite (reset_line_app _ _ FO); exact H1.

Lemma configure_gbe_reset (config : Config) (macbuf : list byte)
    (hw : hardware) (log : list event) :
  reset_line log = Some 1 ->
  exists evs out,
    configure_gbe config macbuf hw log = ((evs ++ log)%list, out) /\
    (out = Exit 1 -> gpio_calls_ok evs ->
     readback_error evs \/ reset_line (evs ++ log) = Some 1).
Proof.
  intros H1.
  unfold configure_gbe, format_mac_or_throw.
  rewrite !format_mac_text. steps.
  unfold bind at 1.
  destruct (validate_mac_address_run (valid_mac_address_prefix config) macbuf true hw
              (EvPrintf stdout "Configuring 10GbE with MAC address %s\n"
                 [AStr (mac_text macbuf)] :: log))
    as [evsV [ok [EV FV]]].
  rewrite EV. clear EV.
  apply message_not_gpio in FV.
  set (hi := pack_octets macbuf 0 4). set (lo := pack_octets macbuf 4 2).
  clearbody hi lo.
  assert (FO : Forall not_gpio
                 (evsV ++ [EvPrintf stdout "Configuring 10GbE with MAC address %s\n"
                             [AStr (mac_text macbuf)]])%list).
  { apply Forall_app. split; [exact FV | repeat constructor]. }
  replace (evsV ++ EvPrintf stdout "Configuring 10GbE with MAC address %s\n"
                     [AStr (mac_text macbuf)] :: log)%list
    with ((evsV ++ [EvPrintf stdout "Configuring 10GbE with MAC address %s\n"
                      [AStr (mac_text macbuf)]]) ++ log)%list
    by (rewrite <- app_assoc; reflexivity).
  set (old := (evsV ++ [EvPrintf stdout "Configuring 10GbE with MAC address %s\n"
                          [AStr (mac_text macbuf)]])%list) in *.
  clearbody old. clear FV evsV.
  destruct ok; cbn [negb]; steps; [| asserted_before_release FO H1].
  name_answer hw. branch; [asserted_before_release FO H1 |].
  name_answer hw. branch; [asserted_before_release FO H1 |].
  name_answer hw. branch; [asserted_before_release FO H1 |].
  name_answer hw. branch.
  { close_branch. intros _ G. exfalso. gpio_failed (EvSetValue 0). }
  name_answer hw. cbv beta iota. branch.
  { close_branch. intros _ _. left. do 5 eexists. split; [reflexivity |]. to_lia. lia. }
  name_answer hw. cbv beta iota. branch.
  { close_branch. intros _ _. left. do 5 eexists. split; [reflexivity |]. to_lia. lia. }
  unfold when at 1.
  destruct (negb (hi =? u32 (r_word a3)) ||
            negb (Z.land lo 65535 =? Z.land (u32 (r_word a4)) 65535)) eqn:Cmp.
  - steps. rewrite format_mac_text. steps.
    name_answer hw. name_answer hw. branch.
    + close_branch. intros _ G. exfalso. gpio_failed (EvSetValue 1).
    + unfold return_. close_branch. intros _ _. right.
      cbn [app reset_line].
      match goal with
      | X : ?c = false |- (if ?c then _ else _) = _ => rewrite X
      end.
      reflexivity.
  - unfold ret. close_branch. discriminate.
Qed.

(** X19: Apart from a failed readback, an initialization whose GPIO calls
    all succeed and which returns 1 leaves the reset line driven to 1. *)
Lemma do_initialize_reset (config : Config) (macbuf : list byte)
    (hw : hardware) (log : list event) :
  exists evs out,
    do_initialize config macbuf hw log = ((evs ++ log)%list, out) /\
    (out = Exit 1 -> gpio_calls_ok evs ->
     readback_error evs \/ reset_line (evs ++ log) = Some 1).
Proof.
  unfold do_initialize. steps.
  name_answer hw. branch.
  { close_branch. intros _ G. exfalso. gpio_failed (EvRequestOutput "10ginit" 1). }
  name_answer hw. branch.
  { close_branch. intros _ G. exfalso. gpio_failed (EvSetValue 1). }
  unfold parse_mdio_writes_or_hang.
  destruct (parse_mdio_writes (mdio_reg_writes config)) as [ops|].
  2:{ unfold bind. close_branch. discriminate. }
  step. unfold bind at 1.
  set (log3 := EvUsleep GBE_RST_SETTLE_US :: EvSetValue 1 (r_ret a0)
               :: EvRequestOutput "10ginit" 1 (r_ret a) :: log).
  assert (R3 : reset_line log3 = Some 1).
  { subst log3. cbn [reset_line]. rewrite E0. reflexivity. }
  destruct (mdio_write_all_emits ops hw log3) as [evsM [EM FM]].
  apply mdio_event_not_gpio in FM.
  destruct (mdio_write_all ops hw log3) as [logM outM].
  simpl in EM. subst logM.
  assert (RM : reset_line (evsM ++ log3) = Some 1)
    by (rewrite reset_line_app by exact FM; exact R3).
  destruct outM as [[] | c | |].
  - destruct (configure_gbe_reset config macbuf hw (evsM ++ log3)%list RM)
      as [evs [out [EC C]]].
    rewrite EC.
    exists (evs ++ evsM ++ [EvUsleep GBE_RST_SETTLE_US; EvSetValue 1 (r_ret a0);
                            EvRequestOutput "10ginit" 1 (r_ret a)])%list, out.
    split.
    { f_equal. subst log3. rewrite <- !app_assoc. reflexivity. }
    intros X G.
    destruct C as [C | C]; [exact X | | |].
    + intros e He. apply G. apply in_or_app. left. exact He.
    + left. destruct C as (msg & o & r & v & older & Ev & Hr).
      exists msg, o, r, v,
        (older ++ evsM ++ [EvUsleep GBE_RST_SETTLE_US; EvSetValue 1 (r_ret a0);
                           EvRequestOutput "10ginit" 1 (r_ret a)])%list.
      subst evs. split; [reflexivity | exact Hr].
    + right. subst log3. rewrite <- !app_assoc. exact C.
  - exists (evsM ++ [EvUsleep GBE_RST_SETTLE_US; EvSetValue 1 (r_ret a0);
                     EvRequestOutput "10ginit" 1 (r_ret a)])%list, (Exit c).
    split; [subst log3; rewrite <- app_assoc; reflexivity |].
    intros _ _. right. subst log3. rewrite <- app_assoc. exact RM.
  - exists (evsM ++ [EvUsleep GBE_RST_SETTLE_US; EvSetValue 1 (r_ret a0);
                     EvRequestOutput "10ginit" 1 (r_ret a)])%list, Throw.
    split; [subst log3; rewrite <- app_assoc; reflexivity | discriminate].
  - exists (evsM ++ [EvUsleep GBE_RST_SETTLE_US; EvSetValue 1 (r_ret a0);
                     EvRequestOutput "10ginit" 1 (r_ret a)])%list, Hang.
    split; [subst log3; rewrite <- app_assoc; reflexivity | discriminate].
Qed.

(** * Further properties *)

(** ** How computations end *)

Lemma ends_ret {A : Type} (R : A -> Prop) (E : Z -> Prop) (a : A) :
  R a -> ends R E (ret a).
Proof. intros H hw log. exact H. Qed.

Lemma ends_return {A : Type} (R : A -> Prop) (E : Z -> Prop) (c : Z) :
  E c -> ends R E (@return_ A c).
Proof. intros H hw log. exact H. Qed.

Lemma ends_emit (E : Z -> Prop) (e : event) : ends any_value E (emit e).
Proof. intros hw log. exact I. Qed.

Lemma ends_call (E : Z -> Prop) (rq : request) (mk : response -> event) :
  ends any_value E (call rq mk).
Proof. intros hw log. exact I. Qed.

Lemma ends_bind {A B : Type} (R1 : A -> Prop) (R : B -> Prop) (E : Z -> Prop)
    (m : M A) (k : A -> M B) :
  ends R1 E m -> (forall a, R1 a -> ends R E (k a)) -> ends R E (bind m k).
Proof.
  intros Hm Hk hw log. unfold bind. specialize (Hm hw log).
  destruct (m hw log) as [l [a | c | |]]; simpl in *; try assumption.
  apply Hk. exact Hm.
Qed.

Lemma ends_weaken {A : Type} (R R' : A -> Prop) (E E' : Z -> Prop) (m : M A) :
  (forall a, R a -> R' a) -> (forall c, E c -> E' c) ->
  ends R E m -> ends R' E' m.
Proof.
  intros HR HE H hw log. specialize (H hw log).
  destruct (snd (m hw log)); auto.
Qed.

Lemma ends_when (E : Z -> Prop) (c : bool) (m : M unit) :
  ends any_value E m -> ends any_value E (when c m).
Proof. intros H. destruct c; [exact H | apply ends_ret; exact I]. Qed.

Lemma ends_fn (R E : Z -> Prop) (m : M Z) :
  ends R E m -> ends (fun c => R c \/ E c) no_code (fn m).
Proof.
  intros H hw log. unfold fn. specialize (H hw log).
  destruct (m hw log) as [l [a | c | |]]; simpl in *; auto.
Qed.

(** An effect or call followed by a continuation. *)
Lemma ends_then {A B : Type} (R : B -> Prop) (E : Z -> Prop)
    (m : M A) (k : A -> M B) :
  ends any_value E m -> (forall a, ends R E (k a)) -> ends R E (bind m k).
Proof. intros Hm Hk. apply (ends_bind any_value); [exact Hm | intros a _; apply Hk]. Qed.

Ltac ends_with known :=
  repeat first
    [ known
    | apply ends_emit | apply ends_call
    | apply ends_return; (reflexivity || (left; reflexivity) || (right; reflexivity))
    | apply ends_ret; (exact I || reflexivity || (left; reflexivity) || (right; reflexivity))
    | apply ends_when
    | apply ends_then; [| intros ] ].

Lemma mdio_poll_ends (n : nat) (i : Z) :
  ends any_value (code_is (-1)) (mdio_poll n i).
Proof.
  revert i. induction n as [|n IH]; intros i; cbn [mdio_poll].
  - apply ends_ret. exact I.
  - unfold easymem_saferead32, usleep.
    apply ends_then; [ends_with fail |]. intros [r regval].
    apply ends_then; [ends_with fail |]. intros _.
    destruct (Z.land regval MDIO_CTRL_REQ_BUSY_BIT =? 0); [apply ends_ret; exact I |].
    apply ends_then; [ends_with fail |]. intros _. apply IH.
Qed.

Lemma mdio_wait_ends : ends any_value (code_is (-1)) mdio_wait_not_busy.
Proof.
  unfold mdio_wait_not_busy.
  apply ends_then; [apply mdio_poll_ends | intros; ends_with fail].
Qed.

Lemma mdio_phy_addr_ends (p d r : Z) :
  ends zero_or_minus_one no_code (mdio_phy_addr p d r).
Proof.
  unfold mdio_phy_addr.
  apply (ends_weaken (fun c => code_is 0 c \/ code_is (-1) c) _ no_code no_code);
    [intros a [H | H]; [left | right]; exact H | auto |].
  apply ends_fn. unfold easymem_safewrite32, usleep.
  ends_with ltac:(idtac; match goal with
                  | |- ends _ _ mdio_wait_not_busy => apply mdio_wait_ends
                  end).
Qed.

Lemma mdio_phy_write_ends (p d r v : Z) :
  ends zero_or_minus_one no_code (mdio_phy_write p d r v).
Proof.
  unfold mdio_phy_write.
  apply (ends_weaken (fun c => code_is 0 c \/ code_is (-1) c) _ no_code no_code);
    [intros a [H | H]; [left | right]; exact H | auto |].
  apply ends_fn. unfold easymem_safewrite32.
  apply (ends_bind zero_or_minus_one);
    [apply (ends_weaken zero_or_minus_one _ no_code _ _ (fun a H => H));
     [intros c []| apply mdio_phy_addr_ends] |].
  intros r0 _.
  ends_with ltac:(idtac; match goal with
                  | |- ends _ _ mdio_wait_not_busy => apply mdio_wait_ends
                  end).
Qed.

Ltac ends_auto known :=
  repeat first
    [ known
    | apply ends_emit | apply ends_call
    | apply ends_return; (reflexivity || (left; reflexivity) || (right; reflexivity))
    | apply ends_ret; (exact I || reflexivity || (left; reflexivity) || (right; reflexivity))
    | apply ends_when
    | match goal with
      | |- ends _ _ (let '(_, _) := ?p in _) => destruct p
      | |- ends _ _ (if ?c then _ else _) => destruct c
      | |- ends _ _ (match ?o with Some _ => _ | None => _ end) => destruct o
      end
    | apply ends_then; [| intros ] ].

Lemma format_mac_or_throw_ends (E : Z -> Prop) (macbuf : list byte) :
  ends any_value E (format_mac_or_throw macbuf).
Proof.
  unfold format_mac_or_throw. rewrite format_mac_text. apply ends_ret. exact I.
Qed.

Lemma validate_mac_address_ends (E : Z -> Prop) (pre : string)
    (macbuf : list byte) (warn : bool) :
  ends any_value E (validate_mac_address pre macbuf warn).
Proof.
  unfold validate_mac_address, fprintf.
  ends_auto ltac:(idtac; match goal with
                  | |- ends _ _ (format_mac_or_throw _) => apply format_mac_or_throw_ends
                  end).
Qed.

(** The two calls of [main]'s branches that do no I/O of their own kind. *)
Ltac pure_calls :=
  match goal with
  | |- ends _ _ (format_mac_or_throw _) => apply format_mac_or_throw_ends
  | |- ends _ _ (validate_mac_address _ _ _) => apply validate_mac_address_ends
  end.

Lemma mdio_write_all_ends (ops : list MDIO_Operation) :
  ends any_value (code_is 1) (mdio_write_all ops).
Proof.
  induction ops as [|op ops IH]; cbn [mdio_write_all].
  - apply ends_ret. exact I.
  - unfold fprintf.
    apply ends_then; [ends_auto fail |]. intros _.
    apply ends_then.
    { apply (ends_weaken zero_or_minus_one _ no_code _ _ (fun a _ => I));
        [intros c [] | apply mdio_phy_write_ends]. }
    intros r. apply ends_then; [ends_auto fail |]. intros _. exact IH.
Qed.

Lemma parse_mdio_writes_or_hang_ends (E : Z -> Prop) (s : string) :
  ends any_value E (parse_mdio_writes_or_hang s).
Proof.
  unfold parse_mdio_writes_or_hang.
  destruct (parse_mdio_writes_total s) as [ops ->]. apply ends_ret. exact I.
Qed.

Lemma do_query_ends (config : Config) (macbuf : list byte) :
  ends any_value (code_is 1) (do_query config macbuf).
Proof.
  unfold do_query, fprintf.
  ends_auto ltac:(idtac; pure_calls).
Qed.

Lemma do_store_ends (config : Config) (fd : Z) (text : string) :
  ends any_value (code_is 1) (do_store config fd text).
Proof.
  unfold do_store, fprintf, perror, sleep, i2c_read, i2c_write.
  ends_auto ltac:(idtac; pure_calls).
Qed.

Lemma configure_gbe_ends (config : Config) (macbuf : list byte) :
  ends any_value (code_is 1) (configure_gbe config macbuf).
Proof.
  unfold configure_gbe, fprintf, perror, usleep, easymem_safewrite32,
    easymem_saferead32, gpiod_line_set_value, UNSAFE_REG32.
  ends_auto ltac:(idtac; pure_calls).
Qed.

Lemma do_initialize_ends (config : Config) (macbuf : list byte) :
  ends any_value (code_is 1) (do_initialize config macbuf).
Proof.
  unfold do_initialize, perror, usleep, gpiod_line_request_output,
    gpiod_line_set_value.
  ends_auto ltac:(idtac; match goal with
                  | |- ends _ _ (parse_mdio_writes_or_hang _) =>
                      apply parse_mdio_writes_or_hang_ends
                  | |- ends _ _ (mdio_write_all _) => apply mdio_write_all_ends
                  | |- ends _ _ (configure_gbe _ _) => apply configure_gbe_ends
                  end).
Qed.

Lemma run_ends (config : Config) (a : Args) :
  ends zero_or_one zero_or_one (run config a).
Proof.
  unfold run, perror, easymem_map_uio, realpath, gpiod_chip_open,
    gpiod_chip_get_line, open, i2c_read.
  ends_auto fail.
  destruct (action a).
  - apply ends_ret; exact I.
  - apply (ends_weaken any_value _ (code_is 1)); [auto | intros c ->; right; reflexivity |].
    apply do_query_ends.
  - apply (ends_weaken any_value _ (code_is 1)); [auto | intros c ->; right; reflexivity |].
    apply do_store_ends.
  - apply (ends_weaken any_value _ (code_is 1)); [auto | intros c ->; right; reflexivity |].
    apply do_initialize_ends.
Qed.

Lemma getopt_loop_ends (argv0 : string) (opts : list cli_option) (a : Args) :
  ends any_value zero_or_one (getopt_loop argv0 opts a).
Proof.
  revert a. induction opts as [|o opts IH]; intros a; cbn [getopt_loop].
  - apply ends_ret. exact I.
  - destruct o; unfold fprintf;
      ends_auto ltac:(idtac; match goal with
                      | |- ends _ _ (getopt_loop _ _ _) => apply IH
                      end).
Qed.

(** X1: Every run of [main] ends by returning 0 or 1: no exception escapes
    (the length check of [format_mac] never fires) and no loop runs on. *)
Theorem main_returns_zero_or_one (argv0 : string) (opts : list cli_option)
    (action0 : Action) (config : Config) (hw : hardware) (log : list event) :
  exit_status (main argv0 opts action0 config hw log) = Some 0 \/
  exit_status (main argv0 opts action0 config hw log) = Some 1.
Proof.
  assert (H : ends zero_or_one zero_or_one (main argv0 opts action0 config)).
  { unfold main, fprintf.
    ends_auto ltac:(idtac; match goal with
                    | |- ends _ _ (getopt_loop _ _ _) => apply getopt_loop_ends
                    | |- ends _ _ (run _ _) => apply run_ends
                    end). }
  specialize (H hw log). unfold exit_status.
  destruct (snd (main argv0 opts action0 config hw log)) as [c | c | |];
    try contradiction; destruct H as [-> | ->]; auto.
Qed.

(** ** The shape of an MDIO transaction *)

Lemma polls_app (a b : list event) : polls (a ++ b) = (polls a + polls b)%nat.
Proof. unfold polls. rewrite filter_app, List.length_app. reflexivity. Qed.

Lemma sleeps_app (a b : list event) : sleeps (a ++ b) = (sleeps a + sleeps b)%nat.
Proof. unfold sleeps. rewrite filter_app, List.length_app. reflexivity. Qed.

Lemma mdio_writes_app (a b : list event) :
  mdio_writes (a ++ b) = (mdio_writes b ++ mdio_writes a)%list.
Proof.
  induction a as [|e a IH]; simpl.
  - rewrite app_nil_r. reflexivity.
  - destruct e as [ | | | | | | | | | | | [|] | | | | ]; try exact IH.
    rewrite IH, app_assoc. reflexivity.
Qed.

Lemma tl_app_ok (a b : list event) :
  Forall access_ok (tl a) -> Forall access_ok b ->
  Forall access_ok (tl (a ++ b)).
Proof.
  intros Ha Hb. destruct a as [|e a]; simpl in *.
  - destruct b; simpl; [constructor | inversion Hb; assumption].
  - apply Forall_app. split; assumption.
Qed.

Lemma idle_poll_ok (e : event) : idle_poll e -> access_ok e.
Proof.
  destruct e as [ | | | | | | | | | | | | [|] | | | ]; simpl; try contradiction.
  intros (_ & H & _). exact H.
Qed.

Ltac shape_side :=
  first [ reflexivity
        | assumption
        | solve [repeat constructor; try assumption]
        | solve [cbn; lia] ].

(** The poll loop: every access but the newest succeeded; it ends early
    exactly on an idle poll. *)
Lemma mdio_poll_shape (n : nat) :
  forall (i : Z) (hw : hardware) (log : list event),
  exists evs out,
    mdio_poll n i hw log = ((evs ++ log)%list, out) /\
    Forall mdio_event evs /\
    (polls evs <= n)%nat /\ (sleeps evs <= n)%nat /\
    Forall access_ok (tl evs) /\
    mdio_writes evs = [] /\
    match out with
    | Ret j =>
        i <= j <= i + Z.of_nat n /\
        Forall access_ok evs /\
        (j <> i + Z.of_nat n -> exists e older, evs = e :: older /\ idle_poll e)
    | Exit c => c = -1
    | Throw => False
    | Hang => False
    end.
Proof.
  induction n as [|n IH]; intros i hw log.
  - exists [], (Ret i). cbn [mdio_poll]. unfold ret.
    repeat split; try shape_side.
  - cbn [mdio_poll]. steps.
    set (a := hw (List.length log) (Read32 MDIO MDIO_CTRL_REG_OFFSET)).
    clearbody a.
    destruct (r_ret a <? 0) eqn:E; steps.
    { exists [EvRead32 MDIO MDIO_CTRL_REG_OFFSET (r_ret a) (u32 (r_word a))], (Exit (-1)).
      repeat split; shape_side. }
    apply Z.ltb_ge in E.
    destruct (Z.land (u32 (r_word a)) MDIO_CTRL_REQ_BUSY_BIT =? 0) eqn:B.
    { apply Z.eqb_eq in B.
      exists [EvRead32 MDIO MDIO_CTRL_REG_OFFSET (r_ret a) (u32 (r_word a))], (Ret i).
      unfold ret.
      repeat split; try shape_side.
      intros _. do 2 eexists. split; [reflexivity |]. cbn. auto. }
    steps.
    destruct (IH (i + 1) hw
                (EvUsleep MDIO_STATUS_POLL_DELAY ::
                 EvRead32 MDIO MDIO_CTRL_REG_OFFSET (r_ret a) (u32 (r_word a)) :: log))
      as (evs & out & Ev & Fm & Pp & Ps & Ft & Wr & O).
    rewrite Ev.
    set (two := [EvUsleep MDIO_STATUS_POLL_DELAY;
                 EvRead32 MDIO MDIO_CTRL_REG_OFFSET (r_ret a) (u32 (r_word a))]).
    assert (Two : Forall access_ok two) by (repeat constructor; assumption).
    exists (evs ++ two)%list, out.
    split; [rewrite <- app_assoc; reflexivity |].
    split; [apply Forall_app; split; [exact Fm | repeat constructor] |].
    split; [rewrite polls_app; cbn; lia |].
    split; [rewrite sleeps_app; cbn; lia |].
    split; [apply tl_app_ok; assumption |].
    split; [rewrite mdio_writes_app, Wr; reflexivity |].
    destruct out as [j | c | |]; try exact O.
    destruct O as (Hj & Fa & Hd).
    split; [lia |].
    split; [apply Forall_app; split; assumption |].
    intros N. destruct Hd as (e & older & -> & Hi); [lia |].
    exists e, (older ++ two)%list. split; [reflexivity | exact Hi].
Qed.

(** The wait for BUSY to clear: at most 100 polls and 100 sleeps. *)
Lemma mdio_wait_shape (hw : hardware) (log : list event) :
  exists evs out,
    mdio_wait_not_busy hw log = ((evs ++ log)%list, out) /\
    Forall mdio_event evs /\
    (polls evs <= 100)%nat /\ (sleeps evs <= 100)%nat /\
    Forall access_ok (tl evs) /\
    mdio_writes evs = [] /\
    match out with
    | Ret _ => exists e older, evs = e :: older /\ idle_poll e
    | Exit c => c = -1
    | Throw => False
    | Hang => False
    end.
Proof.
  unfold mdio_wait_not_busy. unfold bind at 1.
  destruct (mdio_poll_shape (Z.to_nat MDIO_STATUS_POLL_LIMIT) 0 hw log)
    as (evs & out & Ev & Fm & Pp & Ps & Ft & Wr & O).
  rewrite Ev. exists evs.
  destruct out as [j | c | |]; try contradiction.
  - destruct O as (Hj & Fa & Hd).
    destruct (j =? MDIO_STATUS_POLL_LIMIT) eqn:J.
    + exists (Exit (-1)). repeat split; assumption.
    + exists (Ret tt). apply Z.eqb_neq in J.
      repeat split; try assumption. apply Hd. exact J.
  - exists (Exit c). repeat split; assumption.
Qed.

Lemma bind_unfold {A B : Type} (m : M A) (k : A -> M B) (hw : hardware)
    (log : list event) :
  bind m k hw log =
  match m hw log with
  | (log', Ret a) => k a hw log'
  | (log', Exit c) => (log', Exit c)
  | (log', Throw) => (log', Throw)
  | (log', Hang) => (log', Hang)
  end.
Proof. reflexivity. Qed.

Ltac prefix_of k :=
  first [ exists 0%nat; reflexivity | exists 1%nat; reflexivity
        | exists 2%nat; reflexivity | exists 3%nat; reflexivity
        | exists 4%nat; reflexivity | exists 5%nat; reflexivity
        | exists 6%nat; reflexivity ].

(** A branch that ends after explicit events. *)
Ltac mdio_failed :=
  do 2 eexists; split; [apply prefix_result; prefix |];
  split; [right; reflexivity |];
  split; [| intros X; discriminate X];
  unfold mdio_steps; repeat apply conj;
  [ repeat constructor | cbn; lia | cbn; lia
  | repeat (constructor; [cbn; repeat match goal with
                                      | H : (_ <? _) = false |- _ => apply Z.ltb_ge in H
                                      end; try lia; exact I |]); constructor
  | prefix_of 0 ].

(** A wait for BUSY that follows the events [mid], all of which are fine. *)
Lemma wait_after (n sl : nat) (W : list (Z * Z)) (evs mid : list event) :
  Forall mdio_event evs -> (polls evs <= 100)%nat -> (sleeps evs <= 100)%nat ->
  Forall access_ok (tl evs) -> mdio_writes evs = [] ->
  Forall mdio_event mid -> Forall access_ok mid ->
  (polls mid <= n)%nat -> (sleeps mid <= sl)%nat -> mdio_writes mid = W ->
  mdio_steps (100 + n) (100 + sl) W (evs ++ mid) /\
  ((exists e older, evs = e :: older /\ idle_poll e) -> mdio_done W (evs ++ mid)).
Proof.
  intros Fm Pp Ps Ft Wr Fm' Fa' Pp' Ps' Wr'.
  assert (Ww : mdio_writes (evs ++ mid) = W)
    by (rewrite mdio_writes_app, Wr, Wr', app_nil_r; reflexivity).
  split.
  - unfold mdio_steps. repeat apply conj.
    + apply Forall_app. split; assumption.
    + rewrite polls_app. lia.
    + rewrite sleeps_app. lia.
    + apply tl_app_ok; assumption.
    + exists (List.length W). rewrite Ww, firstn_all. reflexivity.
  - intros (e & older & -> & Hi). split; [exact Ww |].
    exists e, (older ++ mid)%list. split; [reflexivity | exact Hi].
Qed.

Ltac writes_fine :=
  repeat (constructor;
          [cbn; repeat match goal with
                       | H : (_ <? _) = false |- _ => apply Z.ltb_ge in H
                       end; try lia; exact I |]);
  try constructor.

Lemma mdio_phy_addr_shape (p d r : Z) (hw : hardware) (log : list event) :
  exists evs st,
    mdio_phy_addr p d r hw log = ((evs ++ log)%list, Ret st) /\
    (st = 0 \/ st = -1) /\
    mdio_steps 100 103 (addr_writes p d r) evs /\
    (st = 0 -> mdio_done (addr_writes p d r) evs).
Proof.
  unfold mdio_phy_addr, fn. steps.
  name_answer hw. branch; [mdio_failed |].
  name_answer hw. branch; [mdio_failed |].
  name_answer hw. branch; [mdio_failed |].
  rewrite bind_unfold.
  match goal with
  | |- context [mdio_wait_not_busy hw (?e1 :: ?e2 :: ?e3 :: ?e4 :: ?e5 :: ?e6 :: log)] =>
      set (mid := [e1; e2; e3; e4; e5; e6]);
      change (e1 :: e2 :: e3 :: e4 :: e5 :: e6 :: log) with (mid ++ log)%list;
      destruct (mdio_wait_shape hw (mid ++ log)%list)
        as (evs & out & Ev & Fm & Pp & Ps & Ft & Wr & O);
      rewrite Ev
  end.
  destruct (wait_after 0 3 (addr_writes p d r) evs mid Fm Pp Ps Ft Wr)
    as [St Dn]; try (subst mid; cbn; lia);
    [subst mid; repeat constructor | subst mid; writes_fine | reflexivity |].
  exists (evs ++ mid)%list. rewrite <- app_assoc.
  destruct out as [[] | c | |]; try contradiction.
  - exists 0. unfold ret. split; [reflexivity |].
    split; [left; reflexivity |]. split; [exact St |]. intros _. apply Dn. exact O.
  - subst c. exists (-1). split; [reflexivity |].
    split; [right; reflexivity |]. split; [exact St |]. discriminate.
Qed.

Lemma firstn_prefix {A : Type} (k : nat) (a b : list A) :
  exists k', firstn k a = firstn k' (a ++ b).
Proof.
  exists (Nat.min k (List.length a)).
  rewrite firstn_app.
  replace (Nat.min k (List.length a) - List.length a)%nat with 0%nat by lia.
  cbn [firstn]. rewrite app_nil_r.
  destruct (Nat.le_ge_cases k (List.length a)) as [H | H].
  - rewrite Nat.min_l by exact H. reflexivity.
  - rewrite Nat.min_r by exact H. rewrite !firstn_all2; [reflexivity | lia | exact H].
Qed.

Lemma mdio_done_ok (W : list (Z * Z)) (evs : list event) :
  Forall access_ok (tl evs) -> mdio_done W evs -> Forall access_ok evs.
Proof.
  intros Ft (_ & e & older & -> & Hi). constructor; [apply idle_poll_ok; exact Hi | exact Ft].
Qed.

(** A data-phase branch that ends after [mid], which stands on top of a
    completed address phase. *)
Ltac data_failed k :=
  do 2 eexists; split; [apply prefix_result; prefix |];
  split; [right; reflexivity |];
  split; [| intros X; discriminate X];
  unfold mdio_steps, polls, sleeps in *; repeat apply conj;
  [ repeat (constructor; [exact I |]); assumption
  | cbn; lia | cbn; lia
  | cbn [tl]; writes_fine; assumption
  | exists k; cbn [mdio_writes];
    match goal with W : mdio_writes _ = _ |- _ => rewrite W end; reflexivity ].

Lemma mdio_phy_write_shape (p d r v : Z) (hw : hardware) (log : list event) :
  exists evs st,
    mdio_phy_write p d r v hw log = ((evs ++ log)%list, Ret st) /\
    (st = 0 \/ st = -1) /\
    mdio_steps 200 203 (write_writes p d r v) evs /\
    (st = 0 -> mdio_done (write_writes p d r v) evs).
Proof.
  unfold mdio_phy_write, fn. rewrite bind_unfold.
  destruct (mdio_phy_addr_shape p d r hw log) as (evs1 & st1 & E1 & S01 & St1 & Dn1).
  rewrite E1. clear E1.
  destruct St1 as (Fm1 & Pp1 & Ps1 & Ft1 & k1 & Wr1).
  destruct S01 as [-> | ->].
  2:{ change (-1 <? 0) with true. steps.
      exists evs1, (-1). split; [reflexivity |]. split; [right; reflexivity |].
      split; [| discriminate].
      unfold mdio_steps. repeat apply conj; try assumption; try lia.
      rewrite Wr1. unfold write_writes.
      destruct (firstn_prefix k1 (addr_writes p d r)
                  [(MDIO_ADDRESS1_OFFSET, MDIO_ADDR1 MDIO_OP_WR p d);
                   (MDIO_WRITE_BUF_OFFSET, v);
                   (MDIO_CTRL_REG_OFFSET, Z.lor MDIO_CTRL_ENA_BIT MDIO_CTRL_REQ_BUSY_BIT)])
        as [k' Hk].
      exists k'. exact Hk. }
  specialize (Dn1 eq_refl).
  pose proof (mdio_done_ok _ _ Ft1 Dn1) as Ok1.
  destruct Dn1 as (W1 & _). clear Wr1 k1.
  change (0 <? 0) with false. steps.
  name_answer hw. branch; [data_failed 4%nat |].
  name_answer hw. branch; [data_failed 5%nat |].
  name_answer hw. branch; [data_failed 6%nat |].
  rewrite bind_unfold.
  match goal with
  | |- context [mdio_wait_not_busy hw (?e1 :: ?e2 :: ?e3 :: (evs1 ++ log)%list)] =>
      set (mid := (e1 :: e2 :: e3 :: evs1));
      change (e1 :: e2 :: e3 :: (evs1 ++ log)%list) with (mid ++ log)%list;
      destruct (mdio_wait_shape hw (mid ++ log)%list)
        as (evs & out & Ev & Fm & Pp & Ps & Ft & Wr & O);
      rewrite Ev
  end.
  destruct (wait_after 100 103 (write_writes p d r v) evs mid Fm Pp Ps Ft Wr)
    as [St Dn].
  { subst mid. repeat (constructor; [exact I |]). exact Fm1. }
  { subst mid. writes_fine. exact Ok1. }
  { subst mid. unfold polls in *. cbn. lia. }
  { subst mid. unfold sleeps in *. cbn. lia. }
  { subst mid. cbn [mdio_writes]. rewrite W1. reflexivity. }
  exists (evs ++ mid)%list. rewrite <- app_assoc.
  destruct out as [[] | c | |]; try contradiction.
  - exists 0. unfold ret. split; [reflexivity |].
    split; [left; reflexivity |]. split; [exact St |]. intros _. apply Dn. exact O.
  - subst c. exists (-1). split; [reflexivity |].
    split; [right; reflexivity |]. split; [exact St |]. discriminate.
Qed.

(** X2: Whatever the hardware answers, [mdio_phy_write] returns 0 or -1, adds
    only MDIO register accesses, sleeps and messages to the log, and reads
    the control register at most 200 times and sleeps at most 203 times. *)
Theorem mdio_phy_write_bounded (p d r v : Z) (hw : hardware) (log : list event) :
  exists evs st,
    mdio_phy_write p d r v hw log = ((evs ++ log)%list, Ret st) /\
    (st = 0 \/ st = -1) /\
    Forall mdio_event evs /\
    (polls evs <= 200)%nat /\ (sleeps evs <= 203)%nat.
Proof.
  destruct (mdio_phy_write_shape p d r v hw log)
    as (evs & st & E & S & (Fm & Pp & Ps & _) & _).
  exists evs, st. auto.
Qed.

(** X3: [mdio_phy_write] gives up at the first register access that fails:
    every access before the newest one succeeded, a failed access makes the
    result -1, and the register writes made so far are an initial part of
    the six writes of a write transaction, in their order. *)
Theorem mdio_phy_write_stops_at_failure (p d r v : Z) (hw : hardware)
    (log : list event) :
  exists evs st,
    mdio_phy_write p d r v hw log = ((evs ++ log)%list, Ret st) /\
    Forall access_ok (tl evs) /\
    (~ Forall access_ok evs -> st = -1) /\
    exists k, mdio_writes evs = firstn k (write_writes p d r v).
Proof.
  destruct (mdio_phy_write_shape p d r v hw log)
    as (evs & st & E & S & (Fm & Pp & Ps & Ft & K) & Dn).
  exists evs, st. repeat split; try assumption.
  intros N. destruct S as [-> | ->]; [| reflexivity].
  exfalso. apply N. apply (mdio_done_ok _ _ Ft (Dn eq_refl)).
Qed.

(** X4: When [mdio_phy_write] returns 0 it has made exactly the six register
    writes of the protocol, in order (address word, register address,
    start; write word, payload, start), every access succeeded, and the
    newest event is a read of the control register with BUSY clear. *)
Theorem mdio_phy_write_success (p d r v : Z) (hw : hardware) (log : list event)
    (log' : list event) :
  mdio_phy_write p d r v hw log = (log', Ret 0) ->
  exists e older,
    log' = (e :: older ++ log)%list /\
    idle_poll e /\
    Forall access_ok (e :: older) /\
    mdio_writes (e :: older) =
      [(MDIO_ADDRESS1_OFFSET, MDIO_ADDR1 MDIO_OP_ADDR p d);
       (MDIO_ADDRESS2_OFFSET, r);
       (MDIO_CTRL_REG_OFFSET, 9);
       (MDIO_ADDRESS1_OFFSET, MDIO_ADDR1 MDIO_OP_WR p d);
       (MDIO_WRITE_BUF_OFFSET, v);
       (MDIO_CTRL_REG_OFFSET, 9)].
Proof.
  intros H.
  destruct (mdio_phy_write_shape p d r v hw log)
    as (evs & st & E & S & (Fm & Pp & Ps & Ft & K) & Dn).
  rewrite E in H. injection H as <- ->.
  specialize (Dn eq_refl).
  pose proof (mdio_done_ok _ _ Ft Dn) as Ok.
  destruct Dn as (W & e & older & -> & Hi).
  exists e, older. repeat split; assumption.
Qed.

Lemma mdio_phy_write_success_witness :
  exists e older,
    fst (mdio_phy_write 0 1 0x8000 0x4000 (board [] 0 0) []) = (e :: older ++ [])%list /\
    idle_poll e /\
    Forall access_ok (e :: older) /\
    mdio_writes (e :: older) =
      [(0x00, 1); (0x04, 0x8000); (0x10, 9); (0x00, 1025); (0x08, 0x4000); (0x10, 9)].
Proof.
  apply (mdio_phy_write_success 0 1 0x8000 0x4000 (board [] 0 0) []).
  vm_compute. reflexivity.
Defined.

Lemma mdio_phy_read_shape (p d r buf : Z) (hw : hardware) (log : list event) :
  exists evs st word,
    mdio_phy_read p d r buf hw log = ((evs ++ log)%list, Ret (st, word)) /\
    (st = 0 \/ st = -1) /\
    Forall mdio_event evs /\
    (polls evs <= 200)%nat /\ (sleeps evs <= 203)%nat /\
    Forall access_ok (tl evs) /\
    (st = 0 ->
     exists rr e older,
       evs = EvRead32 MDIO MDIO_READ_BUF_OFFSET rr word :: e :: older /\
       0 <= rr /\ idle_poll e /\ Forall access_ok (e :: older) /\
       mdio_writes (e :: older) = read_writes p d r).
Proof.
  unfold mdio_phy_read. rewrite bind_unfold.
  destruct (mdio_phy_addr_shape p d r hw log) as (evs1 & st1 & E1 & S01 & St1 & Dn1).
  rewrite E1. clear E1.
  destruct St1 as (Fm1 & Pp1 & Ps1 & Ft1 & k1 & Wr1).
  destruct S01 as [-> | ->].
  2:{ change (-1 <? 0) with true. steps.
      exists evs1, (-1), buf. split; [reflexivity |]. split; [right; reflexivity |].
      repeat split; first [assumption | lia | discriminate]. }
  specialize (Dn1 eq_refl).
  pose proof (mdio_done_ok _ _ Ft1 Dn1) as Ok1.
  destruct Dn1 as (W1 & _). clear Wr1 k1.
  change (0 <? 0) with false. steps.
  name_answer hw. branch.
  { do 3 eexists. split; [apply prefix_result; prefix |].
    split; [right; reflexivity |].
    unfold polls, sleeps in *.
    repeat split; try (cbn; lia); try discriminate;
      [repeat (constructor; [exact I |]); assumption | cbn [tl]; assumption]. }
  name_answer hw. branch.
  { do 3 eexists. split; [apply prefix_result; prefix |].
    split; [right; reflexivity |].
    unfold polls, sleeps in *.
    repeat split; try (cbn; lia); try discriminate;
      [repeat (constructor; [exact I |]); assumption
      | cbn [tl]; writes_fine; assumption]. }
  rewrite bind_unfold.
  match goal with
  | |- context [mdio_wait_not_busy hw (?e1 :: ?e2 :: (evs1 ++ log)%list)] =>
      set (mid := (e1 :: e2 :: evs1));
      change (e1 :: e2 :: (evs1 ++ log)%list) with (mid ++ log)%list;
      destruct (mdio_wait_shape hw (mid ++ log)%list)
        as (evs & out & Ev & Fm & Pp & Ps & Ft & Wr & O);
      rewrite Ev
  end.
  destruct (wait_after 100 103 (read_writes p d r) evs mid Fm Pp Ps Ft Wr)
    as [(Fm2 & Pp2 & Ps2 & Ft2 & _) Dn].
  { subst mid. repeat (constructor; [exact I |]). exact Fm1. }
  { subst mid. writes_fine. exact Ok1. }
  { subst mid. unfold polls in *. cbn. lia. }
  { subst mid. unfold sleeps in *. cbn. lia. }
  { subst mid. cbn [mdio_writes]. rewrite W1. reflexivity. }
  destruct out as [[] | c | |]; try contradiction.
  2:{ subst c. exists (evs ++ mid)%list, (-1), buf. rewrite <- app_assoc.
      split; [reflexivity |]. split; [right; reflexivity |].
      repeat split; first [assumption | discriminate | lia]. }
  specialize (Dn O). pose proof (mdio_done_ok _ _ Ft2 Dn) as Ok2.
  destruct Dn as (W2 & e & older & Eq & Hi).
  rewrite app_assoc. steps. name_answer hw. cbn [fst snd]. branch.
  - unfold ret.
    exists (EvRead32 MDIO MDIO_READ_BUF_OFFSET (r_ret a1) (u32 (r_word a1)) :: evs ++ mid)%list,
      (-1), buf.
    split; [reflexivity |]. split; [right; reflexivity |].
    unfold polls, sleeps in *.
    repeat split; try (cbn; lia); try discriminate;
      [constructor; [exact I | exact Fm2] | cbn [tl]; exact Ok2].
  - unfold ret.
    exists (EvRead32 MDIO MDIO_READ_BUF_OFFSET (r_ret a1) (u32 (r_word a1)) :: evs ++ mid)%list,
      0, (u32 (r_word a1)).
    split; [reflexivity |]. split; [left; reflexivity |].
    unfold polls, sleeps in *.
    repeat split; try (cbn; lia);
      [constructor; [exact I | exact Fm2] | cbn [tl]; exact Ok2 |].
    intros _. exists (r_ret a1), e, older. rewrite Eq in *.
    apply Z.ltb_ge in E1.
    repeat split; assumption.
Qed.

(** X5: Whatever the hardware answers, [mdio_phy_read] returns status 0 or -1,
    adds only MDIO register accesses, sleeps and messages to the log, reads
    the control register at most 200 times, sleeps at most 203 times, and
    makes no access after one that failed. *)
Theorem mdio_phy_read_bounded (p d r buf : Z) (hw : hardware) (log : list event) :
  exists evs st word,
    mdio_phy_read p d r buf hw log = ((evs ++ log)%list, Ret (st, word)) /\
    (st = 0 \/ st = -1) /\
    Forall mdio_event evs /\
    (polls evs <= 200)%nat /\ (sleeps evs <= 203)%nat /\
    Forall access_ok (tl evs).
Proof.
  destruct (mdio_phy_read_shape p d r buf hw log)
    as (evs & st & word & E & S & Fm & Pp & Ps & Ft & _).
  exists evs, st, word. auto 10.
Qed.

(** X6: When [mdio_phy_read] returns status 0, the word it hands back is the
    one its last event, a successful read of the read buffer, produced; that
    read follows a poll that showed BUSY clear, and before it the five
    register writes of a read transaction were made in order, all accesses
    succeeding. *)
Theorem mdio_phy_read_success (p d r buf word : Z) (hw : hardware)
    (log log' : list event) :
  mdio_phy_read p d r buf hw log = (log', Ret (0, word)) ->
  exists rr e older,
    log' = (EvRead32 MDIO MDIO_READ_BUF_OFFSET rr word :: e :: older ++ log)%list /\
    0 <= rr /\ idle_poll e /\ Forall access_ok (e :: older) /\
    mdio_writes (e :: older) =
      [(MDIO_ADDRESS1_OFFSET, MDIO_ADDR1 MDIO_OP_ADDR p d);
       (MDIO_ADDRESS2_OFFSET, r);
       (MDIO_CTRL_REG_OFFSET, 9);
       (MDIO_ADDRESS1_OFFSET, MDIO_ADDR1 MDIO_OP_RD p d);
       (MDIO_CTRL_REG_OFFSET, 9)].
Proof.
  intros H.
  destruct (mdio_phy_read_shape p d r buf hw log)
    as (evs & st & w & E & S & Fm & Pp & Ps & Ft & Dn).
  rewrite E in H. injection H as <- -> ->.
  destruct (Dn eq_refl) as (rr & e & older & -> & Hr & Hi & Ok & W).
  exists rr, e, older. repeat split; assumption.
Qed.

Lemma mdio_phy_read_success_witness :
  exists rr e older,
    fst (mdio_phy_read 0 1 0x8000 0xffffffff (read_buf_holds 0x2040) []) =
      (EvRead32 MDIO MDIO_READ_BUF_OFFSET rr 0x2040 :: e :: older ++ [])%list /\
    0 <= rr /\ idle_poll e /\ Forall access_ok (e :: older) /\
    mdio_writes (e :: older) =
      [(0x00, 1); (0x04, 0x8000); (0x10, 9); (0x00, 3073); (0x10, 9)].
Proof.
  apply (mdio_phy_read_success 0 1 0x8000 0xffffffff 0x2040 (read_buf_holds 0x2040) []).
  vm_compute. reflexivity.
Defined.

(** ** Storing a MAC address *)

Lemma scan_stop_vals (f : scan_failure) (vals : list Z) (cnt : option Z) :
  sc_vals (scan_stop f vals cnt) = vals.
Proof. destruct f, vals; reflexivity. Qed.

(** [sscanf] returns EOF or the number of objects it assigned. *)
Lemma run_directives_count (ds : list directive) :
  forall (cur : cursor) (vals : list Z) (cnt : option Z),
    sc_ret (run_directives ds cur vals cnt) = -1 \/
    sc_ret (run_directives ds cur vals cnt) =
      Z.of_nat (List.length (sc_vals (run_directives ds cur vals cnt))).
Proof.
  induction ds as [|dv ds IH]; intros cur vals cnt; cbn [run_directives].
  - right. reflexivity.
  - assert (Stop : forall f,
               sc_ret (scan_stop f vals cnt) = -1 \/
               sc_ret (scan_stop f vals cnt) =
                 Z.of_nat (List.length (sc_vals (scan_stop f vals cnt)))).
    { intros f. rewrite scan_stop_vals. apply scan_stop_ret. }
    destruct dv as [ | c | sg base bits | | ].
    + apply IH.
    + destruct (rest cur) as [|c' s']; [apply Stop |].
      destruct (Ascii.eqb c c'); [apply IH | apply Stop].
    + destruct (scan_int base cur) as [cur' [f | v]]; [apply Stop | apply IH].
    + apply IH.
    + apply Stop.
Qed.

Lemma scan_mac_length (text : string) (macbuf : list byte) :
  scan_mac text = Some macbuf -> List.length macbuf = 6%nat.
Proof.
  unfold scan_mac, sscanf.
  set (r := run_directives _ _ _ _).
  destruct (sc_ret r =? 6) eqn:E; cbn [negb]; [| discriminate].
  apply Z.eqb_eq in E. intros H. injection H as <-.
  rewrite length_map.
  destruct (run_directives_count
              (parse_format "%hhx:%hhx:%hhx:%hhx:%hhx:%hhx")
              (mkCursor text 0) [] None) as [R | R]; fold r in R; lia.
Qed.

Lemma memcmp6_equal (a b : list byte) :
  List.length a = 6%nat -> List.length b = 6%nat ->
  memcmp6_differs a b = false -> a = b.
Proof.
  intros La Lb H. unfold memcmp6_differs in H. apply negb_false_iff in H.
  destruct a as [|a0 [|a1 [|a2 [|a3 [|a4 [|a5 [|a6 l]]]]]]]; try discriminate.
  destruct b as [|b0 [|b1 [|b2 [|b3 [|b4 [|b5 [|b6 l]]]]]]]; try discriminate.
  cbn [forallb seq idx nth] in H.
  repeat (apply andb_prop in H; destruct H as [? H]).
  repeat match goal with
         | X : Byte.eqb _ _ = true |- _ => apply Byte.byte_dec_bl in X
         end.
  subst. reflexivity.
Qed.

Lemma buffer_length (a : response) (n : nat) : List.length (buffer a n) = n.
Proof. unfold buffer. rewrite length_map, length_seq. reflexivity. Qed.

(** X7: [do_store] falls through to success only after it wrote the six octets
    scanned from the text, which validation accepted, slept, and read the
    same six octets back; both transfers reported six bytes. *)
Theorem do_store_success (config : Config) (fd : Z) (text : string)
    (hw : hardware) (log log' : list event) :
  do_store config fd text hw log = (log', Ret tt) ->
  exists macbuf2 msgs,
    scan_mac text = Some macbuf2 /\
    validate_mac_address (valid_mac_address_prefix config) macbuf2 true hw log =
      ((msgs ++ log)%list, Ret true) /\
    log' = (EvI2cRead fd (mac_eeprom_address config) (mac_eeprom_offset config) 6 6 macbuf2 ::
            EvSleep 1 ::
            EvI2cWrite fd (mac_eeprom_address config) (mac_eeprom_offset config) macbuf2 6 ::
            msgs ++ log)%list.
Proof.
  unfold do_store.
  destruct (scan_mac text) as [macbuf2 |] eqn:Sc.
  2:{ steps. discriminate. }
  rewrite bind_unfold.
  destruct (validate_mac_address_run (valid_mac_address_prefix config) macbuf2 true hw log)
    as (msgs & ok & Ev & Fm).
  rewrite Ev. destruct ok; cbn [negb]; steps; [| discriminate].
  name_answer hw. destruct (r_ret a =? 6) eqn:W; cbn [negb]; steps; [| discriminate].
  name_answer hw. cbv beta iota.
  destruct (r_ret a0 =? 6) eqn:R; cbn [negb]; steps; [| discriminate].
  unfold when.
  destruct (memcmp6_differs (buffer a0 6) macbuf2) eqn:C; steps; [discriminate |].
  apply Z.eqb_eq in W, R. rewrite W, R.
  apply memcmp6_equal in C;
    [| apply buffer_length | apply (scan_mac_length text); exact Sc].
  rewrite C. unfold ret. intros H. injection H as <-.
  exists macbuf2, msgs. repeat split. exact Ev.
Qed.

Lemma do_store_success_witness :
  exists macbuf2 msgs,
    scan_mac "aa:bb:cc:dd:ee:ff" = Some macbuf2 /\
    validate_mac_address (valid_mac_address_prefix sample_config) macbuf2 true
      (board mac_aabbccddeeff 0 0) [] = ((msgs ++ [])%list, Ret true) /\
    fst (do_store sample_config 3 "aa:bb:cc:dd:ee:ff" (board mac_aabbccddeeff 0 0) []) =
      (EvI2cRead 3 (mac_eeprom_address sample_config) (mac_eeprom_offset sample_config)
         6 6 macbuf2 ::
       EvSleep 1 ::
       EvI2cWrite 3 (mac_eeprom_address sample_config) (mac_eeprom_offset sample_config)
         macbuf2 6 ::
       msgs ++ [])%list.
Proof.
  apply (do_store_success sample_config 3 "aa:bb:cc:dd:ee:ff"
           (board mac_aabbccddeeff 0 0) []).
  vm_compute. reflexivity.
Defined.

(** X8: A text that does not scan as six octets, or that scans to an address
    validation rejects, is refused before any I2C transfer: [do_store] only
    prints and returns 1. *)
Theorem do_store_refuses (config : Config) (fd : Z) (text : string)
    (hw : hardware) (log : list event) :
  scan_mac text = None \/
  (exists macbuf2,
      scan_mac text = Some macbuf2 /\
      snd (validate_mac_address (valid_mac_address_prefix config) macbuf2 true hw log)
        = Ret false) ->
  exists msgs,
    do_store config fd text hw log = ((msgs ++ log)%list, Exit 1) /\
    Forall message msgs.
Proof.
  intros [N | (macbuf2 & Sc & V)]; unfold do_store.
  - rewrite N. steps.
    exists [EvPrintf stderr "Unable to parse input MAC address.\n" []].
    split; [reflexivity | repeat constructor].
  - rewrite Sc, bind_unfold.
    destruct (validate_mac_address_run (valid_mac_address_prefix config) macbuf2 true hw log)
      as (msgs & ok & Ev & Fm).
    rewrite Ev in V |- *. cbn [snd] in V. injection V as ->.
    cbn [negb]. steps. exists msgs. split; [reflexivity | exact Fm].
Qed.

Lemma do_store_refuses_witness :
  (exists msgs,
      do_store sample_config 3 "aa:bb:cc:dd:ee" (board mac_aabbccddeeff 0 0) [] =
        ((msgs ++ [])%list, Exit 1) /\ Forall message msgs) /\
  (exists msgs,
      do_store sample_config 3 "ab:bb:cc:dd:ee:ff" (board mac_aabbccddeeff 0 0) [] =
        ((msgs ++ [])%list, Exit 1) /\ Forall message msgs).
Proof.
  split.
  - apply (do_store_refuses sample_config 3 "aa:bb:cc:dd:ee"). left.
    vm_compute. reflexivity.
  - apply (do_store_refuses sample_config 3 "ab:bb:cc:dd:ee:ff"). right.
    exists [xab; xbb; xcc; xdd; xee; xff]. split; vm_compute; reflexivity.
Defined.

(** ** What the query and store actions leave alone *)

Lemma emits_weaken {A : Type} (P Q : event -> Prop) (m : M A) :
  (forall e, P e -> Q e) -> emits P m -> emits Q m.
Proof.
  intros H Hm hw log. destruct (Hm hw log) as (evs & E & F).
  exists evs. split; [exact E | revert F; apply Forall_impl; exact H].
Qed.

Lemma validate_mac_address_emits (pre : string) (macbuf : list byte) (warn : bool) :
  emits message (validate_mac_address pre macbuf warn).
Proof.
  intros hw log.
  destruct (validate_mac_address_run pre macbuf warn hw log) as (evs & ok & E & F).
  exists evs. rewrite E. split; [reflexivity | exact F].
Qed.

Lemma format_mac_or_throw_emits (P : event -> Prop) (macbuf : list byte) :
  emits P (format_mac_or_throw macbuf).
Proof.
  unfold format_mac_or_throw. rewrite format_mac_text. apply emits_ret.
Qed.

Ltac emits_auto known :=
  repeat first
    [ known
    | apply emits_ret | apply emits_return
    | apply emits_when
    | apply emits_emit; exact I
    | apply emits_call; intros; exact I
    | match goal with
      | |- emits _ (let '(_, _) := ?p in _) => destruct p
      | |- emits _ (match ?o with Some _ => _ | None => _ end) => destruct o
      | |- emits ?P (format_mac_or_throw _) => apply format_mac_or_throw_emits
      | |- emits ?P (validate_mac_address _ _ _) =>
          apply (emits_weaken message P);
          [ let e := fresh "e" in
            intros e; destruct e; simpl; intros; try contradiction; exact I
          | apply validate_mac_address_emits ]
      end
    | apply emits_bind; [| intros ] ].

Lemma do_query_emits (config : Config) (macbuf : list byte) :
  emits changes_nothing (do_query config macbuf).
Proof. unfold do_query, fprintf. emits_auto fail. Qed.

Lemma do_store_emits (config : Config) (fd : Z) (text : string) :
  emits leaves_core_alone (do_store config fd text).
Proof.
  unfold do_store, fprintf, perror, sleep, i2c_read, i2c_write.
  emits_auto fail.
Qed.

(** X9: The query action changes nothing on the board: whatever the hardware
    answers, [run] makes no register write, no EEPROM write and no drive of
    the reset line. *)
Theorem query_changes_nothing (config : Config) (a : Args) (hw : hardware)
    (log : list event) :
  action a = DO_QUERY ->
  exists evs,
    fst (run config a hw log) = (evs ++ log)%list /\
    Forall changes_nothing evs.
Proof.
  intros Q. revert hw log. change (emits changes_nothing (run config a)).
  unfold run, perror, easymem_map_uio, realpath, gpiod_chip_open,
    gpiod_chip_get_line, open, i2c_read.
  rewrite Q.
  emits_auto ltac:(idtac; match goal with
                          | |- emits _ (do_query _ _) => apply do_query_emits
                          end).
Qed.

(** X10: The store action leaves the 10GbE core alone: whatever the hardware
    answers, [run] reads or writes no register of the core or of the MDIO
    peripheral and does not drive the reset line. *)
Theorem store_leaves_core_alone (config : Config) (a : Args) (hw : hardware)
    (log : list event) :
  action a = DO_STORE ->
  exists evs,
    fst (run config a hw log) = (evs ++ log)%list /\
    Forall leaves_core_alone evs.
Proof.
  intros Q. revert hw log. change (emits leaves_core_alone (run config a)).
  unfold run, perror, easymem_map_uio, realpath, gpiod_chip_open,
    gpiod_chip_get_line, open, i2c_read.
  rewrite Q.
  emits_auto ltac:(idtac; match goal with
                          | |- emits _ (do_store _ _ _) => apply do_store_emits
                          end).
Qed.

(** ** Command-line options *)

Lemma is_nothing_true (a : Action) : is_nothing a = true <-> a = DO_NOTHING.
Proof. destruct a; simpl; split; congruence. Qed.

Lemma getopt_loop_refuses (argv0 : string) (opts : list cli_option) :
  forall (a : Args) (hw : hardware) (log : list event),
    refused (action a) opts ->
    getopt_loop argv0 opts a hw log =
    (EvPrintf stderr usage [AStr argv0] :: log, Exit 1).
Proof.
  induction opts as [|o opts IH]; intros a hw log R.
  - destruct R as [[] | [[_ R] | R]]; cbn in R; lia.
  - unfold refused, action_options in *.
    destruct o; cbn [getopt_loop filter is_action_option List.length In] in *.
    + apply IH. destruct R as [[R | R] | R]; [discriminate | auto | auto].
    + destruct (is_nothing (action a)) eqn:N; cbn [negb]; steps; [| reflexivity].
      apply IH. cbn [action].
      destruct R as [[R | R] | [[R _] | R]]; [discriminate | auto | |].
      * apply is_nothing_true in N. contradiction.
      * right. left. split; [discriminate | lia].
    + destruct (is_nothing (action a)) eqn:N; cbn [negb]; steps; [| reflexivity].
      apply IH. cbn [action].
      destruct R as [[R | R] | [[R _] | R]]; [discriminate | auto | |].
      * apply is_nothing_true in N. contradiction.
      * right. left. split; [discriminate | lia].
    + destruct (is_nothing (action a)) eqn:N; cbn [negb]; steps; [| reflexivity].
      apply IH. cbn [action].
      destruct R as [[R | R] | [[R _] | R]]; [discriminate | auto | |].
      * apply is_nothing_true in N. contradiction.
      * right. left. split; [discriminate | lia].
    + steps. reflexivity.
Qed.

Lemma getopt_loop_accepts (argv0 : string) (opts : list cli_option) :
  forall (a : Args) (hw : hardware) (log : list event),
    ~ refused (action a) opts ->
    exists a',
      getopt_loop argv0 opts a hw log = (log, Ret a') /\
      (action a' = DO_NOTHING <->
       action a = DO_NOTHING /\ action_options opts = 0%nat).
Proof.
  induction opts as [|o opts IH]; intros a hw log R.
  - exists a. split; [reflexivity |]. cbn. tauto.
  - unfold refused, action_options in *.
    destruct o; cbn [getopt_loop filter is_action_option List.length In] in *.
    + destruct (IH (mkArgs optarg (action a) (set_mac a)) hw log) as (a' & E & H).
      { cbn [action]. intros [X | X]; apply R; auto. }
      exists a'. split; [exact E | exact H].
    + destruct (is_nothing (action a)) eqn:N; cbn [negb]; steps.
      2:{ exfalso. apply R. right. left. split; [| lia].
          intros X. apply is_nothing_true in X. congruence. }
      destruct (IH (mkArgs (config_file_path a) DO_QUERY (set_mac a)) hw log)
        as (a' & E & H).
      { cbn [action]. intros [X | [[_ X] | X]]; apply R; auto; right; right; lia. }
      exists a'. split; [exact E |]. cbn [action] in H.
      split; [intros X; apply H in X; destruct X; discriminate | intros [_ X]; lia].
    + destruct (is_nothing (action a)) eqn:N; cbn [negb]; steps.
      2:{ exfalso. apply R. right. left. split; [| lia].
          intros X. apply is_nothing_true in X. congruence. }
      destruct (IH (mkArgs (config_file_path a) DO_STORE optarg) hw log)
        as (a' & E & H).
      { cbn [action]. intros [X | [[_ X] | X]]; apply R; auto; right; right; lia. }
      exists a'. split; [exact E |]. cbn [action] in H.
      split; [intros X; apply H in X; destruct X; discriminate | intros [_ X]; lia].
    + destruct (is_nothing (action a)) eqn:N; cbn [negb]; steps.
      2:{ exfalso. apply R. right. left. split; [| lia].
          intros X. apply is_nothing_true in X. congruence. }
      destruct (IH (mkArgs (config_file_path a) DO_INITIALIZE (set_mac a)) hw log)
        as (a' & E & H).
      { cbn [action]. intros [X | [[_ X] | X]]; apply R; auto; right; right; lia. }
      exists a'. split; [exact E |]. cbn [action] in H.
      split; [intros X; apply H in X; destruct X; discriminate | intros [_ X]; lia].
    + exfalso. apply R. left. left. reflexivity.
Qed.

Lemma classic_other (opts : list cli_option) :
  In OptOther opts \/ ~ In OptOther opts.
Proof.
  induction opts as [|o opts [IH | IH]]; [right; intros [] | left; right; exact IH |].
  destruct o; try (right; intros [X | X]; [discriminate | contradiction]).
  left. left. reflexivity.
Qed.

(** X11: When [action] starts out as [DO_NOTHING], [main] gets past its option
    handling exactly when the options select one action and nothing else is
    refused; otherwise it prints the usage text and returns 1 without a
    single call to the platform. *)
Theorem main_requires_one_action (argv0 : string) (opts : list cli_option)
    (config : Config) (hw : hardware) (log : list event) :
  (In OptOther opts \/ action_options opts <> 1%nat ->
   main argv0 opts DO_NOTHING config hw log =
   (EvPrintf stderr usage [AStr argv0] :: log, Exit 1)) /\
  (~ In OptOther opts -> action_options opts = 1%nat ->
   exists a,
     action a <> DO_NOTHING /\
     main argv0 opts DO_NOTHING config hw log = run config a hw log).
Proof.
  split.
  - intros H. unfold main. rewrite bind_unfold.
    destruct (Nat.le_gt_cases 2 (action_options opts)) as [G | G].
    { rewrite getopt_loop_refuses; [reflexivity |]. right. right. exact G. }
    destruct H as [H | H].
    { rewrite getopt_loop_refuses; [reflexivity |]. left. exact H. }
    assert (Z0 : action_options opts = 0%nat) by lia.
    destruct (classic_other opts) as [O | O].
    { rewrite getopt_loop_refuses; [reflexivity |]. left. exact O. }
    destruct (getopt_loop_accepts argv0 opts (mkArgs "/etc/10ginit.ini" DO_NOTHING "") hw log)
      as (a' & E & Hn).
    { cbn [action]. intros [X | [[X _] | X]]; [contradiction | congruence | lia]. }
    rewrite E. cbn [action] in Hn.
    assert (N : action a' = DO_NOTHING) by (apply Hn; auto).
    rewrite N. cbn [is_nothing]. steps. reflexivity.
  - intros O One. unfold main. rewrite bind_unfold.
    destruct (getopt_loop_accepts argv0 opts (mkArgs "/etc/10ginit.ini" DO_NOTHING "") hw log)
      as (a' & E & Hn).
    { cbn [action]. intros [X | [[X _] | X]]; [contradiction | congruence | lia]. }
    rewrite E. cbn [action] in Hn.
    assert (N : action a' <> DO_NOTHING) by (intros X; apply Hn in X; lia).
    exists a'. split; [exact N |].
    destruct (is_nothing (action a')) eqn:I0; [apply is_nothing_true in I0; contradiction |].
    steps. reflexivity.
Qed.

Lemma main_requires_one_action_witness :
  main "10ginit" [OptQ; OptC "/tmp/x.ini"; OptI] DO_NOTHING sample_config
    (board mac_aabbccddeeff 0 0) [] =
    ([EvPrintf stderr usage [AStr "10ginit"]], Exit 1) /\
  exists a,
    action a <> DO_NOTHING /\
    main "10ginit" [OptC "/tmp/x.ini"; OptI] DO_NOTHING sample_config
      (board mac_aabbccddeeff 0 0) [] =
    run sample_config a (board mac_aabbccddeeff 0 0) [].
Proof.
  split.
  - apply (proj1 (main_requires_one_action "10ginit" [OptQ; OptC "/tmp/x.ini"; OptI]
                    sample_config (board mac_aabbccddeeff 0 0) [])).
    right. vm_compute. discriminate.
  - apply (proj2 (main_requires_one_action "10ginit" [OptC "/tmp/x.ini"; OptI]
                    sample_config (board mac_aabbccddeeff 0 0) [])).
    + intros [X | [X | []]]; discriminate X.
    + reflexivity.
Defined.

(** ** Packing the MAC address into register words *)

Lemma byte_of_Z_to_Z (b : byte) : byte_of_Z (byte_to_Z b) = b.
Proof. destruct b; vm_compute; reflexivity. Qed.

Lemma land_shiftl_disjoint (a b k : Z) :
  0 <= k -> 0 <= a < 2 ^ k -> Z.land a (Z.shiftl b k) = 0.
Proof.
  intros Hk Ha. apply Z.bits_inj'. intros n Hn.
  rewrite Z.land_spec, Z.bits_0.
  destruct (Z.lt_ge_cases n k) as [L | G].
  - rewrite (Z.shiftl_spec_low b k n L). apply andb_false_r.
  - assert (T : Z.testbit a n = false).
    { destruct (Z.eq_dec a 0) as [-> | Na]; [apply Z.bits_0 |].
      apply Z.bits_above_log2; [lia |].
      apply Z.log2_lt_pow2; [lia |].
      apply Z.lt_le_trans with (2 ^ k); [lia |].
      apply Z.pow_le_mono_r; lia. }
    rewrite T. reflexivity.
Qed.

Lemma lor_shiftl_add (a b k : Z) :
  0 <= k -> 0 <= a < 2 ^ k -> Z.lor a (Z.shiftl b k) = a + b * 2 ^ k.
Proof.
  intros Hk Ha.
  pose proof (land_shiftl_disjoint a b k Hk Ha) as D.
  rewrite <- Z.lxor_lor by exact D.
  rewrite <- Z.add_nocarry_lxor by exact D.
  rewrite Z.shiftl_mul_pow2 by exact Hk. reflexivity.
Qed.

(** The two words as sums: octet [i] of a word sits at bits [8i .. 8i+7]. *)
Lemma pack_octets_sum (b0 b1 b2 b3 b4 b5 : byte) :
  pack_octets [b0; b1; b2; b3; b4; b5] 0 4 =
    byte_to_Z b0 + byte_to_Z b1 * 256 + byte_to_Z b2 * 65536 +
    byte_to_Z b3 * 16777216 /\
  pack_octets [b0; b1; b2; b3; b4; b5] 4 2 =
    byte_to_Z b4 + byte_to_Z b5 * 256.
Proof.
  pose proof (byte_to_Z_range b0). pose proof (byte_to_Z_range b1).
  pose proof (byte_to_Z_range b2). pose proof (byte_to_Z_range b3).
  pose proof (byte_to_Z_range b4). pose proof (byte_to_Z_range b5).
  change (pack_octets [b0; b1; b2; b3; b4; b5] 0 4)
    with (Z.lor (Z.lor (Z.lor (Z.lor 0 (u32 (Z.shiftl (byte_to_Z b0) 0)))
                              (u32 (Z.shiftl (byte_to_Z b1) 8)))
                       (u32 (Z.shiftl (byte_to_Z b2) 16)))
                (u32 (Z.shiftl (byte_to_Z b3) 24))).
  change (pack_octets [b0; b1; b2; b3; b4; b5] 4 2)
    with (Z.lor (Z.lor 0 (u32 (Z.shiftl (byte_to_Z b4) 0)))
                (u32 (Z.shiftl (byte_to_Z b5) 8))).
  assert (S0 : forall x, 0 <= x < 256 -> u32 (Z.shiftl x 0) = x).
  { intros x Hx. rewrite Z.shiftl_0_r. apply wrap_small.
    change (2 ^ 32) with 4294967296. lia. }
  assert (Sk : forall x k, 0 <= x < 256 -> 0 <= k <= 24 ->
                           u32 (Z.shiftl x k) = Z.shiftl x k).
  { intros x k Hx Hk. apply wrap_small. rewrite Z.shiftl_mul_pow2 by lia.
    assert (2 ^ k <= 2 ^ 24) by (apply Z.pow_le_mono_r; lia).
    assert (0 < 2 ^ k) by (apply Z.pow_pos_nonneg; lia).
    change (2 ^ 24) with 16777216 in *. change (2 ^ 32) with 4294967296. nia. }
  rewrite !Z.lor_0_l, !S0, !Sk by lia.
  rewrite (lor_shiftl_add (byte_to_Z b0) (byte_to_Z b1) 8) by (change (2 ^ 8) with 256; lia).
  rewrite (lor_shiftl_add _ (byte_to_Z b2) 16) by (change (2 ^ 8) with 256; change (2 ^ 16) with 65536; lia).
  rewrite (lor_shiftl_add _ (byte_to_Z b3) 24)
    by (change (2 ^ 8) with 256; change (2 ^ 16) with 65536;
        change (2 ^ 24) with 16777216; lia).
  rewrite (lor_shiftl_add (byte_to_Z b4) (byte_to_Z b5) 8) by (change (2 ^ 8) with 256; lia).
  split; reflexivity.
Qed.

Lemma unpack_octet (x : Z) (k : nat) (n : Z) :
  n = 8 * Z.of_nat k ->
  byte_of_Z (Z.land (Z.shiftr x n) 0xff) = byte_of_Z ((x / 2 ^ n) mod 256).
Proof.
  intros ->. rewrite Z.shiftr_div_pow2 by lia.
  change 255 with (Z.ones 8). rewrite Z.land_ones by lia. reflexivity.
Qed.

(** X12: A readback that passes the comparison in [main] decodes, with the
    unpacking [main] uses for its diagnostic, to the six octets that were
    programmed: the high word carries octets 0 to 3, the low 16 bits of the
    low word octets 4 and 5, so all 48 bits of the address are checked. *)
Theorem verified_readback_is_the_mac (macbuf : list byte) (hi2 lo2 : Z) :
  List.length macbuf = 6%nat ->
  pack_octets macbuf 0 4 = hi2 ->
  Z.land (pack_octets macbuf 4 2) 0x0000ffff = Z.land lo2 0x0000ffff ->
  (unpack_octets hi2 4 ++ unpack_octets lo2 2)%list = macbuf.
Proof.
  intros L Hh Hl.
  destruct macbuf as [|b0 [|b1 [|b2 [|b3 [|b4 [|b5 [|b6 l]]]]]]]; try discriminate.
  destruct (pack_octets_sum b0 b1 b2 b3 b4 b5) as [Ph Pl].
  rewrite Ph in Hh. rewrite Pl in Hl. subst hi2.
  pose proof (byte_to_Z_range b0). pose proof (byte_to_Z_range b1).
  pose proof (byte_to_Z_range b2). pose proof (byte_to_Z_range b3).
  pose proof (byte_to_Z_range b4). pose proof (byte_to_Z_range b5).
  change 65535 with (Z.ones 16) in Hl. rewrite !Z.land_ones in Hl by lia.
  change (2 ^ 16) with 65536 in Hl.
  unfold unpack_octets. cbn [seq map app].
  rewrite !(unpack_octet _ 0 (8 * Z.of_nat 0)), !(unpack_octet _ 1 (8 * Z.of_nat 1)),
    !(unpack_octet _ 2 (8 * Z.of_nat 2)), !(unpack_octet _ 3 (8 * Z.of_nat 3))
    by reflexivity.
  change (2 ^ (8 * Z.of_nat 0)) with 1. change (2 ^ (8 * Z.of_nat 1)) with 256.
  change (2 ^ (8 * Z.of_nat 2)) with 65536. change (2 ^ (8 * Z.of_nat 3)) with 16777216.
  set (B0 := byte_to_Z b0) in *. set (B1 := byte_to_Z b1) in *.
  set (B2 := byte_to_Z b2) in *. set (B3 := byte_to_Z b3) in *.
  set (B4 := byte_to_Z b4) in *. set (B5 := byte_to_Z b5) in *.
  set (hi := B0 + B1 * 256 + B2 * 65536 + B3 * 16777216).
  assert (E0 : (hi / 1) mod 256 = B0) by (subst hi; Z.div_mod_to_equations; lia).
  assert (E1 : (hi / 256) mod 256 = B1) by (subst hi; Z.div_mod_to_equations; lia).
  assert (E2 : (hi / 65536) mod 256 = B2) by (subst hi; Z.div_mod_to_equations; lia).
  assert (E3 : (hi / 16777216) mod 256 = B3) by (subst hi; Z.div_mod_to_equations; lia).
  assert (E4 : (lo2 / 1) mod 256 = B4) by (Z.div_mod_to_equations; lia).
  assert (E5 : (lo2 / 256) mod 256 = B5) by (Z.div_mod_to_equations; lia).
  rewrite E0, E1, E2, E3, E4, E5. subst B0 B1 B2 B3 B4 B5.
  rewrite !byte_of_Z_to_Z. reflexivity.
Qed.

Lemma verified_readback_is_the_mac_witness :
  (unpack_octets 0xddccbbaa 4 ++ unpack_octets 0x1234ffee 2)%list = mac_aabbccddeeff.
Proof.
  apply (verified_readback_is_the_mac mac_aabbccddeeff 0xddccbbaa 0x1234ffee);
    vm_compute; reflexivity.
Defined.

(** ** Order of the steps of an initialization *)

Lemma writes_in_reset_quiet (evs log : list event) :
  Forall not_gpio evs -> reset_line log = Some 1 -> writes_in_reset evs log.
Proof.
  intros F H. induction F as [|e evs He F IH]; [exact I |].
  split; [| exact IH].
  destruct e; try exact I. rewrite reset_line_app by exact F. exact H.
Qed.

Lemma writes_in_reset_app (a b log : list event) :
  writes_in_reset a (b ++ log) -> writes_in_reset b log ->
  writes_in_reset (a ++ b) log.
Proof.
  intros Ha Hb. induction a as [|e a IH]; [exact Hb |].
  destruct Ha as [He Ha]. split; [| apply IH; exact Ha].
  destruct e; try exact I. rewrite <- app_assoc. exact He.
Qed.

Ltac in_reset FO H1 Wold :=
  close_branch;
  cbn [writes_in_reset app reset_line];
  rewrite ?(reset_line_app _ _ FO);
  repeat split; first [exact I | exact H1 | exact Wold].

Lemma configure_gbe_in_reset (config : Config) (macbuf : list byte)
    (hw : hardware) (log : list event) :
  reset_line log = Some 1 ->
  exists evs out,
    configure_gbe config macbuf hw log = ((evs ++ log)%list, out) /\
    writes_in_reset evs log.
Proof.
  intros H1.
  unfold configure_gbe, format_mac_or_throw.
  rewrite !format_mac_text. steps.
  unfold bind at 1.
  destruct (validate_mac_address_run (valid_mac_address_prefix config) macbuf true hw
              (EvPrintf stdout "Configuring 10GbE with MAC address %s\n"
                 [AStr (mac_text macbuf)] :: log))
    as [evsV [ok [EV FV]]].
  rewrite EV. clear EV.
  apply message_not_gpio in FV.
  set (hi := pack_octets macbuf 0 4). set (lo := pack_octets macbuf 4 2).
  clearbody hi lo.
  assert (FO : Forall not_gpio
                 (evsV ++ [EvPrintf stdout "Configuring 10GbE with MAC address %s\n"
                             [AStr (mac_text macbuf)]])%list).
  { apply Forall_app. split; [exact FV | repeat constructor]. }
  replace (evsV ++ EvPrintf stdout "Configuring 10GbE with MAC address %s\n"
                     [AStr (mac_text macbuf)] :: log)%list
    with ((evsV ++ [EvPrintf stdout "Configuring 10GbE with MAC address %s\n"
                      [AStr (mac_text macbuf)]]) ++ log)%list
    by (rewrite <- app_assoc; reflexivity).
  set (old := (evsV ++ [EvPrintf stdout "Configuring 10GbE with MAC address %s\n"
                          [AStr (mac_text macbuf)]])%list) in *.
  clearbody old. clear FV evsV.
  pose proof (writes_in_reset_quiet old log FO H1) as Wold.
  destruct ok; cbn [negb]; steps; [| in_reset FO H1 Wold].
  name_answer hw. branch; [in_reset FO H1 Wold |].
  name_answer hw. branch; [in_reset FO H1 Wold |].
  name_answer hw. branch; [in_reset FO H1 Wold |].
  name_answer hw. branch; [in_reset FO H1 Wold |].
  name_answer hw. cbv beta iota. branch; [in_reset FO H1 Wold |].
  name_answer hw. cbv beta iota. branch; [in_reset FO H1 Wold |].
  unfold when at 1.
  match goal with
  | |- context [if ?c then _ else _] => destruct c
  end.
  - steps. rewrite format_mac_text. steps.
    name_answer hw. name_answer hw. branch; [in_reset FO H1 Wold |].
    unfold return_. in_reset FO H1 Wold.
  - unfold ret. in_reset FO H1 Wold.
Qed.

(** X13: Every register write of an initialization, to the MDIO peripheral or to
    the 10GbE core, is made while the reset line stands driven to 1: the
    line is driven to 0 only after the last write. *)
Theorem initialize_writes_in_reset (config : Config) (macbuf : list byte)
    (hw : hardware) (log : list event) :
  exists evs out,
    do_initialize config macbuf hw log = ((evs ++ log)%list, out) /\
    writes_in_reset evs log.
Proof.
  unfold do_initialize. steps.
  name_answer hw. branch.
  { close_branch. cbn. auto. }
  name_answer hw. branch.
  { close_branch. cbn. auto. }
  unfold parse_mdio_writes_or_hang.
  destruct (parse_mdio_writes (mdio_reg_writes config)) as [ops|].
  2:{ unfold bind. close_branch. cbn. auto. }
  step. unfold bind at 1.
  set (three := [EvUsleep GBE_RST_SETTLE_US; EvSetValue 1 (r_ret a0);
                 EvRequestOutput "10ginit" 1 (r_ret a)]).
  change (EvUsleep GBE_RST_SETTLE_US :: EvSetValue 1 (r_ret a0)
          :: EvRequestOutput "10ginit" 1 (r_ret a) :: log)
    with (three ++ log)%list.
  assert (W3 : writes_in_reset three log) by (cbn; auto).
  assert (R3 : reset_line (three ++ log) = Some 1).
  { subst three. cbn [app reset_line]. rewrite E0. reflexivity. }
  destruct (mdio_write_all_emits ops hw (three ++ log)%list) as [evsM [EM FM]].
  apply mdio_event_not_gpio in FM.
  destruct (mdio_write_all ops hw (three ++ log)%list) as [logM outM].
  cbn [fst] in EM. subst logM.
  pose proof (writes_in_reset_quiet evsM (three ++ log)%list FM R3) as WM.
  assert (RM : reset_line (evsM ++ three ++ log) = Some 1)
    by (rewrite reset_line_app by exact FM; exact R3).
  pose proof (writes_in_reset_app _ _ _ WM W3) as WM3.
  destruct outM as [[] | c | |];
    try (do 2 eexists; split; [rewrite app_assoc; reflexivity | exact WM3]).
  destruct (configure_gbe_in_reset config macbuf hw (evsM ++ three ++ log)%list RM)
    as (evs & out & EC & WC).
  cbv beta. rewrite EC. exists (evs ++ evsM ++ three)%list, out.
  split; [rewrite <- !app_assoc; reflexivity |].
  apply writes_in_reset_app; [rewrite <- app_assoc; exact WC | exact WM3].
Qed.

Lemma mdio_event_keeps (evs : list event) :
  Forall mdio_event evs -> Forall keeps_in_reset evs.
Proof.
  apply Forall_impl. intros e H.
  destruct e as [ | | | | | | | | | | | [|] | [|] | | | ]; simpl in *;
    try contradiction; exact I.
Qed.

Lemma message_keeps (evs : list event) :
  Forall message evs -> Forall keeps_in_reset evs.
Proof.
  apply Forall_impl. intros e H. destruct e; simpl in *; try contradiction; exact I.
Qed.

(** X14: With a MAC address that [validate_mac_address] rejects, an
    initialization does not end in success, touches no register of the
    core and never drives the reset line to 0. *)
Theorem rejected_mac_keeps_core_in_reset (config : Config) (macbuf : list byte)
    (hw : hardware) (log : list event) :
  (forall hw' log',
      snd (validate_mac_address (valid_mac_address_prefix config) macbuf true hw' log')
      = Ret false) ->
  exists evs out,
    do_initialize config macbuf hw log = ((evs ++ log)%list, out) /\
    out <> Ret tt /\
    Forall keeps_in_reset evs.
Proof.
  intros Rej. unfold do_initialize. steps.
  name_answer hw. branch.
  { close_branch. split; [discriminate | repeat constructor]. }
  name_answer hw. branch.
  { close_branch. split; [discriminate | repeat constructor]. }
  unfold parse_mdio_writes_or_hang.
  destruct (parse_mdio_writes (mdio_reg_writes config)) as [ops|].
  2:{ unfold bind. close_branch. split; [discriminate | repeat constructor]. }
  step. unfold bind at 1.
  set (three := [EvUsleep GBE_RST_SETTLE_US; EvSetValue 1 (r_ret a0);
                 EvRequestOutput "10ginit" 1 (r_ret a)]).
  change (EvUsleep GBE_RST_SETTLE_US :: EvSetValue 1 (r_ret a0)
          :: EvRequestOutput "10ginit" 1 (r_ret a) :: log)
    with (three ++ log)%list.
  assert (K3 : Forall keeps_in_reset three) by (repeat constructor).
  destruct (mdio_write_all_emits ops hw (three ++ log)%list) as [evsM [EM FM]].
  apply mdio_event_keeps in FM.
  destruct (mdio_write_all ops hw (three ++ log)%list) as [logM outM].
  cbn [fst] in EM. subst logM.
  assert (KM : Forall keeps_in_reset (evsM ++ three))
    by (apply Forall_app; split; assumption).
  destruct outM as [[] | c | |];
    try (do 2 eexists; split; [rewrite app_assoc; reflexivity |];
         split; [discriminate | exact KM]).
  cbv beta. unfold configure_gbe, format_mac_or_throw.
  rewrite !format_mac_text. steps. unfold bind at 1.
  match goal with
  | |- context [validate_mac_address ?p ?m ?w hw ?l] =>
      destruct (validate_mac_address_run p m w hw l) as (msgs & ok & EV & FV);
      specialize (Rej hw l); rewrite EV in Rej |- *
  end.
  cbn [snd] in Rej. injection Rej as ->. cbn [negb]. steps.
  apply message_keeps in FV.
  exists (EvPrintf stderr "Leaving 10GbE core in reset.\n" [] ::
          msgs ++ EvPrintf stdout "Configuring 10GbE with MAC address %s\n"
                    [AStr (mac_text macbuf)] :: evsM ++ three)%list, (Exit 1).
  split; [| split; [discriminate |]].
  - repeat (rewrite <- app_assoc || rewrite <- app_comm_cons). reflexivity.
  - constructor; [exact I |]. apply Forall_app. split; [exact FV |].
    constructor; [exact I | exact KM].
Qed.

Lemma rejected_mac_keeps_core_in_reset_witness :
  exists evs out,
    do_initialize sample_config mac_broadcast (board mac_broadcast 0 0) [] =
      ((evs ++ [])%list, out) /\
    out <> Ret tt /\
    Forall keeps_in_reset evs.
Proof.
  apply (rejected_mac_keeps_core_in_reset sample_config mac_broadcast
           (board mac_broadcast 0 0) []).
  intros hw' log'. vm_compute. reflexivity.
Defined.

Lemma mdio_writes_none (evs : list event) :
  Forall not_mdio_write evs -> mdio_writes evs = [].
Proof.
  induction 1 as [|e evs He F IH]; [reflexivity |].
  destruct e as [ | | | | | | | | | | | [|] | | | | ]; simpl in *;
    try contradiction; exact IH.
Qed.

(** When every operation was written, the register writes made are those
    of the operations, one transaction after the other, in list order. *)
Lemma mdio_write_all_done (ops : list MDIO_Operation) :
  forall (hw : hardware) (log log' : list event),
    mdio_write_all ops hw log = (log', Ret tt) ->
    exists evs,
      log' = (evs ++ log)%list /\ mdio_writes evs = writes_of_ops ops.
Proof.
  induction ops as [|op ops IH]; intros hw log log' H.
  - cbn in H. injection H as <-. exists []. split; reflexivity.
  - cbn [mdio_write_all] in H. rewrite bind_fprintf, bind_unfold in H.
    match type of H with
    | context [mdio_phy_write ?p ?d ?r ?v hw ?l] =>
        destruct (mdio_phy_write_shape p d r v hw l)
          as (evs1 & st & E1 & S & _ & Dn);
        rewrite E1 in H
    end.
    destruct S as [-> | ->].
    2:{ change (-1 <? 0) with true in H. rewrite bind_when_true, bind_assoc,
          bind_fprintf, bind_return in H. discriminate H. }
    change (0 <? 0) with false in H. rewrite bind_when_false in H.
    destruct (Dn eq_refl) as (W1 & _).
    destruct (IH _ _ _ H) as (evs2 & -> & W2).
    exists (evs2 ++ evs1 ++
            [EvPrintf stdout "Writing MDIO: port %u, dev %u, reg 0x%04x = 0x%04x\n"
               [ANum (port op); ANum (dev op); ANum (reg op); ANum (val op)]])%list.
    split; [rewrite <- !app_assoc; reflexivity |].
    rewrite !mdio_writes_app, W1, W2. reflexivity.
Qed.

Lemma configure_gbe_emits (config : Config) (macbuf : list byte) :
  emits not_mdio_write (configure_gbe config macbuf).
Proof.
  unfold configure_gbe, fprintf, perror, usleep, easymem_safewrite32,
    easymem_saferead32, gpiod_line_set_value, UNSAFE_REG32.
  emits_auto fail.
Qed.

(** X15: An initialization that ends in success made, on the MDIO peripheral,
    exactly the register writes of the configured operations, one
    six-write transaction per operation in configuration order, and leaves
    the reset line driven to 0. *)
Theorem initialize_success_programs_phy (config : Config) (macbuf : list byte)
    (hw : hardware) (log log' : list event) :
  do_initialize config macbuf hw log = (log', Ret tt) ->
  exists ops evs,
    parse_mdio_writes (mdio_reg_writes config) = Some ops /\
    log' = (evs ++ log)%list /\
    mdio_writes evs = writes_of_ops ops /\
    reset_line log' = Some 0.
Proof.
  intros H.
  assert (R0 : reset_line log' = Some 0).
  { destruct (do_initialize_contract config macbuf hw log) as (evs & out & E & _ & _ & Ok & _).
    rewrite E in H. injection H as <- ->.
    destruct (Ok eq_refl) as (older & r1 & r2 & r3 & r4 & r5 & r6 & l & -> & _ & _ & _ & _ & H4 & _).
    cbn [app reset_line]. apply Z.ltb_ge in H4. rewrite H4. reflexivity. }
  revert H. unfold do_initialize. steps.
  name_answer hw. branch; [discriminate |].
  name_answer hw. branch; [discriminate |].
  unfold parse_mdio_writes_or_hang.
  destruct (parse_mdio_writes (mdio_reg_writes config)) as [ops|];
    [| unfold bind; discriminate].
  step. rewrite bind_unfold.
  set (three := [EvUsleep GBE_RST_SETTLE_US; EvSetValue 1 (r_ret a0);
                 EvRequestOutput "10ginit" 1 (r_ret a)]).
  change (EvUsleep GBE_RST_SETTLE_US :: EvSetValue 1 (r_ret a0)
          :: EvRequestOutput "10ginit" 1 (r_ret a) :: log)
    with (three ++ log)%list.
  destruct (mdio_write_all ops hw (three ++ log)%list) as [logM outM] eqn:EM.
  destruct outM as [[] | c | |]; try discriminate.
  destruct (mdio_write_all_done ops hw _ _ EM) as (evsM & -> & WM).
  destruct (configure_gbe_emits config macbuf hw (evsM ++ three ++ log)%list)
    as (evsC & EC & FC).
  intros H. rewrite H in EC. cbn [fst] in EC. subst log'.
  exists ops, (evsC ++ evsM ++ three)%list.
  split; [reflexivity |].
  split; [rewrite <- !app_assoc; reflexivity |].
  split; [| exact R0].
  rewrite !mdio_writes_app, (mdio_writes_none evsC FC), WM.
  rewrite app_nil_r. reflexivity.
Qed.

Lemma initialize_success_programs_phy_witness :
  exists ops evs,
    parse_mdio_writes (mdio_reg_writes sample_config) = Some ops /\
    fst (do_initialize sample_config mac_aabbccddeeff
           (board mac_aabbccddeeff 0xddccbbaa 0xffee) []) = (evs ++ [])%list /\
    mdio_writes evs = writes_of_ops ops /\
    reset_line (fst (do_initialize sample_config mac_aabbccddeeff
                       (board mac_aabbccddeeff 0xddccbbaa 0xffee) [])) = Some 0.
Proof.
  apply (initialize_success_programs_phy sample_config mac_aabbccddeeff
           (board mac_aabbccddeeff 0xddccbbaa 0xffee) []).
  vm_compute. reflexivity.
Defined.

(** ** Shape of texts and of parsed operations *)

Lemma lower_pair_all (b : byte) : lower_pair b = true.
Proof. destruct b; vm_compute; reflexivity. Qed.

(** X16: [format_mac] never throws: for any buffer it yields a text of the
    layout "xx:xx:xx:xx:xx:xx" in lowercase hexadecimal digits; and on
    six-octet buffers different addresses give different texts. *)
Theorem format_mac_layout :
  (forall macbuf : list byte,
      exists text, format_mac macbuf = Some text /\ mac_layout text = true) /\
  (forall m1 m2 : list byte,
      List.length m1 = 6%nat -> List.length m2 = 6%nat ->
      format_mac m1 = format_mac m2 -> m1 = m2).
Proof.
  split.
  - intros macbuf. exists (mac_text macbuf). split; [apply format_mac_text |].
    unfold mac_text.
    pose proof (lower_pair_all (idx macbuf 0)) as H0.
    pose proof (lower_pair_all (idx macbuf 1)) as H1.
    pose proof (lower_pair_all (idx macbuf 2)) as H2.
    pose proof (lower_pair_all (idx macbuf 3)) as H3.
    pose proof (lower_pair_all (idx macbuf 4)) as H4.
    pose proof (lower_pair_all (idx macbuf 5)) as H5.
    unfold lower_pair in *.
    destruct (fmt_02hhx (idx macbuf 0)) as [|a0 [|a1 [|? ?]]]; try discriminate.
    destruct (fmt_02hhx (idx macbuf 1)) as [|b0 [|b1 [|? ?]]]; try discriminate.
    destruct (fmt_02hhx (idx macbuf 2)) as [|d0 [|d1 [|? ?]]]; try discriminate.
    destruct (fmt_02hhx (idx macbuf 3)) as [|e0 [|e1 [|? ?]]]; try discriminate.
    destruct (fmt_02hhx (idx macbuf 4)) as [|f0 [|f1 [|? ?]]]; try discriminate.
    destruct (fmt_02hhx (idx macbuf 5)) as [|g0 [|g1 [|? ?]]]; try discriminate.
    apply andb_prop in H0, H1, H2, H3, H4, H5.
    destruct H0, H1, H2, H3, H4, H5.
    unfold mac_layout.
    cbn [String.append list_ascii_of_string forallb].
    repeat match goal with
           | X : lower_hex _ = true |- _ => rewrite X; clear X
           end.
    reflexivity.
  - intros m1 m2 L1 L2 E. rewrite !format_mac_text in E.
    injection E as E. apply mac_text_inj; assumption.
Qed.

Lemma skip_space_all (s : string) (n : Z) :
  all_space s = true -> rest (skip_space s n) = EmptyString.
Proof.
  revert n. induction s as [|c s IH]; intros n H; cbn in *; [reflexivity |].
  apply andb_prop in H. destruct H as [Hc Hs]. rewrite Hc. apply IH. exact Hs.
Qed.

(** X17: A configuration string that is empty or holds only white space gives
    no operation. *)
Theorem parse_mdio_writes_blank (s : string) :
  all_space s = true -> parse_mdio_writes s = Some [].
Proof.
  intros H. unfold parse_mdio_writes. rewrite parse_mdio_loop_step.
  destruct (0 <? size s) eqn:E; [| reflexivity].
  unfold token_at.
  assert (R : sc_ret (sscanf (substr_from s 0) mdio_token_format) = -1).
  { assert (S0 : substr_from s 0 = s).
    { unfold substr_from. cbn [Z.to_nat]. rewrite Nat.sub_0_r.
      apply substring_all. lia. }
    rewrite S0. unfold sscanf, mdio_token_format.
    change (parse_format " %d.%d:%x=%x %n")
      with [DSpace; DInt true 10 32; DLit "."; DInt true 10 32; DLit ":"; DInt false 16 32;
            DLit "="; DInt false 16 32; DSpace; DCount].
    cbn [run_directives rest consumed].
    unfold scan_int.
    assert (A : all_space (rest (skip_space s 0)) = true)
      by (rewrite skip_space_all by exact H; reflexivity).
    rewrite (skip_space_all _ _ A). reflexivity. }
  rewrite R. reflexivity.
Qed.

Lemma parse_mdio_writes_blank_witness :
  parse_mdio_writes "   " = Some [].
Proof. apply parse_mdio_writes_blank. reflexivity. Defined.

(** ** How the fields of an operation are stored *)

Lemma stored_field_d (n : Z) : stored true 32 n = field_d n.
Proof.
  unfold stored, converted, strtoll, field_d, LLONG_MAX, LLONG_MIN, wrap.
  destruct (2 ^ 63 - 1 <? n) eqn:A; destruct (2 ^ 63 <=? n) eqn:B;
    try (apply Z.ltb_lt in A); try (apply Z.ltb_ge in A);
    try (apply Z.leb_le in B); try (apply Z.leb_gt in B); try lia.
  - reflexivity.
  - destruct (n <? - 2 ^ 63); reflexivity.
Qed.

Lemma stored_field_x (n : Z) : 0 <= n -> stored false 32 n = field_x n.
Proof.
  intros H.
  unfold stored, converted, strtoull, field_x, ULLONG_MAX, wrap.
  rewrite Z.abs_eq by exact H.
  destruct (2 ^ 64 - 1 <? n) eqn:A; destruct (2 ^ 64 <=? n) eqn:B;
    try (apply Z.ltb_lt in A); try (apply Z.ltb_ge in A);
    try (apply Z.leb_le in B); try (apply Z.leb_gt in B); try lia.
  - reflexivity.
  - apply Z.mod_mod_divide. exists (2 ^ 32). reflexivity.
Qed.

Lemma digit_below_16 (d : Z) :
  0 <= d < 16 ->
  d = 0 \/ d = 1 \/ d = 2 \/ d = 3 \/ d = 4 \/ d = 5 \/ d = 6 \/ d = 7 \/
  d = 8 \/ d = 9 \/ d = 10 \/ d = 11 \/ d = 12 \/ d = 13 \/ d = 14 \/ d = 15.
Proof. lia. Qed.

(** The character of a digit reads back as the digit, and is neither white
    space, nor a sign, nor an "x". *)
Lemma hex_char_digit (base d : Z) :
  base = 10 \/ base = 16 -> 0 <= d < base ->
  digit_val base (hex_char d) = Some d /\
  isspace (hex_char d) = false /\
  Ascii.eqb (hex_char d) "-" = false /\
  Ascii.eqb (hex_char d) "+" = false /\
  is_x (hex_char d) = false.
Proof.
  intros B H.
  assert (D : 0 <= d < 16) by (destruct B; subst base; lia).
  apply digit_below_16 in D.
  destruct B; subst base;
    repeat (destruct D as [D | D];
            [subst d; first [lia | repeat split; reflexivity] |]);
    subst d; first [lia | repeat split; reflexivity].
Qed.

Lemma digits_of_cons (base d : Z) (ds : list Z) :
  forallb (fun d => (0 <=? d) && (d <? base)) (d :: ds) = true ->
  0 <= d < base /\ forallb (fun d => (0 <=? d) && (d <? base)) ds = true.
Proof.
  cbn [forallb]. intros H. apply andb_prop in H. destruct H as [H F].
  apply andb_prop in H. destruct H as [H1 H2].
  apply Z.leb_le in H1. apply Z.ltb_lt in H2. auto.
Qed.

Lemma scan_digits_text (base : Z) (t : string) (ds : list Z) :
  base = 10 \/ base = 16 ->
  ends_number base t ->
  forallb (fun d => (0 <=? d) && (d <? base)) ds = true ->
  forall n acc cnt,
    scan_digits base (digits_text ds ++ t) n acc cnt =
    (fold_left (fun a d => a * base + d) ds acc,
     cnt + Z.of_nat (List.length ds),
     mkCursor t (n + Z.of_nat (List.length ds))).
Proof.
  intros B T. induction ds as [|d ds IH]; intros F n acc cnt.
  - cbn [digits_text map string_of_list_ascii String.append fold_left List.length
         Z.of_nat]. rewrite !Z.add_0_r.
    destruct t as [|c t']; [reflexivity |]. destruct T as [T _].
    cbn [scan_digits]. rewrite T. reflexivity.
  - apply digits_of_cons in F. destruct F as [Hd F].
    destruct (hex_char_digit base d B Hd) as (V & _).
    unfold digits_text in *.
    cbn [map string_of_list_ascii String.append scan_digits fold_left List.length].
    rewrite V, (IH F). f_equal; [f_equal |]; [lia | f_equal; lia].
Qed.

Lemma digits_text_length (ds : list Z) :
  String.length (digits_text ds) = List.length ds.
Proof.
  unfold digits_text. induction ds as [|d ds IH]; simpl; [reflexivity |].
  rewrite IH. reflexivity.
Qed.

(** A signed number followed by [t] is scanned whole. *)
Lemma scan_int_text (base : Z) (negative : bool) (ds : list Z) (t : string)
    (n : Z) :
  base = 10 \/ base = 16 ->
  digits_of base ds = true ->
  ends_number base t ->
  scan_int base (mkCursor (sign_text negative ++ digits_text ds ++ t) n) =
  (mkCursor t (n + Z.of_nat (String.length (sign_text negative))
                 + Z.of_nat (List.length ds)),
   inr (signed_value negative (digits_value base ds))).
Proof.
  intros B D T. unfold digits_of in D. apply andb_prop in D. destruct D as [N F].
  destruct ds as [|d ds]; [discriminate |]. clear N.
  pose proof (scan_digits_text base t (d :: ds) B T F) as S.
  apply digits_of_cons in F. destruct F as [Hd F].
  destruct (hex_char_digit base d B Hd) as (V & Sp & Mi & Pl & X).
  assert (Q : match digits_text ds ++ t with
              | String x _ => is_x x = false
              | EmptyString => True
              end).
  { destruct ds as [|d1 ds].
    - destruct t as [|c t']; [exact I |]. destruct T as [_ T]. exact T.
    - apply digits_of_cons in F. destruct F as [Hd1 _].
      destruct (hex_char_digit base d1 B Hd1) as (_ & _ & _ & _ & X1).
      exact X1. }
  change (digits_text (d :: ds) ++ t)%string
    with (String (hex_char d) (digits_text ds ++ t)) in *.
  set (tail := (digits_text ds ++ t)%string) in *. clearbody tail.
  assert (P : forall sg m,
             (let '(prefixed, s2, n2) :=
                match String (hex_char d) tail with
                | String z (String x s'') =>
                    if (base =? 16) && Ascii.eqb z "0" && is_x x
                    then (true, s'', m + 2)
                    else (false, String (hex_char d) tail, m)
                | _ => (false, String (hex_char d) tail, m)
                end in
              let '(v, cnt, c3) := scan_digits base s2 n2 0 0 in
              if (cnt =? 0) && negb prefixed
              then (c3, @inl scan_failure Z MatchingFailure)
              else (c3, inr (sg * v))) =
             (mkCursor t (m + Z.of_nat (List.length (d :: ds))),
              inr (sg * digits_value base (d :: ds)))).
  { intros sg m.
    assert (R : match String (hex_char d) tail with
                | String z (String x s'') =>
                    if (base =? 16) && Ascii.eqb z "0" && is_x x
                    then (true, s'', m + 2)
                    else (false, String (hex_char d) tail, m)
                | _ => (false, String (hex_char d) tail, m)
                end = (false, String (hex_char d) tail, m)).
    { destruct tail as [|x tail']; [reflexivity |].
      rewrite Q, andb_false_r. reflexivity. }
    rewrite R, (S m 0 0). unfold digits_value.
    replace (0 + Z.of_nat (List.length (d :: ds)) =? 0) with false
      by (symmetry; apply Z.eqb_neq; cbn [List.length]; lia).
    reflexivity. }
  unfold scan_int. cbn [rest consumed].
  destruct negative; cbn [sign_text String.append String.length signed_value].
  - cbn [skip_space]. change (isspace "-") with false. cbv iota.
    cbn [rest consumed]. rewrite Ascii.eqb_refl, (P (-1) (n + 1)).
    f_equal; f_equal; cbn [Z.of_nat Pos.of_succ_nat List.length]; lia.
  - cbn [skip_space]. rewrite Sp. cbn [rest consumed]. rewrite Mi, Pl, (P 1 n).
    f_equal; f_equal; cbn [Z.of_nat List.length]; lia.
Qed.

Lemma skip_space_number (negative : bool) (base : Z) (ds : list Z) (t : string)
    (n : Z) :
  base = 10 \/ base = 16 ->
  digits_of base ds = true ->
  skip_space (sign_text negative ++ digits_text ds ++ t) n =
  mkCursor (sign_text negative ++ digits_text ds ++ t) n.
Proof.
  intros B D. destruct negative; [reflexivity |].
  unfold digits_of in D. apply andb_prop in D. destruct D as [N F].
  destruct ds as [|d ds]; [discriminate |].
  apply digits_of_cons in F. destruct F as [Hd _].
  destruct (hex_char_digit base d B Hd) as (_ & Sp & _).
  unfold digits_text.
  cbn [sign_text map string_of_list_ascii String.append skip_space].
  rewrite Sp. reflexivity.
Qed.

Lemma run_number (ds : list directive) (sg : bool) (base bits : Z)
    (negative : bool) (digs : list Z) (t : string) (n : Z) (vals : list Z)
    (cnt : option Z) :
  base = 10 \/ base = 16 ->
  digits_of base digs = true ->
  ends_number base t ->
  run_directives (DInt sg base bits :: ds)
    (mkCursor (sign_text negative ++ digits_text digs ++ t) n) vals cnt =
  run_directives ds
    (mkCursor t (n + Z.of_nat (String.length (sign_text negative))
                   + Z.of_nat (List.length digs)))
    (vals ++ [stored sg bits (signed_value negative (digits_value base digs))])
    cnt.
Proof.
  intros B D T. cbn [run_directives]. rewrite scan_int_text by assumption.
  reflexivity.
Qed.

Lemma run_lit (ds : list directive) (c : ascii) (t : string) (n : Z)
    (vals : list Z) (cnt : option Z) :
  run_directives (DLit c :: ds) (mkCursor (String c t) n) vals cnt =
  run_directives ds (mkCursor t (n + 1)) vals cnt.
Proof. cbn [run_directives rest consumed]. rewrite Ascii.eqb_refl. reflexivity. Qed.

Lemma run_space (ds : list directive) (cur : cursor) (vals : list Z)
    (cnt : option Z) :
  run_directives (DSpace :: ds) cur vals cnt =
  run_directives ds (skip_space (rest cur) (consumed cur)) vals cnt.
Proof. reflexivity. Qed.

Lemma append_empty (s : string) : (s ++ "")%string = s.
Proof. induction s as [|c s IH]; simpl; [reflexivity | rewrite IH; reflexivity]. Qed.

Lemma substr_from_start (s : string) : substr_from s 0 = s.
Proof.
  unfold substr_from. cbn [Z.to_nat]. rewrite Nat.sub_0_r.
  apply substring_all. lia.
Qed.

Lemma fold_digits_nonneg (base : Z) (ds : list Z) :
  base = 10 \/ base = 16 ->
  forallb (fun d => (0 <=? d) && (d <? base)) ds = true ->
  forall acc, 0 <= acc -> 0 <= fold_left (fun a d => a * base + d) ds acc.
Proof.
  intros B. induction ds as [|d ds IH]; intros F acc A; [exact A |].
  apply digits_of_cons in F. destruct F as [Hd F].
  cbn [fold_left]. apply IH; [exact F |]. destruct B; subst base; nia.
Qed.

Lemma digits_value_nonneg (base : Z) (ds : list Z) :
  base = 10 \/ base = 16 -> digits_of base ds = true ->
  0 <= digits_value base ds.
Proof.
  intros B D. unfold digits_of in D. apply andb_prop in D. destruct D as [_ F].
  apply fold_digits_nonneg; [exact B | exact F | lia].
Qed.

(** The scan of one token whose four numbers are written out. *)
Lemma token_scan (np nd : bool) (p d r v : list Z) :
  digits_of 10 p = true -> digits_of 10 d = true ->
  digits_of 16 r = true -> digits_of 16 v = true ->
  let text := (sign_text np ++ digits_text p ++ "." ++
               sign_text nd ++ digits_text d ++ ":" ++
               digits_text r ++ "=" ++ digits_text v)%string in
  sscanf text mdio_token_format =
  mkScan 4
    [stored true 32 (signed_value np (digits_value 10 p));
     stored true 32 (signed_value nd (digits_value 10 d));
     stored false 32 (digits_value 16 r);
     stored false 32 (digits_value 16 v)]
    (Some (size text)).
Proof.
  intros Dp Dd Dr Dv text.
  assert (L : size text =
              0 + Z.of_nat (String.length (sign_text np)) + Z.of_nat (List.length p) + 1
              + Z.of_nat (String.length (sign_text nd)) + Z.of_nat (List.length d) + 1
              + Z.of_nat (String.length (sign_text false)) + Z.of_nat (List.length r) + 1
              + Z.of_nat (String.length (sign_text false)) + Z.of_nat (List.length v)).
  { unfold size, text. rewrite !length_app, !digits_text_length.
    cbn [sign_text String.length]. lia. }
  rewrite L. unfold text, sscanf, mdio_token_format.
  change (parse_format " %d.%d:%x=%x %n")
    with [DSpace; DInt true 10 32; DLit "."; DInt true 10 32; DLit ":";
          DInt false 16 32; DLit "="; DInt false 16 32; DSpace; DCount].
  rewrite run_space. cbn [rest consumed].
  rewrite (skip_space_number np 10) by auto.
  rewrite run_number by (auto; split; reflexivity).
  cbn [String.append]. rewrite run_lit.
  rewrite run_number by (auto; split; reflexivity).
  cbn [String.append]. rewrite run_lit.
  change (digits_text r ++ String "=" (digits_text v))%string
    with (sign_text false ++ digits_text r ++ String "=" (digits_text v))%string.
  rewrite run_number by (auto; split; reflexivity).
  rewrite run_lit.
  replace (digits_text v) with (sign_text false ++ digits_text v ++ "")%string
    by (cbn [sign_text String.append]; apply append_empty).
  rewrite run_number by (auto; exact I).
  reflexivity.
Qed.

(** X18: How the four numbers of an operation are stored.  A field written
    in decimal, with or without a minus sign, holds its number reduced
    modulo 2^32 while the number fits a 64-bit signed integer, 4294967295
    when it lies above that range and 0 when it lies below; a field
    written in hexadecimal holds its number reduced modulo 2^32 while the
    number fits a 64-bit unsigned integer, and 4294967295 beyond. *)
Theorem mdio_fields_stored (np nd : bool) (p d r v : list Z) :
  digits_of 10 p = true -> digits_of 10 d = true ->
  digits_of 16 r = true -> digits_of 16 v = true ->
  parse_mdio_writes
    (sign_text np ++ digits_text p ++ "." ++
     sign_text nd ++ digits_text d ++ ":" ++
     digits_text r ++ "=" ++ digits_text v) =
  Some [mkOp (field_d (signed_value np (digits_value 10 p)))
             (field_d (signed_value nd (digits_value 10 d)))
             (field_x (digits_value 16 r))
             (field_x (digits_value 16 v))].
Proof.
  intros Dp Dd Dr Dv.
  pose proof (token_scan np nd p d r v Dp Dd Dr Dv) as T. cbv zeta in T.
  set (text := (sign_text np ++ digits_text p ++ "." ++
                sign_text nd ++ digits_text d ++ ":" ++
                digits_text r ++ "=" ++ digits_text v)%string) in *.
  assert (N : (1 <= String.length text)%nat).
  { unfold text. rewrite !length_app. cbn [String.length]. lia. }
  unfold parse_mdio_writes. rewrite parse_mdio_loop_step.
  replace (0 <? size text) with true by (symmetry; apply Z.ltb_lt; unfold size; lia).
  unfold token_at. rewrite substr_from_start, T. cbn [sc_ret sc_vals sc_count nth].
  change (negb (4 =? 4)) with false. cbv iota.
  destruct (String.length text) as [|fuel] eqn:E; [lia |].
  rewrite parse_mdio_loop_step.
  replace (0 + size text <? size text) with false by (symmetry; apply Z.ltb_ge; lia).
  rewrite !stored_field_d, !stored_field_x
    by (apply digits_value_nonneg; auto).
  reflexivity.
Qed.

Lemma mdio_fields_stored_witness :
  parse_mdio_writes "-1.9223372036854775808:10000000000000000=100000000" =
  Some [mkOp 4294967295 4294967295 4294967295 0].
Proof.
  apply (mdio_fields_stored true false [1]
           [9; 2; 2; 3; 3; 7; 2; 0; 3; 6; 8; 5; 4; 7; 7; 5; 8; 0; 8]
           [1; 0; 0; 0; 0; 0; 0; 0; 0; 0; 0; 0; 0; 0; 0; 0; 0]
           [1; 0; 0; 0; 0; 0; 0; 0; 0]); reflexivity.
Defined.

Lemma query_changes_nothing_witness :
  exists evs,
    fst (run sample_config (mkArgs "/etc/10ginit.ini" DO_QUERY "")
           (board mac_aabbccddeeff 0 0) []) = (evs ++ [])%list /\
    Forall changes_nothing evs.
Proof.
  apply (query_changes_nothing sample_config (mkArgs "/etc/10ginit.ini" DO_QUERY "")).
  reflexivity.
Defined.

Lemma store_leaves_core_alone_witness :
  exists evs,
    fst (run sample_config (mkArgs "/etc/10ginit.ini" DO_STORE "aa:bb:cc:dd:ee:ff")
           (board mac_aabbccddeeff 0 0) []) = (evs ++ [])%list /\
    Forall leaves_core_alone evs.
Proof.
  apply (store_leaves_core_alone sample_config
           (mkArgs "/etc/10ginit.ini" DO_STORE "aa:bb:cc:dd:ee:ff")).
  reflexivity.
Defined.

(** ** The MDIO region is used only when it was mapped *)

Lemma getopt_loop_emits (P : event -> Prop) (argv0 : string)
    (opts : list cli_option) :
  (forall f fmt args, P (EvPrintf f fmt args)) ->
  forall a : Args, emits P (getopt_loop argv0 opts a).
Proof.
  intros HP. induction opts as [|o opts IH]; intros a; cbn [getopt_loop].
  - apply emits_ret.
  - destruct o; unfold fprintf;
      repeat first [ apply IH | apply emits_return | apply emits_when
                   | apply emits_emit; apply HP
                   | apply emits_bind; [| intros ] ].
Qed.

Lemma emits_bind_ret {A B : Type} (P : event -> Prop) (a : A) (k : A -> M B) :
  emits P (k a) -> emits P (bind (ret a) k).
Proof. intros H hw log. exact (H hw log). Qed.

Lemma do_initialize_no_phy (config : Config) (macbuf : list byte) :
  mdio_reg_writes config = "" ->
  emits not_mdio (do_initialize config macbuf).
Proof.
  intros H.
  unfold do_initialize, parse_mdio_writes_or_hang. rewrite H.
  change (parse_mdio_writes "") with (Some (@nil MDIO_Operation)).
  cbn [mdio_write_all].
  unfold configure_gbe, fprintf, perror, usleep, easymem_safewrite32,
    easymem_saferead32, gpiod_line_set_value, gpiod_line_request_output,
    UNSAFE_REG32.
  emits_auto ltac:(idtac; match goal with
                          | |- emits _ (bind (ret _) _) =>
                              apply emits_bind_ret; cbn [mdio_write_all]
                          end).
Qed.

(** X20: With no MDIO writes configured the MDIO region is not mapped, and
    then no run touches it: whatever the options, the action and the
    hardware's answers, the region is neither mapped nor accessed. *)
Theorem unmapped_mdio_never_accessed (argv0 : string) (opts : list cli_option)
    (action0 : Action) (config : Config) (hw : hardware) (log : list event) :
  mdio_reg_writes config = "" ->
  exists evs,
    fst (main argv0 opts action0 config hw log) = (evs ++ log)%list /\
    Forall not_mdio evs.
Proof.
  intros H. revert hw log.
  change (emits not_mdio (main argv0 opts action0 config)).
  unfold main. apply emits_bind; [apply getopt_loop_emits; intros; exact I |].
  intros a. unfold fprintf. apply emits_bind; [emits_auto fail |]. intros _.
  unfold run. rewrite H. cbn [String.length Nat.eqb negb when].
  unfold perror, easymem_map_uio, realpath, gpiod_chip_open,
    gpiod_chip_get_line, open, i2c_read.
  emits_auto ltac:(idtac; match goal with
                          | |- emits _ (match action ?a with _ => _ end) =>
                              destruct (action a)
                          | |- emits _ (do_initialize _ _) =>
                              apply do_initialize_no_phy; exact H
                          | |- emits _ (do_query _ _) =>
                              unfold do_query, fprintf
                          | |- emits _ (do_store _ _ _) =>
                              unfold do_store, fprintf, perror, sleep, i2c_read,
                                i2c_write
                          end).
Qed.

Lemma unmapped_mdio_never_accessed_witness :
  exists evs,
    fst (main "10ginit" [OptI] DO_NOTHING
           (mkConfig "/dev/uio0" "/dev/uio1" "" "/dev/gpiochip0" 3 "/dev/i2c-0"
                     0x50 0xfa "aa:bb")
           (board mac_aabbccddeeff 0xddccbbaa 0xffee) []) = (evs ++ [])%list /\
    Forall not_mdio evs.
Proof.
  apply (unmapped_mdio_never_accessed "10ginit" [OptI] DO_NOTHING
           (mkConfig "/dev/uio0" "/dev/uio1" "" "/dev/gpiochip0" 3 "/dev/i2c-0"
                     0x50 0xfa "aa:bb")
           (board mac_aabbccddeeff 0xddccbbaa 0xffee) []).
  reflexivity.
Defined.

(** ** Verdicts of the validation *)

(** X21: The verdict of [validate_mac_address] depends on the prefix and the
    address only, not on [warn], the hardware or the log.  A rejection is
    explained by exactly one message on stderr that names the formatted
    address; an acceptance is silent, except for the one warning printed
    when no prefix is configured and [warn] is set. *)
Theorem validate_mac_address_explains (pre : string) (macbuf : list byte)
    (warn : bool) (hw : hardware) (log : list event) :
  exists evs ok,
    validate_mac_address pre macbuf warn hw log = ((evs ++ log)%list, Ret ok) /\
    (forall warn' hw' log',
        snd (validate_mac_address pre macbuf warn' hw' log') = Ret ok) /\
    (ok = false ->
     exists fmt args,
       evs = [EvPrintf stderr fmt (AStr (mac_text macbuf) :: args)]) /\
    (ok = true ->
     (pre = "" /\ warn = true /\ exists fmt, evs = [EvPrintf stderr fmt []]) \/
     ((pre <> "" \/ warn = false) /\ evs = [])).
Proof.
  unfold validate_mac_address, format_mac_or_throw.
  destruct pre as [|c pre].
  - cbn [String.length Nat.eqb].
    destruct warn; steps.
    + eexists [_], true. split; [reflexivity |].
      split; [intros [|] hw' log'; reflexivity |].
      split; [discriminate |]. intros _. left.
      split; [reflexivity |]. split; [reflexivity |]. eexists. reflexivity.
    + exists [], true. split; [reflexivity |].
      split; [intros [|] hw' log'; reflexivity |].
      split; [discriminate |]. intros _. right. split; [right |]; reflexivity.
  - cbn [String.length Nat.eqb]. rewrite format_mac_text.
    cbv beta delta [bind ret fprintf emit] iota.
    destruct (String.eqb (mac_text macbuf) "00:00:00:00:00:00");
      [| destruct (String.eqb (mac_text macbuf) "ff:ff:ff:ff:ff:ff");
         [| destruct (negb (Z.land (byte_to_Z (idx macbuf 0)) 1 =? 0));
            [| destruct (negb (String.eqb
                                 (substring 0 (S (String.length pre))
                                    (mac_text macbuf))
                                 (String c pre))) ] ] ];
      first
        [ eexists [_], false; split; [reflexivity |];
          split; [intros warn' hw' log'; reflexivity |];
          split; [intros _; do 2 eexists; reflexivity | discriminate]
        | exists [], true; split; [reflexivity |];
          split; [intros warn' hw' log'; reflexivity |];
          split; [discriminate |];
          intros _; right; split; [left; discriminate | reflexivity] ].
Qed.

(** ** Prefixes that no address can have *)

Lemma prefix_split (p s : string) :
  String.prefix p s = true -> exists r, s = p ++ r.
Proof.
  revert s. induction p as [|a p IH]; intros s H.
  - exists s. reflexivity.
  - destruct s as [|b s]; [discriminate |]. cbn [String.prefix] in H.
    destruct (ascii_dec a b) as [<- | N]; [| discriminate].
    destruct (IH s H) as [r ->]. exists r. reflexivity.
Qed.

Lemma list_ascii_app (a b : string) :
  list_ascii_of_string (a ++ b) =
  (list_ascii_of_string a ++ list_ascii_of_string b)%list.
Proof. induction a as [|c a IH]; simpl; [reflexivity | rewrite IH; reflexivity]. Qed.

Lemma mac_chars_app (a b : string) :
  mac_chars (a ++ b) = mac_chars a && mac_chars b.
Proof. unfold mac_chars. rewrite list_ascii_app. apply forallb_app. Qed.

Lemma fmt_02hhx_chars (b : byte) : mac_chars (fmt_02hhx b) = true.
Proof. destruct b; vm_compute; reflexivity. Qed.

Lemma mac_text_chars (macbuf : list byte) : mac_chars (mac_text macbuf) = true.
Proof.
  unfold mac_text. rewrite !mac_chars_app, !fmt_02hhx_chars. reflexivity.
Qed.

(** X22: A configured prefix that is longer than the 17 characters of a
    formatted address, or that holds a character other than a lowercase
    hexadecimal digit or a colon (an uppercase digit, say), matches no
    address: [validate_mac_address] then rejects every address. *)
Theorem unusable_prefix_rejects_all (pre : string) (macbuf : list byte)
    (warn : bool) (hw : hardware) (log : list event) :
  (17 < String.length pre)%nat \/ mac_chars pre = false ->
  snd (validate_mac_address pre macbuf warn hw log) = Ret false.
Proof.
  intros H.
  assert (P : String.prefix pre (mac_text macbuf) = false).
  { destruct (String.prefix pre (mac_text macbuf)) eqn:E; [| reflexivity].
    exfalso. destruct (prefix_split _ _ E) as [r R].
    destruct H as [H | H].
    - pose proof (mac_text_length macbuf) as L. rewrite R, length_app in L. lia.
    - pose proof (mac_text_chars macbuf) as C. rewrite R, mac_chars_app, H in C.
      discriminate. }
  unfold validate_mac_address, format_mac_or_throw.
  destruct pre as [|c pre].
  { destruct H as [H | H]; [cbn in H; lia | discriminate]. }
  cbn [String.length Nat.eqb]. rewrite format_mac_text.
  cbv beta delta [bind ret fprintf emit] iota.
  change (S (String.length pre)) with (String.length (String c pre)).
  rewrite substring_prefix, P. cbn [negb].
  destruct (String.eqb (mac_text macbuf) "00:00:00:00:00:00");
    [reflexivity |].
  destruct (String.eqb (mac_text macbuf) "ff:ff:ff:ff:ff:ff");
    [reflexivity |].
  destruct (negb (Z.land (byte_to_Z (idx macbuf 0)) 1 =? 0)); reflexivity.
Qed.

Lemma unusable_prefix_rejects_all_witness :
  snd (validate_mac_address "00:0A:35" [x00; x0a; x35; x00; x01; x02] true
         (board mac_aabbccddeeff 0 0) []) = Ret false /\
  snd (validate_mac_address "00:0a:35:00:01:02:" [x00; x0a; x35; x00; x01; x02] true
         (board mac_aabbccddeeff 0 0) []) = Ret false.
Proof.
  split.
  - apply (unusable_prefix_rejects_all "00:0A:35"). right. vm_compute. reflexivity.
  - apply (unusable_prefix_rejects_all "00:0a:35:00:01:02:"). left.
    vm_compute. reflexivity.
Defined.

(** ** Text after the address *)

Lemma append_assoc_s (a b c : string) : ((a ++ b) ++ c = a ++ (b ++ c))%string.
Proof. induction a as [|x a IH]; simpl; [reflexivity | rewrite IH; reflexivity]. Qed.

(** X23: The scan applied to the [-s] argument stops after the sixth octet:
    whatever follows a well-formed address, if it does not start with a
    hexadecimal digit, is ignored and the address is accepted. *)
Theorem scan_mac_ignores_trailing_text (macbuf : list byte) (junk : string) :
  List.length macbuf = 6%nat ->
  ends_digits junk ->
  scan_mac (mac_text macbuf ++ junk) = Some macbuf.
Proof.
  intros L J.
  destruct macbuf as [|b0 [|b1 [|b2 [|b3 [|b4 [|b5 [|b6 m]]]]]]]; try discriminate.
  unfold scan_mac, sscanf.
  change (parse_format "%hhx:%hhx:%hhx:%hhx:%hhx:%hhx")
    with [DInt false 16 8; DLit ":"; DInt false 16 8; DLit ":"; DInt false 16 8; DLit ":";
          DInt false 16 8; DLit ":"; DInt false 16 8; DLit ":"; DInt false 16 8].
  unfold mac_text. cbn [idx nth]. rewrite !append_assoc_s.
  assert (C : forall t, ends_digits (":" ++ t)) by (intros t; reflexivity).
  rewrite run_octet, run_colon by apply C.
  rewrite run_octet, run_colon by apply C.
  rewrite run_octet, run_colon by apply C.
  rewrite run_octet, run_colon by apply C.
  rewrite run_octet, run_colon by apply C.
  rewrite run_octet by exact J.
  cbn [run_directives app List.length sc_ret sc_vals Z.of_nat Pos.of_succ_nat
       Pos.succ Z.eqb Pos.eqb negb map].
  rewrite !byte_of_to_Z. reflexivity.
Qed.

Lemma scan_mac_ignores_trailing_text_witness :
  scan_mac (mac_text mac_aabbccddeeff ++ " and more") = Some mac_aabbccddeeff.
Proof.
  apply (scan_mac_ignores_trailing_text mac_aabbccddeeff " and more").
  - reflexivity.
  - vm_compute. reflexivity.
Defined.

(** ** The PHY is programmed before the core *)

Lemma configure_gbe_no_phy (config : Config) (macbuf : list byte) :
  emits not_mdio (configure_gbe config macbuf).
Proof.
  unfold configure_gbe, fprintf, perror, usleep, easymem_safewrite32,
    easymem_saferead32, gpiod_line_set_value, UNSAFE_REG32.
  emits_auto fail.
Qed.

(** X24: An initialization works in two phases, the PHY first and the core
    second: no register of the core is accessed in the first, the MDIO
    region is not accessed in the second, and the second begins only when
    every configured MDIO operation has been written. *)
Theorem core_configured_after_phy (config : Config) (macbuf : list byte)
    (hw : hardware) (log : list event) :
  exists phy core out,
    do_initialize config macbuf hw log = ((core ++ phy ++ log)%list, out) /\
    Forall not_gbe phy /\ Forall not_mdio core /\
    (core <> [] ->
     exists ops,
       parse_mdio_writes (mdio_reg_writes config) = Some ops /\
       mdio_writes phy = writes_of_ops ops).
Proof.
  unfold do_initialize. steps.
  name_answer hw. branch.
  { eexists [_; _], [], _. split; [reflexivity |].
    split; [repeat constructor |]. split; [constructor | congruence]. }
  name_answer hw. branch.
  { eexists [_; _; _], [], _. split; [reflexivity |].
    split; [repeat constructor |]. split; [constructor | congruence]. }
  unfold parse_mdio_writes_or_hang.
  destruct (parse_mdio_writes (mdio_reg_writes config)) as [ops|].
  2:{ unfold bind. eexists [_; _; _], [], _. split; [reflexivity |].
      split; [repeat constructor |]. split; [constructor | congruence]. }
  step. rewrite bind_unfold.
  set (three := [EvUsleep GBE_RST_SETTLE_US; EvSetValue 1 (r_ret a0);
                 EvRequestOutput "10ginit" 1 (r_ret a)]).
  change (EvUsleep GBE_RST_SETTLE_US :: EvSetValue 1 (r_ret a0)
          :: EvRequestOutput "10ginit" 1 (r_ret a) :: log)
    with (three ++ log)%list.
  assert (F3 : Forall not_gbe three) by (repeat constructor).
  destruct (mdio_write_all_emits ops hw (three ++ log)%list) as (evsM & EM & FM).
  apply mdio_event_not_gbe in FM.
  destruct (mdio_write_all ops hw (three ++ log)%list) as [logM outM] eqn:RM.
  cbn [fst] in EM. subst logM.
  assert (FP : Forall not_gbe (evsM ++ three)) by (apply Forall_app; split; assumption).
  destruct outM as [[] | c | |];
    try (eexists (evsM ++ three)%list, [], _;
         split; [rewrite <- app_assoc; reflexivity |];
         split; [exact FP |]; split; [constructor | congruence]).
  destruct (mdio_write_all_done ops hw _ _ RM) as (evsM' & EM' & WM).
  apply app_inv_tail in EM'. subst evsM'.
  destruct (configure_gbe_no_phy config macbuf hw (evsM ++ three ++ log)%list)
    as (evsC & EC & FC).
  destruct (configure_gbe config macbuf hw (evsM ++ three ++ log)%list)
    as [logC outC].
  cbn [fst] in EC. subst logC.
  exists (evsM ++ three)%list, evsC, outC.
  split; [rewrite <- !app_assoc; reflexivity |].
  split; [exact FP |]. split; [exact FC |].
  intros _. exists ops. split; [reflexivity |].
  rewrite mdio_writes_app, WM.
  reflexivity.
Qed.
